(** * EGS_Mesh: a shallow embedding of egs_mesh.cpp

    The tetrahedral mesh geometry of EGSnrc (HEN_HOUSE/egs++/geometry/egs_mesh)
    answers three queries: which element contains a point ([isWhere]), how far
    a particle travels before it leaves its element ([howfar]) and a lower
    bound on the distance to the mesh boundary ([hownear]).

    [EGS_Float] is a typedef of the C++ sources (double, or float in a SINGLE
    build), so the embedding is written once over an interface of scalar
    operations, [Scalar], and used at IEEE binary64 ([PrimFloat.float], which
    evaluates the code bit for bit).  Statements about the control flow are
    proved for every instance of the interface; statements that depend on the
    arithmetic are proved of binary64, from the specification of its
    operations ([FloatAxioms]). *)

From stdpp Require Import base strings gmap list.
From Stdlib Require Import ZArith Lia Psatz.
From Stdlib Require Import PrimFloat.
From Stdlib Require FloatOps FloatAxioms SpecFloat.
From Stdlib Require Import Sorted.

Set Warnings "-inexact-float".

Open Scope Z_scope.

(** ** Scalars *)

(** The operations the sources apply to an [EGS_Float].  Comparisons return
    [bool], as in C++; [a > b] is written [fltb b a] and [a >= b] is
    [fleb b a]. *)
Class Scalar (F : Type) := {
  f0 : F;                       (* 0.0 *)
  f1 : F;                       (* 1.0 *)
  f2 : F;                       (* 2.0 *)
  fadd : F -> F -> F;
  fsub : F -> F -> F;
  fmul : F -> F -> F;
  fdiv : F -> F -> F;
  fopp : F -> F;
  fsqrt : F -> F;
  fabs : F -> F;
  fltb : F -> F -> bool;
  fleb : F -> F -> bool;
  eps : F;                      (* const EGS_Float eps = 1e-8 *)
  eps_ray : F;                  (* the local eps = 1e-10 of the ray tests *)
  f1e30 : F                     (* 1e30 *)
}.

(** [std::numeric_limits<EGS_Float>]: the largest finite value and infinity. *)
Class Limits (F : Type) := {
  numeric_max : F;
  numeric_infinity : F
}.

Declare Scope egs_scope.
Delimit Scope egs_scope with egs.
Infix "+" := fadd : egs_scope.
Infix "-" := fsub : egs_scope.
Infix "*" := fmul : egs_scope.
Infix "/" := fdiv : egs_scope.
Notation "- a" := (fopp a) : egs_scope.
Notation "a <? b" := (fltb a b) : egs_scope.
Notation "a <=? b" := (fleb a b) : egs_scope.
Notation "a >? b" := (fltb b a) : egs_scope.
Notation "a >=? b" := (fleb b a) : egs_scope.

(** An error-or-value result for the constructors.  They throw
    [std::runtime_error] with the message noted beside each case, except for
    [MapAtOutOfRange], the [std::out_of_range] that [unordered_map::at]
    throws for a missing key: it is no [runtime_error] and names no key. *)
Inductive exception :=
| TooManyElements
| TooManyNodes
| DuplicateNodes                 (* "duplicate nodes in node list" *)
| NoMeshNode (tag : Z)           (* "No mesh node with tag: " *)
| DuplicateMediumTag (tag : Z)   (* "duplicate medium tag: " *)
| MapAtOutOfRange                (* std::out_of_range, "unordered_map::at" *)
| NeighbourError                 (* thrown by mesh_neighbours *)
| EmptyOctree                    (* "EGS_Mesh_Octree: empty elements vector" *)
| OctreeTooLarge                 (* "num elts must fit into an int" *)
| OctreeDepthExhausted           (* the model's recursion bound was reached *)
| RegionOutOfBounds (ireg : Z).  (* "ireg ... out of bounds for mesh" *)

Inductive result (A : Type) :=
| Ok (a : A)
| Throw (e : exception).
Arguments Ok {A} a.
Arguments Throw {A} e.

Definition rbind {A B} (r : result A) (k : A -> result B) : result B :=
  match r with
  | Ok a => k a
  | Throw e => Throw e
  end.

Notation "'try!' x <- r ; k" := (rbind r (fun x => k))
  (at level 10, x name, r at level 100, k at level 200).

(** [std::array<T, 4>] *)
Record Array4 (T : Type) := mkArray4 { a0 : T; a1 : T; a2 : T; a3 : T }.
Arguments mkArray4 {T}.
Arguments a0 {T}.
Arguments a1 {T}.
Arguments a2 {T}.
Arguments a3 {T}.

Definition get4 {T} (a : Array4 T) (i : nat) : T :=
  match i with
  | O => a0 a
  | 1%nat => a1 a
  | 2%nat => a2 a
  | _ => a3 a
  end.

Definition to_list4 {T} (a : Array4 T) : list T := [a0 a; a1 a; a2 a; a3 a].

(** Vector indexing.  An index out of range is undefined behaviour (or an
    exception, with [at]) in C++; the model then yields the default. *)
Definition at_ {T} (l : list T) (i : Z) (d : T) : T :=
  if i <? 0 then d else nth (Z.to_nat i) l d.

Section Primitives.
Context {F : Type} {SF : Scalar F}.
Local Open Scope egs_scope.

(** Modelled from the spec: [EGS_Vector] (egs_vector.h is not among the
    sources).  A 3D coordinate with the component-wise operations the mesh
    code uses: [+], [-], scaling, the scalar product [a * b], the vector
    product [a.times(b)], [length2], [length] and [normalize]. *)
Record EGS_Vector := mkVec { vx : F; vy : F; vz : F }.

Definition vadd (a b : EGS_Vector) : EGS_Vector :=
  mkVec (vx a + vx b) (vy a + vy b) (vz a + vz b).

Definition vsub (a b : EGS_Vector) : EGS_Vector :=
  mkVec (vx a - vx b) (vy a - vy b) (vz a - vz b).

Definition vscale (f : F) (a : EGS_Vector) : EGS_Vector :=
  mkVec (vx a * f) (vy a * f) (vz a * f).

Definition length2 (a : EGS_Vector) : F :=
  vx a * vx a + vy a * vy a + vz a * vz a.

Definition length (a : EGS_Vector) : F := fsqrt (length2 a).

Definition normalize (a : EGS_Vector) : EGS_Vector :=
  let tmp := f1 / length a in
  mkVec (vx a * tmp) (vy a * tmp) (vz a * tmp).

Definition fmin (a b : F) : F := if b <? a then b else a.   (* std::min *)
Definition fmax (a b : F) : F := if a <? b then b else a.   (* std::max *)

Definition approx_eq (a b e : F) : bool :=
  fabs (a - b) <=? e * (fabs a + fabs b + f1).

Definition is_zero (v : EGS_Vector) : bool := approx_eq f0 (length v) eps.

Definition min3 (a b c : F) : F := fmin (fmin a b) c.
Definition max3 (a b c : F) : F := fmax (fmax a b) c.

Definition dot (a b : EGS_Vector) : F :=
  vx a * vx b + vy a * vy b + vz a * vz b.

Definition cross (a b : EGS_Vector) : EGS_Vector :=
  mkVec (vy a * vz b - vz a * vy b)
        (vz a * vx b - vx a * vz b)
        (vx a * vy b - vy a * vx b).

Definition distance2 (a b : EGS_Vector) : F := length2 (vsub a b).
Definition distance (a b : EGS_Vector) : F := fsqrt (distance2 a b).

Definition closest_point_triangle (P A B C : EGS_Vector) : EGS_Vector :=
  let ab := vsub B A in
  let ac := vsub C A in
  let ao := vsub P A in
  let d1 := dot ab ao in
  let d2 := dot ac ao in
  if (d1 <=? f0) && (d2 <=? f0) then A else
  let bo := vsub P B in
  let d3 := dot ab bo in
  let d4 := dot ac bo in
  if (d3 >=? f0) && (d4 <=? d3) then B else
  let vc := d1 * d4 - d3 * d2 in
  if (vc <=? f0) && (d1 >=? f0) && (d3 <=? f0) then
    let v := d1 / (d1 - d3) in
    vadd A (vscale v ab)
  else
  let co := vsub P C in
  let d5 := dot ab co in
  let d6 := dot ac co in
  if (d6 >=? f0) && (d5 <=? d6) then C else
  let vb := d5 * d2 - d1 * d6 in
  if (vb <=? f0) && (d2 >=? f0) && (d6 <=? f0) then
    let w := d2 / (d2 - d6) in
    vadd A (vscale w ac)
  else
  let va := d3 * d6 - d5 * d4 in
  if (va <=? f0) && ((d4 - d3) >=? f0) && ((d5 - d6) >=? f0) then
    let w := (d4 - d3) / ((d4 - d3) + (d5 - d6)) in
    vadd B (vscale w (vsub C B))
  else
  let denom := f1 / (va + vb + vc) in
  let v := vb * denom in
  let w := vc * denom in
  vadd (vadd A (vscale v ab)) (vscale w ac).

(** True when [P] and the reference point [D] lie on opposite sides of the
    plane through [A], [B], [C]. *)
Definition point_outside_of_plane (P A B C D : EGS_Vector) : bool :=
  dot (vsub P A) (cross (vsub B A) (vsub C A))
    * dot (vsub D A) (cross (vsub B A) (vsub C A)) <? f0.

(** The lambda [maybe_update_min_point] of [closest_point_tetrahedron]; the
    state it captures by reference is the pair (min, min_point). *)
Definition maybe_update_min_point (P : EGS_Vector) (st : F * EGS_Vector)
    (A B C : EGS_Vector) : F * EGS_Vector :=
  let q := closest_point_triangle P A B C in
  let dis := distance2 q P in
  if dis <? fst st then (dis, q) else st.

Definition closest_point_tetrahedron {LF : Limits F} (P A B C D : EGS_Vector)
    : EGS_Vector :=
  let st0 := (numeric_max, P) in
  let st1 := if point_outside_of_plane P A B C D
             then maybe_update_min_point P st0 A B C else st0 in
  let st2 := if point_outside_of_plane P A C D B
             then maybe_update_min_point P st1 A C D else st1 in
  let st3 := if point_outside_of_plane P A B D C
             then maybe_update_min_point P st2 A B D else st2 in
  let st4 := if point_outside_of_plane P B D C A
             then maybe_update_min_point P st3 B D C else st3 in
  snd st4.

(** [interior_triangle_ray_intersection]: the [int] result is a truth value
    and [dist] is an out-parameter, so the model takes the value [dist] holds
    at the call and returns the pair (result, value of [dist] at return). *)
Definition interior_triangle_ray_intersection
    (p v_norm face_norm a b c : EGS_Vector) (dist : F) : bool * F :=
  if dot v_norm face_norm >? - eps_ray then (false, dist) else
  if dot face_norm (vsub p a) <? f0 then (false, dist) else
  let ab := vsub b a in
  let ac := vsub c a in
  let pvec := cross v_norm ac in
  let det := dot ab pvec in
  if (det >? - eps_ray) && (det <? eps_ray) then (false, dist) else
  let inv_det := f1 / det in
  let tvec := vsub p a in
  let u := dot tvec pvec * inv_det in
  if (u <? f0) || (u >? f1) then (false, dist) else
  let qvec := cross tvec ab in
  let v := dot v_norm qvec * inv_det in
  if (v <? f0) || (u + v >? f1) then (false, dist) else
  let dist' := dot ac qvec * inv_det in
  if dist' <? f0 then (false, f0) else (true, dist').

End Primitives.

Arguments EGS_Vector F : clear implicits.

(** ** Bounding boxes (EGS_Mesh_Octree::BoundingBox) *)

Section BoundingBoxes.
Context {F : Type} {SF : Scalar F}.
Local Open Scope egs_scope.
Local Abbreviation Vec := (EGS_Vector F).

Record BoundingBox := mkBox {
  min_x : F; max_x : F;
  min_y : F; max_y : F;
  min_z : F; max_z : F
}.

Definition mid_x (b : BoundingBox) : F := (min_x b + max_x b) / f2.
Definition mid_y (b : BoundingBox) : F := (min_y b + max_y b) / f2.
Definition mid_z (b : BoundingBox) : F := (min_z b + max_z b) / f2.

Definition expand (b : BoundingBox) (delta : F) : BoundingBox :=
  mkBox (min_x b - delta) (max_x b + delta)
        (min_y b - delta) (max_y b + delta)
        (min_z b - delta) (max_z b + delta).

(** One pass of the double loop over [unit_vecs] and [edge_vecs] in
    [intersects_triangle]: [true] when the axis [cross(u, f)] is found to
    separate the triangle from the box (the C++ then returns [false]). *)
Definition edge_axis_separates (ex ey ez : F) (v0 v1 v2 u f : Vec) : bool :=
  let ux := mkVec f1 f0 f0 in
  let uy := mkVec f0 f1 f0 in
  let uz := mkVec f0 f0 f1 in
  let a := cross u f in
  if is_zero a then false else
  let r := ex * fabs (dot ux a) + ey * fabs (dot uy a) + ez * fabs (dot uz a) in
  let p0 := dot v0 a in
  let p1 := dot v1 a in
  let p2 := dot v2 a in
  fmax (- max3 p0 p1 p2) (min3 p0 p1 p2) + eps >? r.

Definition intersects_triangle (bb : BoundingBox) (a b c : Vec) : bool :=
  if (min3 (vx a) (vx b) (vx c) >=? max_x bb) ||
     (min3 (vy a) (vy b) (vy c) >=? max_y bb) ||
     (min3 (vz a) (vz b) (vz c) >=? max_z bb) ||
     (max3 (vx a) (vx b) (vx c) <=? min_x bb) ||
     (max3 (vy a) (vy b) (vy c) <=? min_y bb) ||
     (max3 (vz a) (vz b) (vz c) <=? min_z bb)
  then false else
  let centre := mkVec (mid_x bb) (mid_y bb) (mid_z bb) in
  let ex := (max_x bb - min_x bb) / f2 in
  let ey := (max_y bb - min_y bb) / f2 in
  let ez := (max_z bb - min_z bb) / f2 in
  let v0 := vsub a centre in
  let v1 := vsub b centre in
  let v2 := vsub c centre in
  let edge_vecs := [vsub v1 v0; vsub v2 v1; vsub v0 v2] in
  let unit_vecs := [mkVec f1 f0 f0; mkVec f0 f1 f0; mkVec f0 f0 f1] in
  if existsb (fun u =>
       existsb (fun f => edge_axis_separates ex ey ez v0 v1 v2 u f) edge_vecs)
       unit_vecs
  then false else
  if (max3 (vx v0) (vx v1) (vx v2) <=? - ex) ||
     (min3 (vx v0) (vx v1) (vx v2) >=? ex) ||
     (max3 (vy v0) (vy v1) (vy v2) <=? - ey) ||
     (min3 (vy v0) (vy v1) (vy v2) >=? ey) ||
     (max3 (vz v0) (vz v1) (vz v2) <=? - ez) ||
     (min3 (vz v0) (vz v1) (vz v2) >=? ez)
  then false else
  let n := cross (vsub v1 v0) (vsub v2 v1) in
  let r := ex * fabs (vx n) + ey * fabs (vy n) + ez * fabs (vz n) in
  let s := dot n centre - dot n a in
  fabs s <=? r.

Definition min_interior_distance (bb : BoundingBox) (point : Vec) : F :=
  fmin (vx point - min_x bb) (fmin (vy point - min_y bb)
  (fmin (vz point - min_z bb) (fmin (max_x bb - vx point)
  (fmin (max_y bb - vy point) (max_z bb - vz point))))).

(** The loop of [closest_point] for one coordinate: both [if]s test the
    original [p[i]]. *)
Definition clamp (p lo hi : F) : F :=
  let q := if p <? lo then lo else p in
  if p >? hi then hi else q.

Definition closest_point (bb : BoundingBox) (point : Vec) : Vec :=
  mkVec (clamp (vx point) (min_x bb) (max_x bb))
        (clamp (vy point) (min_y bb) (max_y bb))
        (clamp (vz point) (min_z bb) (max_z bb)).

Definition contains (bb : BoundingBox) (point : Vec) : bool :=
  (vx point >=? min_x bb) && (vx point <? max_x bb) &&
  (vy point >=? min_y bb) && (vy point <? max_y bb) &&
  (vz point >=? min_z bb) && (vz point <? max_z bb).

Definition is_indivisible (bb : BoundingBox) : bool :=
  approx_eq (min_x bb) (mid_x bb) eps ||
  approx_eq (max_x bb) (mid_x bb) eps ||
  approx_eq (min_y bb) (mid_y bb) eps ||
  approx_eq (max_y bb) (mid_y bb) eps ||
  approx_eq (min_z bb) (mid_z bb) eps ||
  approx_eq (max_z bb) (mid_z bb) eps.

(** The eight octants, numbered along an S: bit 0 is +x, bit 1 is +y, bit 2
    is +z. *)
Definition divide8 (bb : BoundingBox) : list BoundingBox :=
  [ mkBox (min_x bb) (mid_x bb) (min_y bb) (mid_y bb) (min_z bb) (mid_z bb);
    mkBox (mid_x bb) (max_x bb) (min_y bb) (mid_y bb) (min_z bb) (mid_z bb);
    mkBox (min_x bb) (mid_x bb) (mid_y bb) (max_y bb) (min_z bb) (mid_z bb);
    mkBox (mid_x bb) (max_x bb) (mid_y bb) (max_y bb) (min_z bb) (mid_z bb);
    mkBox (min_x bb) (mid_x bb) (min_y bb) (mid_y bb) (mid_z bb) (max_z bb);
    mkBox (mid_x bb) (max_x bb) (min_y bb) (mid_y bb) (mid_z bb) (max_z bb);
    mkBox (min_x bb) (mid_x bb) (mid_y bb) (max_y bb) (mid_z bb) (max_z bb);
    mkBox (mid_x bb) (max_x bb) (mid_y bb) (max_y bb) (mid_z bb) (max_z bb) ].

(** An octree node: a leaf holds the elements its box meets
    ([children_.empty()]), a parent owns exactly eight children. *)
Inductive Node :=
| Leaf (elts_ : list Z) (bbox_ : BoundingBox)
| Parent (bbox_ : BoundingBox) (c0 c1 c2 c3 c4 c5 c6 c7 : Node).

Definition bbox_ (n : Node) : BoundingBox :=
  match n with
  | Leaf _ bb => bb
  | Parent bb _ _ _ _ _ _ _ _ => bb
  end.

Definition findOctant (n : Node) (p : Vec) : nat :=
  let o1 := if vx p >=? mid_x (bbox_ n) then 1%nat else 0%nat in
  let o2 := if vy p >=? mid_y (bbox_ n) then 2%nat else 0%nat in
  let o3 := if vz p >=? mid_z (bbox_ n) then 4%nat else 0%nat in
  (o1 + o2 + o3)%nat.

Record EGS_Mesh_Octree := mkOctree { root_ : Node }.

End BoundingBoxes.

Arguments BoundingBox F : clear implicits.
Arguments Node F : clear implicits.
Arguments EGS_Mesh_Octree F : clear implicits.

(** ** The mesh data store (class EGS_Mesh) *)

(** The records of the constructor's input. *)
Record Tetrahedron := mkTetrahedron {
  tet_tag : Z; medium_tag : Z;
  tet_a : Z; tet_b : Z; tet_c : Z; tet_d : Z
}.

Record Medium := mkMedium { med_tag : Z; medium_name : string }.

Section Mesh.
Context {F : Type} {SF : Scalar F}.
Local Open Scope egs_scope.
Local Abbreviation Vec := (EGS_Vector F).

Record MeshNode := mkMeshNode { node_tag : Z; node_x : F; node_y : F; node_z : F }.

(** [EGS_Mesh::Nodes]: the four corners of one element. *)
Record Nodes := mkNodes { nA : Vec; nB : Vec; nC : Vec; nD : Vec }.

(** The data members of [EGS_Mesh].  [halfBoundaryTolerance] is a static
    member of the base class, set from the input file; it is carried here as
    a field.  The two octrees are held through [unique_ptr] in C++; before
    [initializeOctrees] runs the model holds [empty_octree] in their place. *)
Record EGS_Mesh := mkMesh {
  _elt_tags : list Z;
  _elt_node_indices : list (Array4 Z);
  _nodes : list Vec;
  _medium_names : list string;
  _medium_indices : list Z;
  _neighbours : list (Array4 Z);
  _boundary_faces : list bool;
  _face_normals : list (Array4 Vec);
  _volume_tree : EGS_Mesh_Octree F;
  _surface_tree : EGS_Mesh_Octree F;
  halfBoundaryTolerance : F
}.

Definition vec0 : Vec := mkVec f0 f0 f0.
Definition empty_box : BoundingBox F := mkBox f0 f0 f0 f0 f0 f0.
Definition empty_octree : EGS_Mesh_Octree F := mkOctree (Leaf [] empty_box).

Definition num_elements (M : EGS_Mesh) : Z := Z.of_nat (List.length (_elt_tags M)).

(** Modelled from the spec: [EGS_Mesh::element_nodes] (egs_mesh.h is not
    among the sources): the coordinates of an element's four nodes, through
    its node indices. *)
Definition element_nodes (M : EGS_Mesh) (element : Z) : Nodes :=
  let ix := at_ (_elt_node_indices M) element (mkArray4 0 0 0 0)%Z in
  mkNodes (at_ (_nodes M) (a0 ix) vec0) (at_ (_nodes M) (a1 ix) vec0)
          (at_ (_nodes M) (a2 ix) vec0) (at_ (_nodes M) (a3 ix) vec0).

(** Modelled from the spec: [EGS_Mesh::is_boundary] (egs_mesh.h): an element
    is a boundary element when one of its four faces has no neighbour. *)
Definition is_boundary (M : EGS_Mesh) (reg : Z) : bool :=
  at_ (_boundary_faces M) (4 * reg)%Z false ||
  at_ (_boundary_faces M) (4 * reg + 1)%Z false ||
  at_ (_boundary_faces M) (4 * reg + 2)%Z false ||
  at_ (_boundary_faces M) (4 * reg + 3)%Z false.

Definition insideElement (M : EGS_Mesh) (i : Z) (x : Vec) : bool :=
  let n := element_nodes M i in
  if point_outside_of_plane x (nA n) (nB n) (nC n) (nD n) then false else
  if point_outside_of_plane x (nA n) (nC n) (nD n) (nB n) then false else
  if point_outside_of_plane x (nA n) (nB n) (nD n) (nC n) then false else
  if point_outside_of_plane x (nB n) (nC n) (nD n) (nA n) then false else
  true.

(** ** The octree (class EGS_Mesh_Octree) *)

Definition tet_min_x (n : Nodes) : F :=
  fmin (vx (nA n)) (fmin (vx (nB n)) (fmin (vx (nC n)) (vx (nD n)))).
Definition tet_max_x (n : Nodes) : F :=
  fmax (vx (nA n)) (fmax (vx (nB n)) (fmax (vx (nC n)) (vx (nD n)))).
Definition tet_min_y (n : Nodes) : F :=
  fmin (vy (nA n)) (fmin (vy (nB n)) (fmin (vy (nC n)) (vy (nD n)))).
Definition tet_max_y (n : Nodes) : F :=
  fmax (vy (nA n)) (fmax (vy (nB n)) (fmax (vy (nC n)) (vy (nD n)))).
Definition tet_min_z (n : Nodes) : F :=
  fmin (vz (nA n)) (fmin (vz (nB n)) (fmin (vz (nC n)) (vz (nD n)))).
Definition tet_max_z (n : Nodes) : F :=
  fmax (vz (nA n)) (fmax (vz (nB n)) (fmax (vz (nC n)) (vz (nD n)))).

Definition intersects_tetrahedron (bb : BoundingBox F) (tet : Nodes) : bool :=
  intersects_triangle bb (nA tet) (nB tet) (nC tet) ||
  intersects_triangle bb (nA tet) (nC tet) (nD tet) ||
  intersects_triangle bb (nA tet) (nB tet) (nD tet) ||
  intersects_triangle bb (nB tet) (nC tet) (nD tet).

(** The constructor [Node::Node].  It recurses on boxes that halve until
    [is_indivisible] holds; the model bounds the depth by [fuel] and reports
    [OctreeDepthExhausted] when the bound is reached. *)
Fixpoint Node_ctor (fuel : nat) (elts : list Z) (bbox : BoundingBox F)
    (n_max : Z) (mesh : EGS_Mesh) {struct fuel} : result (Node F) :=
  if is_indivisible bbox || (Z.of_nat (List.length elts) <? n_max)%Z then
    Ok (Leaf elts bbox)
  else
    match fuel with
    | O => Throw OctreeDepthExhausted
    | S fuel' =>
      let bbs := divide8 bbox in
      let bb i := nth i bbs bbox in
      let octant i :=
        List.filter (fun e => intersects_tetrahedron (bb i) (element_nodes mesh e)) elts in
      let child i := Node_ctor fuel' (octant i) (bb i) n_max mesh in
      try! c0 <- child 0%nat; try! c1 <- child 1%nat;
      try! c2 <- child 2%nat; try! c3 <- child 3%nat;
      try! c4 <- child 4%nat; try! c5 <- child 5%nat;
      try! c6 <- child 6%nat; try! c7 <- child 7%nat;
      Ok (Parent bbox c0 c1 c2 c3 c4 c5 c6 c7)
    end.

Definition child (n : Node F) (octant : nat) : Node F :=
  match n with
  | Leaf _ _ => n
  | Parent _ c0 c1 c2 c3 c4 c5 c6 c7 =>
    match octant with
    | 0%nat => c0 | 1%nat => c1 | 2%nat => c2 | 3%nat => c3
    | 4%nat => c4 | 5%nat => c5 | 6%nat => c6 | _ => c7
    end
  end.

(** The leaf loop of [Node::isWhere]: the first element of the list that
    contains [p], or -1. *)
Fixpoint isWhere_leaf (M : EGS_Mesh) (elts : list Z) (p : Vec) : Z :=
  match elts with
  | [] => (-1)%Z
  | e :: rest => if insideElement M e p then e else isWhere_leaf M rest p
  end.

Fixpoint Node_isWhere (n : Node F) (p : Vec) (M : EGS_Mesh) : Z :=
  match n with
  | Leaf elts _ => isWhere_leaf M elts p
  | Parent _ c0 c1 c2 c3 c4 c5 c6 c7 =>
    match findOctant n p with
    | 0%nat => Node_isWhere c0 p M | 1%nat => Node_isWhere c1 p M
    | 2%nat => Node_isWhere c2 p M | 3%nat => Node_isWhere c3 p M
    | 4%nat => Node_isWhere c4 p M | 5%nat => Node_isWhere c5 p M
    | 6%nat => Node_isWhere c6 p M | _ => Node_isWhere c7 p M
    end
  end.

Definition Octree_isWhere (t : EGS_Mesh_Octree F) (p : Vec) (M : EGS_Mesh) : Z :=
  if negb (contains (bbox_ (root_ t)) p) then (-1)%Z
  else Node_isWhere (root_ t) p M.

End Mesh.

Arguments MeshNode F : clear implicits.
Arguments Nodes F : clear implicits.
Arguments EGS_Mesh F : clear implicits.

(** [std::unordered_map<int, int>::insert]: an existing key keeps its value;
    the second component tells whether the pair was inserted. *)
Definition umap_insert (m : gmap Z Z) (k v : Z) : gmap Z Z * bool :=
  match m !! k with
  | Some _ => (m, false)
  | None => (<[k := v]> m, true)
  end.

Definition INT_MAX : Z := 2147483647.

(** Modelled from the spec: [mesh_neighbours::tetrahedron_neighbours]
    (mesh_neighbours.h is not among the sources).  Face [i] of an element is
    the one opposite its node [i]; a face is keyed by its three node indices
    in increasing order.  A face no other element has is a boundary face
    (NONE, -1), a face two elements share links them, and a face three or
    more elements share is an error. *)
Definition NONE : Z := -1.

Definition sort3 (a b c : Z) : Z * Z * Z :=
  let lo := Z.min a (Z.min b c) in
  let hi := Z.max a (Z.max b c) in
  (lo, a + b + c - lo - hi, hi).

Definition face_key (e : Array4 Z) (i : nat) : Z * Z * Z :=
  match i with
  | 0%nat => sort3 (a1 e) (a2 e) (a3 e)
  | 1%nat => sort3 (a0 e) (a2 e) (a3 e)
  | 2%nat => sort3 (a0 e) (a1 e) (a3 e)
  | _ => sort3 (a0 e) (a1 e) (a2 e)
  end.

Definition key_eqb (k1 k2 : Z * Z * Z) : bool :=
  let '(a, b, c) := k1 in
  let '(a', b', c') := k2 in
  (a =? a') && (b =? b') && (c =? c').

Definition has_face (k : Z * Z * Z) (e : Array4 Z) : bool :=
  existsb (fun i => key_eqb k (face_key e i)) [0%nat; 1%nat; 2%nat; 3%nat].

(** The elements other than [self] that have the face [k]. *)
Fixpoint sharers (k : Z * Z * Z) (self : Z) (j : Z) (elts : list (Array4 Z)) : list Z :=
  match elts with
  | [] => []
  | e :: rest =>
    if negb (j =? self) && has_face k e
    then j :: sharers k self (j + 1) rest
    else sharers k self (j + 1) rest
  end.

Definition face_neighbour (all : list (Array4 Z)) (self : Z) (e : Array4 Z) (i : nat)
    : result Z :=
  match sharers (face_key e i) self 0 all with
  | [] => Ok NONE
  | [j] => Ok j
  | _ => Throw NeighbourError
  end.

Fixpoint neighbours_from (all : list (Array4 Z)) (self : Z) (elts : list (Array4 Z))
    : result (list (Array4 Z)) :=
  match elts with
  | [] => Ok []
  | e :: rest =>
    try! n0 <- face_neighbour all self e 0%nat;
    try! n1 <- face_neighbour all self e 1%nat;
    try! n2 <- face_neighbour all self e 2%nat;
    try! n3 <- face_neighbour all self e 3%nat;
    try! ns <- neighbours_from all (self + 1) rest;
    Ok (mkArray4 n0 n1 n2 n3 :: ns)
  end.

Definition tetrahedron_neighbours (elts : list (Array4 Z)) : result (list (Array4 Z)) :=
  neighbours_from elts 0 elts.

Section Octree.
Context {F : Type} {SF : Scalar F} {LF : Limits F}.
Local Open Scope egs_scope.
Local Abbreviation Vec := (EGS_Vector F).

Definition hownear_leaf_search (n : Node F) (p : Vec) (M : EGS_Mesh F) : F :=
  let best_dist := min_interior_distance (bbox_ n) p in
  let best_dist2 := best_dist * best_dist in
  let elts := match n with Leaf elts _ => elts | Parent _ _ _ _ _ _ _ _ _ => [] end in
  fsqrt (fold_left (fun best_dist2 e =>
           let n := element_nodes M e in
           fmin best_dist2
             (distance2 p (closest_point_tetrahedron p (nA n) (nB n) (nC n) (nD n))))
         elts best_dist2).

Fixpoint Node_hownear_exterior (n : Node F) (p : Vec) (M : EGS_Mesh F) : F :=
  match n with
  | Leaf _ _ => hownear_leaf_search n p M
  | Parent _ c0 c1 c2 c3 c4 c5 c6 c7 =>
    match findOctant n p with
    | 0%nat => Node_hownear_exterior c0 p M | 1%nat => Node_hownear_exterior c1 p M
    | 2%nat => Node_hownear_exterior c2 p M | 3%nat => Node_hownear_exterior c3 p M
    | 4%nat => Node_hownear_exterior c4 p M | 5%nat => Node_hownear_exterior c5 p M
    | 6%nat => Node_hownear_exterior c6 p M | _ => Node_hownear_exterior c7 p M
    end
  end.

Definition Octree_hownear_exterior (t : EGS_Mesh_Octree F) (p : Vec) (M : EGS_Mesh F) : F :=
  if negb (contains (bbox_ (root_ t)) p)
  then distance (closest_point (bbox_ (root_ t)) p) p
  else Node_hownear_exterior (root_ t) p M.

(** The loop of the constructor that grows the global bounds by one element. *)
Definition grow_bounds (mesh : EGS_Mesh F) (g : BoundingBox F) (e : Z) : BoundingBox F :=
  let nodes := element_nodes mesh e in
  mkBox (fmin (min_x g) (tet_min_x nodes)) (fmax (max_x g) (tet_max_x nodes))
        (fmin (min_y g) (tet_min_y nodes)) (fmax (max_y g) (tet_max_y nodes))
        (fmin (min_z g) (tet_min_z nodes)) (fmax (max_z g) (tet_max_z nodes)).

Definition Octree_ctor (fuel : nat) (elts : list Z) (n_max : Z) (mesh : EGS_Mesh F)
    : result (EGS_Mesh_Octree F) :=
  match elts with
  | [] => Throw EmptyOctree
  | _ =>
    if (INT_MAX <? Z.of_nat (List.length elts))%Z then Throw OctreeTooLarge else
    let INF := numeric_infinity in
    let g_bounds := fold_left (grow_bounds mesh) elts
                      (mkBox INF (- INF) INF (- INF) INF (- INF)) in
    let g_bounds := expand g_bounds eps in      (* expand(1e-8) *)
    try! root <- Node_ctor fuel elts g_bounds n_max mesh;
    Ok (mkOctree root)
  end.

End Octree.

(** ** Construction (EGS_Mesh::EGS_Mesh) *)

Section Construction.
Context {F : Type} {SF : Scalar F} {LF : Limits F}.
Local Open Scope egs_scope.
Local Abbreviation Vec := (EGS_Vector F).

(** The first loop of [initializeElements]: the tag-to-index map and the
    coordinate array, starting at index [i]. *)
Fixpoint build_node_map (nodes : list (MeshNode F)) (i : Z) (node_map : gmap Z Z)
    (coords : list Vec) : gmap Z Z * list Vec :=
  match nodes with
  | [] => (node_map, coords)
  | n :: rest =>
    build_node_map rest (i + 1)%Z (fst (umap_insert node_map (node_tag n) i))
      (coords ++ [mkVec (node_x n) (node_y n) (node_z n)])
  end.

(** The lambda [find_node]. *)
Definition find_node (node_map : gmap Z Z) (tag : Z) : result Z :=
  match node_map !! tag with
  | None => Throw (NoMeshNode tag)
  | Some i => Ok i
  end.

Fixpoint resolve_elements (node_map : gmap Z Z) (elements : list Tetrahedron)
    : result (list Z * list (Array4 Z)) :=
  match elements with
  | [] => Ok ([], [])
  | e :: rest =>
    try! a <- find_node node_map (tet_a e);
    try! b <- find_node node_map (tet_b e);
    try! c <- find_node node_map (tet_c e);
    try! d <- find_node node_map (tet_d e);
    try! r <- resolve_elements node_map rest;
    Ok (tet_tag e :: fst r, mkArray4 a b c d :: snd r)
  end.

Fixpoint build_medium_offsets (materials : list Medium) (i : Z) (offsets : gmap Z Z)
    (names : list string) : result (gmap Z Z * list string) :=
  match materials with
  | [] => Ok (offsets, names)
  | m :: rest =>
    let '(offsets', inserted) := umap_insert offsets (med_tag m) i in
    if negb inserted then Throw (DuplicateMediumTag (med_tag m))
    else build_medium_offsets rest (i + 1)%Z offsets' (names ++ [medium_name m])
  end.

Fixpoint resolve_media (offsets : gmap Z Z) (elements : list Tetrahedron)
    : result (list Z) :=
  match elements with
  | [] => Ok []
  | e :: rest =>
    match offsets !! medium_tag e with
    | None => Throw MapAtOutOfRange
    | Some off => try! r <- resolve_media offsets rest; Ok (off :: r)
    end
  end.

Definition initializeElements (hbt : F) (elements : list Tetrahedron)
    (nodes : list (MeshNode F)) (materials : list Medium) : result (EGS_Mesh F) :=
  let n_max := INT_MAX in
  if (Z.of_nat (List.length elements) >=? n_max)%Z then Throw TooManyElements else
  if (Z.of_nat (List.length nodes) >=? n_max)%Z then Throw TooManyNodes else
  let '(node_map, coords) := build_node_map nodes 0%Z ∅ [] in
  if negb (size node_map =? List.length nodes)%nat then Throw DuplicateNodes else
  try! elts <- resolve_elements node_map elements;
  try! media <- build_medium_offsets materials 0%Z ∅ [];
  try! medium_indices <- resolve_media (fst media) elements;
  Ok (mkMesh (fst elts) (snd elts) coords (snd media) medium_indices
             [] [] [] empty_octree empty_octree hbt).

Definition initializeNeighbours (M : EGS_Mesh F) : result (EGS_Mesh F) :=
  try! neighbours <- tetrahedron_neighbours (_elt_node_indices M);
  let boundary_faces :=
    flat_map (fun ns => List.map (fun n => (n =? NONE)%Z) (to_list4 ns)) neighbours in
  Ok (mkMesh (_elt_tags M) (_elt_node_indices M) (_nodes M) (_medium_names M)
             (_medium_indices M) neighbours boundary_faces (_face_normals M)
             (_volume_tree M) (_surface_tree M) (halfBoundaryTolerance M)).

(** The lambda [get_normal] of [initializeNormals]. *)
Definition get_normal (a b c d : Vec) : Vec :=
  let normal := normalize (cross (vsub b a) (vsub c a)) in
  if dot normal (vsub d a) <? f0 then vscale (- f1) normal else normal.

Definition element_normals (n : Nodes F) : Array4 Vec :=
  mkArray4 (get_normal (nB n) (nC n) (nD n) (nA n))
           (get_normal (nA n) (nC n) (nD n) (nB n))
           (get_normal (nA n) (nB n) (nD n) (nC n))
           (get_normal (nA n) (nB n) (nC n) (nD n)).

(** The element numbers 0 .. n-1, in order. *)
Definition element_range (M : EGS_Mesh F) : list Z :=
  List.map Z.of_nat (seq 0 (List.length (_elt_tags M))).

Definition initializeNormals (M : EGS_Mesh F) : EGS_Mesh F :=
  mkMesh (_elt_tags M) (_elt_node_indices M) (_nodes M) (_medium_names M)
         (_medium_indices M) (_neighbours M) (_boundary_faces M)
         (List.map (fun i => element_normals (element_nodes M i)) (element_range M))
         (_volume_tree M) (_surface_tree M) (halfBoundaryTolerance M).

Definition initializeOctrees (fuel : nat) (M : EGS_Mesh F) : result (EGS_Mesh F) :=
  let elts := element_range M in
  let boundary_elts := List.filter (is_boundary M) elts in
  let n_vol := 200%Z in
  try! volume_tree <- Octree_ctor fuel elts n_vol M;
  let n_surf := 100%Z in
  try! surface_tree <- Octree_ctor fuel boundary_elts n_surf M;
  Ok (mkMesh (_elt_tags M) (_elt_node_indices M) (_nodes M) (_medium_names M)
             (_medium_indices M) (_neighbours M) (_boundary_faces M) (_face_normals M)
             volume_tree surface_tree (halfBoundaryTolerance M)).

(** The constructor.  [fuel] bounds the depth of the two octrees and [hbt] is
    the value of the static [halfBoundaryTolerance]. *)
Definition EGS_Mesh_ctor (fuel : nat) (hbt : F) (elements : list Tetrahedron)
    (nodes : list (MeshNode F)) (materials : list Medium) : result (EGS_Mesh F) :=
  try! M1 <- initializeElements hbt elements nodes materials;
  try! M2 <- initializeNeighbours M1;
  try! M3 <- initializeOctrees fuel M2;
  Ok (initializeNormals M3).

End Construction.

(** ** Queries *)

Section Queries.
Context {F : Type} {SF : Scalar F}.
Local Open Scope egs_scope.
Local Abbreviation Vec := (EGS_Vector F).

Definition isWhere (M : EGS_Mesh F) (x : Vec) : Z :=
  Octree_isWhere (_volume_tree M) x M.

Definition isInside (M : EGS_Mesh F) (x : Vec) : bool :=
  negb (isWhere M x =? -1)%Z.

Definition distance_to_plane (x unit_plane_normal plane_point : Vec) : F :=
  fabs (dot unit_plane_normal (vsub x plane_point)).

Definition face_normal (M : EGS_Mesh F) (ireg : Z) (i : nat) : Vec :=
  get4 (at_ (_face_normals M) ireg (mkArray4 vec0 vec0 vec0 vec0)) i.

Definition min_interior_face_dist (M : EGS_Mesh F) (ireg : Z) (x : Vec) : F :=
  let n := element_nodes M ireg in
  let min_dist := distance_to_plane x (face_normal M ireg 0) (nB n) in
  let min_dist := fmin min_dist (distance_to_plane x (face_normal M ireg 1) (nA n)) in
  let min_dist := fmin min_dist (distance_to_plane x (face_normal M ireg 2) (nA n)) in
  let min_dist := fmin min_dist (distance_to_plane x (face_normal M ireg 3) (nA n)) in
  min_dist.

Definition min_exterior_face_dist {LF : Limits F} (M : EGS_Mesh F) (x : Vec) : F :=
  Octree_hownear_exterior (_surface_tree M) x M.

Definition hownear {LF : Limits F} (M : EGS_Mesh F) (ireg : Z) (x : Vec) : result F :=
  if ((ireg >? 0) && (ireg >? num_elements M - 1))%Z then Throw (RegionOutOfBounds ireg)
  else if (ireg >=? 0)%Z then Ok (min_interior_face_dist M ireg x)
  else Ok (min_exterior_face_dist M x).

(** The three nodes of face [i], as the array [face_nodes] of
    [howfar_interior] lists them: BCD, ACD, ABD, ABC. *)
Definition face_nodes (n : Nodes F) (i : nat) : Vec * Vec * Vec :=
  match i with
  | 0%nat => (nB n, nC n, nD n)
  | 1%nat => (nA n, nC n, nD n)
  | 2%nat => (nA n, nB n, nD n)
  | _ => (nA n, nB n, nC n)
  end.

Definition neighbour (M : EGS_Mesh F) (ireg : Z) (i : nat) : Z :=
  get4 (at_ (_neighbours M) ireg (mkArray4 NONE NONE NONE NONE)) i.

(** What [howfar_interior_find_lost_particle] does: it returns a region, or
    it calls [egsFatal], which ends the process. *)
Inductive lost_particle :=
| Found (newreg : Z)
| egsFatal.

(** The loop over [_neighbours[ireg]]. *)
Fixpoint search_neighbours (M : EGS_Mesh F) (neighbours : list Z) (x : Vec)
    : option Z :=
  match neighbours with
  | [] => None
  | nb :: rest =>
    if (nb =? -1)%Z then search_neighbours M rest x
    else if insideElement M nb x then Some nb
    else search_neighbours M rest x
  end.

Definition howfar_interior_find_lost_particle (M : EGS_Mesh F) (ireg : Z)
    (x u : Vec) : lost_particle :=
  match search_neighbours M
          (to_list4 (at_ (_neighbours M) ireg (mkArray4 NONE NONE NONE NONE))) x with
  | Some nb => Found nb
  | None =>
    let newreg := isWhere M x in
    if (newreg =? ireg)%Z then egsFatal else Found newreg
  end.

(** What a call of [howfar_interior] leaves behind: the region it returns,
    the value of the in-out parameter [t], and the face normal handed to
    [update_normal] (none in the lost-particle case); or the process has been
    ended by [egsFatal].  The medium is updated from the returned region by
    [update_medium] when a face is reported and in the lost-particle case;
    where the region of the call is returned with [t] unchanged, it is not. *)
Inductive howfar_outcome :=
| Returned (newreg : Z) (t : F) (normal : option Vec)
| Aborted.

(** The [for] loop over the four faces, followed by the code after it.  The
    locals [is_lost] and [dist] are threaded through the iterations. *)
Fixpoint howfar_interior_loop (M : EGS_Mesh F) (ireg : Z) (x u : Vec) (t : F)
    (faces : list nat) (is_lost : bool) (dist : F) : howfar_outcome :=
  match faces with
  | i :: rest =>
    let '(fa, fb, fc) := face_nodes (element_nodes M ireg) i in
    let fnorm := face_normal M ireg i in
    if negb (dot fnorm (vsub x fa) >=? f0) then
      howfar_interior_loop M ireg x u t rest is_lost dist
    else
      let '(hit, dist) := interior_triangle_ray_intersection x u fnorm fa fb fc dist in
      if negb hit then howfar_interior_loop M ireg x u t rest is_lost dist
      else if dist >? t then howfar_interior_loop M ireg x u t rest false dist
      else
        let dist := if dist <=? halfBoundaryTolerance M then f0 else dist in
        Returned (neighbour M ireg i) dist (Some fnorm)
  | [] =>
    if negb is_lost then Returned ireg t None
    else
      match howfar_interior_find_lost_particle M ireg x u with
      | Found newreg => Returned newreg f0 None
      | egsFatal => Aborted
      end
  end.

Definition howfar_interior (M : EGS_Mesh F) (ireg : Z) (x u : Vec) (t : F)
    : howfar_outcome :=
  howfar_interior_loop M ireg x u t [0%nat; 1%nat; 2%nat; 3%nat] true f1e30.

(** [howfar]: a negative region is the state Outside, whose boundary ray cast
    ([howfar_exterior]) is outside this development and is passed in as
    [exterior]. *)
Definition howfar (M : EGS_Mesh F) (exterior : howfar_outcome) (ireg : Z)
    (x u : Vec) (t : F) : howfar_outcome :=
  if (ireg <? 0)%Z then exterior else howfar_interior M ireg x u t.

End Queries.

(** ** The scalar instance *)

(** IEEE binary64, the [double] of the default build. *)
#[global]
Instance Scalar_float : Scalar float := {|
  f0 := 0%float; f1 := 1%float; f2 := 2%float;
  fadd := PrimFloat.add; fsub := PrimFloat.sub;
  fmul := PrimFloat.mul; fdiv := PrimFloat.div;
  fopp := PrimFloat.opp; fsqrt := PrimFloat.sqrt; fabs := PrimFloat.abs;
  fltb := PrimFloat.ltb; fleb := PrimFloat.leb;
  eps := 1e-8%float; eps_ray := 1e-10%float; f1e30 := 1e30%float
|}.

#[global]
Instance Limits_float : Limits float := {|
  numeric_max := 0x1.fffffffffffffp+1023%float;
  numeric_infinity := PrimFloat.infinity
|}.

(** ** Notions the statements are written in *)

Section Notions.
Context {F : Type} {SF : Scalar F}.
Local Open Scope egs_scope.
Local Abbreviation Vec := (EGS_Vector F).

(** The node opposite face [i]. *)
Definition opposite_node (n : Nodes F) (i : nat) : Vec :=
  match i with
  | 0%nat => nA n
  | 1%nat => nB n
  | 2%nat => nC n
  | _ => nD n
  end.

(** Face [i] of element [ireg] qualifies for the ray from [x] along [u] when
    the test of the loop in [howfar_interior] succeeds; [face_hit] is then
    the intersection distance the ray test computes. *)
Definition face_hit (M : EGS_Mesh F) (ireg : Z) (x u : Vec) (i : nat) : option F :=
  let '(fa, fb, fc) := face_nodes (element_nodes M ireg) i in
  let fnorm := face_normal M ireg i in
  if dot fnorm (vsub x fa) >=? f0 then
    match interior_triangle_ray_intersection x u fnorm fa fb fc f0 with
    | (true, d) => Some d
    | (false, _) => None
    end
  else None.

(** The guards of [interior_triangle_ray_intersection], in the order the
    function tests them, and the parametric distance it computes. *)
Definition ray_unfavorable (v_norm face_norm : Vec) : bool :=
  dot v_norm face_norm >? - eps_ray.

Definition ray_origin_behind (p face_norm a : Vec) : bool :=
  dot face_norm (vsub p a) <? f0.

Definition ray_det (v_norm a b c : Vec) : F :=
  dot (vsub b a) (cross v_norm (vsub c a)).

Definition ray_det_near_zero (v_norm a b c : Vec) : bool :=
  (ray_det v_norm a b c >? - eps_ray) && (ray_det v_norm a b c <? eps_ray).

Definition ray_u (p v_norm a b c : Vec) : F :=
  dot (vsub p a) (cross v_norm (vsub c a)) * (f1 / ray_det v_norm a b c).

Definition ray_v (p v_norm a b c : Vec) : F :=
  dot v_norm (cross (vsub p a) (vsub b a)) * (f1 / ray_det v_norm a b c).

Definition ray_bary_out (p v_norm a b c : Vec) : bool :=
  (ray_u p v_norm a b c <? f0) || (ray_u p v_norm a b c >? f1) ||
  (ray_v p v_norm a b c <? f0) ||
  (ray_u p v_norm a b c + ray_v p v_norm a b c >? f1).

Definition ray_parameter (p v_norm a b c : Vec) : F :=
  dot (vsub c a) (cross (vsub p a) (vsub b a)) * (f1 / ray_det v_norm a b c).

(** Face [i] qualifies within the maximum distance [t]: it qualifies and its
    intersection distance is not above [t]. *)
Definition face_hit_within (M : EGS_Mesh F) (ireg : Z) (x u : Vec) (t : F)
    (i : nat) : option F :=
  match face_hit M ireg x u i with
  | Some d => if d >? t then None else Some d
  | None => None
  end.

(** The first face of the list that qualifies within [t], with its
    distance. *)
Fixpoint first_face_within (M : EGS_Mesh F) (ireg : Z) (x u : Vec) (t : F)
    (faces : list nat) : option (nat * F) :=
  match faces with
  | [] => None
  | i :: rest =>
    match face_hit_within M ireg x u t i with
    | Some d => Some (i, d)
    | None => first_face_within M ireg x u t rest
    end
  end.

(** Some face of the list qualifies, at whatever distance. *)
Definition some_face_qualifies (M : EGS_Mesh F) (ireg : Z) (x u : Vec)
    (faces : list nat) : bool :=
  existsb (fun i => match face_hit M ireg x u i with Some _ => true | None => false end)
    faces.

(** The distance [howfar] reports for an intersection at distance [d]. *)
Definition snapped (M : EGS_Mesh F) (d : F) : F :=
  if d <=? halfBoundaryTolerance M then f0 else d.

(** The first neighbour of [ireg], in face order, that is not the sentinel
    and contains [x]. *)
Definition first_containing_neighbour (M : EGS_Mesh F) (ireg : Z) (x : Vec) : option Z :=
  List.find (fun nb => negb (nb =? NONE)%Z && insideElement M nb x)
    (to_list4 (at_ (_neighbours M) ireg (mkArray4 NONE NONE NONE NONE))).

(** The distances from [x] to the planes of the four faces of [ireg], each
    measured from the first node of the face. *)
Definition face_plane_distances (M : EGS_Mesh F) (ireg : Z) (x : Vec) : list F :=
  List.map (fun i => distance_to_plane x (face_normal M ireg i)
                       (fst (fst (face_nodes (element_nodes M ireg) i))))
           [0%nat; 1%nat; 2%nat; 3%nat].

(** [x] lies strictly on the inner side of the plane through [A], [B], [C],
    the side of [D]. *)
Definition strictly_inside_plane (x A B C D : Vec) : bool :=
  f0 <? dot (vsub x A) (cross (vsub B A) (vsub C A))
          * dot (vsub D A) (cross (vsub B A) (vsub C A)).

Definition strictly_inside (M : EGS_Mesh F) (i : Z) (x : Vec) : bool :=
  let n := element_nodes M i in
  strictly_inside_plane x (nA n) (nB n) (nC n) (nD n) &&
  strictly_inside_plane x (nA n) (nC n) (nD n) (nB n) &&
  strictly_inside_plane x (nA n) (nB n) (nD n) (nC n) &&
  strictly_inside_plane x (nB n) (nC n) (nD n) (nA n).

(** The stored normals of element [ireg] are the ones [initializeNormals]
    computes from its nodes. *)
Definition normals_constructed (M : EGS_Mesh F) (ireg : Z) : Prop :=
  at_ (_face_normals M) ireg (mkArray4 vec0 vec0 vec0 vec0)
  = element_normals (element_nodes M ireg).

Definition empty_mesh : EGS_Mesh F :=
  mkMesh [] [] [] [] [] [] [] [] empty_octree empty_octree f0.

Definition mesh_of (r : result (EGS_Mesh F)) : EGS_Mesh F :=
  match r with
  | Ok M => M
  | Throw _ => empty_mesh
  end.

End Notions.

(** ** Concrete meshes *)

Module Binary64.
Local Open Scope float_scope.

Definition V (a b c : float) : EGS_Vector float := mkVec a b c.

(** One tetrahedron with corners at the origin and the three unit points. *)
Definition unit_nodes : list (MeshNode float) :=
  [mkMeshNode 1 0 0 0; mkMeshNode 2 1 0 0; mkMeshNode 3 0 1 0; mkMeshNode 4 0 0 1].

Definition unit_mesh : EGS_Mesh float :=
  mesh_of (EGS_Mesh_ctor 8 0x1p-51 [mkTetrahedron 10 7 1 2 3 4] unit_nodes
             [mkMedium 7 "water"]).

(** A tetrahedron whose first three nodes lie on one line. *)
Definition flat_nodes : list (MeshNode float) :=
  [mkMeshNode 1 0 0 0; mkMeshNode 2 1 0 0; mkMeshNode 3 2 0 0; mkMeshNode 4 0 0 1].

Definition flat_mesh : EGS_Mesh float :=
  mesh_of (EGS_Mesh_ctor 8 0x1p-51 [mkTetrahedron 10 7 1 2 3 4] flat_nodes
             [mkMedium 7 "water"]).

(** Two tetrahedra, one above and one below the triangle they share. *)
Definition pair_nodes : list (MeshNode float) :=
  [mkMeshNode 1 0 0 0; mkMeshNode 2 1 0 0; mkMeshNode 3 0 1 0; mkMeshNode 4 0 0 1;
   mkMeshNode 5 0 0 (-1)].

Definition pair_mesh : EGS_Mesh float :=
  mesh_of (EGS_Mesh_ctor 8 0x1p-51
             [mkTetrahedron 10 7 1 2 3 4; mkTetrahedron 11 7 1 2 3 5] pair_nodes
             [mkMedium 7 "water"]).

(** A ray in the unit tetrahedron that leaves it close to the edge shared by
    faces 0 and 2, and a ray that starts close to the edge shared by faces 2
    and 3 and leaves close to it.  Both directions have length 1 up to
    rounding. *)
Definition edge_ray_origin : EGS_Vector float := V 0.6484375 0.171875 0.171875.

Definition edge_ray_direction : EGS_Vector float :=
  V 0x1.1c1037bfb134ep-1 (-0x1.932fcaff902a0p-1) 0x1.12e6677fb3bf9p-2.

Definition thin_ray_origin : EGS_Vector float :=
  V 0x1.ffffffffff63ap-11 0x1.8cc4518341e41p-52 0x1.4cdf9309ab543p-54.

Definition thin_ray_direction : EGS_Vector float :=
  V 0x1.38b8b6bfd9542p-1 (-0x1.8cc4518341e3fp-1) (-0x1.4cdf9309ab542p-3).

(** Two node records with the tag 2. *)
Definition duplicate_nodes : list (MeshNode float) :=
  [mkMeshNode 1 0 0 0; mkMeshNode 2 1 0 0; mkMeshNode 2 0 1 0; mkMeshNode 4 0 0 1].

(** A mesh of 201 elements.  Element 0 has its corner at (1/4, 1/4, 1/4)
    and three edges of length 1 that leave it along -x, -y and -z, two of
    them tilted by 2^-25; the other 200 elements are corner tetrahedra of
    edge 2^-8, one hundred in a row next to (-1,-1,-1) and one hundred next
    to (1,1,1).  No two elements overlap. *)
Definition corner_nodes (tag : Z) (x y z s : float) : list (MeshNode float) :=
  [mkMeshNode tag x y z; mkMeshNode (tag + 1) (x + s) y z;
   mkMeshNode (tag + 2) x (y + s) z; mkMeshNode (tag + 3) x y (z + s)].

Fixpoint row_nodes (n : nat) (tag : Z) (x y z s h : float) : list (MeshNode float) :=
  match n with
  | O => []
  | S n' => corner_nodes tag x y z s ++ row_nodes n' (tag + 4) (x + h) y z s h
  end.

Fixpoint row_elements (n : nat) (tag : Z) : list Tetrahedron :=
  match n with
  | O => []
  | S n' => mkTetrahedron tag 1 tag (tag + 1) (tag + 2) (tag + 3)
              :: row_elements n' (tag + 4)
  end.

Definition tilt : float := 0x1p-25.

Definition skew_nodes : list (MeshNode float) :=
  [mkMeshNode 1 0.25 0.25 0.25; mkMeshNode 2 (-0.75) 0.25 (0.25 + tilt);
   mkMeshNode 3 0.25 (-0.75) (0.25 + tilt); mkMeshNode 4 0.25 0.25 (-0.75)].

Definition nodes201 : list (MeshNode float) :=
  skew_nodes
  ++ row_nodes 100 5 (-1) (-1) (-1) 0x1p-8 0x1p-7
  ++ row_nodes 100 405 (1 - 0x1p-8 - 99 * 0x1p-7) (1 - 0x1p-8) (1 - 0x1p-8)
       0x1p-8 0x1p-7.

Definition elements201 : list Tetrahedron := row_elements 201 1.

Definition mesh201 : EGS_Mesh float :=
  mesh_of (EGS_Mesh_ctor 6 0x1p-51 elements201 nodes201 [mkMedium 1 "water"]).

(** A tetrahedron whose last three nodes lie on one line: the nodes of
    face 0. *)
Definition lead_flat_nodes : list (MeshNode float) :=
  [mkMeshNode 1 0 0 1; mkMeshNode 2 0 0 0; mkMeshNode 3 1 0 0; mkMeshNode 4 2 0 0].

Definition lead_flat_mesh : EGS_Mesh float :=
  mesh_of (EGS_Mesh_ctor 8 0x1p-51 [mkTetrahedron 10 7 1 2 3 4] lead_flat_nodes
             [mkMedium 7 "water"]).

(** As many elements as an int can count, all copies of one record. *)
Definition elements_at_capacity : list Tetrahedron :=
  repeat (mkTetrahedron 10 7 1 2 3 4) (Z.to_nat INT_MAX).

(** A parent node on the unit cube whose children are empty leaves on the
    eight octants of the cube. *)
Definition unit_cube : BoundingBox float := mkBox 0 1 0 1 0 1.

Definition octant_leaf (i : nat) : Node float :=
  Leaf [] (nth i (divide8 unit_cube) unit_cube).

Definition cube_parent : Node float :=
  Parent unit_cube (octant_leaf 0) (octant_leaf 1) (octant_leaf 2) (octant_leaf 3)
    (octant_leaf 4) (octant_leaf 5) (octant_leaf 6) (octant_leaf 7).

End Binary64.


(** ** The rest of the store, the octree descent and the exterior rays *)

Section StoreAccess.
Context {F : Type} {SF : Scalar F}.

(** The coordinate [initializeElements] stores for a node record. *)
Definition node_point (n : MeshNode F) : EGS_Vector F :=
  mkVec (node_x n) (node_y n) (node_z n).

(** [EGS_Mesh::medium]: [_medium_indices.at(ireg)]; [None] stands for the
    [std::out_of_range] that [at] throws. *)
Definition medium (M : EGS_Mesh F) (ireg : Z) : option Z :=
  if (ireg <? 0)%Z || (Z.of_nat (List.length (_medium_indices M)) <=? ireg)%Z
  then None else Some (at_ (_medium_indices M) ireg 0%Z).

(** The four node tags an element record refers to. *)
Definition tet_node_tags (e : Tetrahedron) : list Z :=
  [tet_a e; tet_b e; tet_c e; tet_d e].

End StoreAccess.

Section Descent.
Context {F : Type} {SF : Scalar F}.
Local Abbreviation Vec := (EGS_Vector F).

(** The leaf that the descent of [Node::isWhere] and of
    [Node::hownear_exterior] ends in: at each parent, the child that
    [findOctant] selects. *)
Fixpoint leaf_for (n : Node F) (p : Vec) : Node F :=
  match n with
  | Leaf _ _ => n
  | Parent _ c0 c1 c2 c3 c4 c5 c6 c7 =>
    match findOctant n p with
    | 0%nat => leaf_for c0 p | 1%nat => leaf_for c1 p
    | 2%nat => leaf_for c2 p | 3%nat => leaf_for c3 p
    | 4%nat => leaf_for c4 p | 5%nat => leaf_for c5 p
    | 6%nat => leaf_for c6 p | _ => leaf_for c7 p
    end
  end.

(** [elts_] of a node (empty for a parent). *)
Definition node_elts (n : Node F) : list Z :=
  match n with
  | Leaf elts _ => elts
  | Parent _ _ _ _ _ _ _ _ _ => []
  end.

(** The first element, in index order, that the point-in-tetrahedron test
    accepts for [p]. *)
Definition first_containing_element (M : EGS_Mesh F) (p : Vec) : option Z :=
  List.find (fun e => insideElement M e p) (element_range M).

End Descent.

(** ** Rays from outside the mesh *)

Section ExteriorRays.
Context {F : Type} {SF : Scalar F} {LF : Limits F}.
Local Open Scope egs_scope.
Local Abbreviation Vec := (EGS_Vector F).

(** [exterior_triangle_ray_intersection]: as the interior test, without the
    two tests on the face normal; a negative distance is left in [dist]. *)
Definition exterior_triangle_ray_intersection (p v_norm a b c : Vec) (dist : F)
    : bool * F :=
  let ab := vsub b a in
  let ac := vsub c a in
  let pvec := cross v_norm ac in
  let det := dot ab pvec in
  if (det >? - eps_ray) && (det <? eps_ray) then (false, dist) else
  let inv_det := f1 / det in
  let tvec := vsub p a in
  let u := dot tvec pvec * inv_det in
  if (u <? f0) || (u >? f1) then (false, dist) else
  let qvec := cross tvec ab in
  let v := dot v_norm qvec * inv_det in
  if (v <? f0) || (u + v >? f1) then (false, dist) else
  let dist' := dot ac qvec * inv_det in
  if dist' <? f0 then (false, dist') else (true, dist').

(** One pass of the loop of [BoundingBox::ray_intersection] over the three
    slabs, on the pair (tmin, tmax); [None] is the [return 0] inside the
    loop. *)
Definition slab_step (p v lo hi : F) (st : F * F) : option (F * F) :=
  let '(tmin, tmax) := st in
  if fabs v <? eps then
    if (p <? lo) || (p >? hi) then None else Some (tmin, tmax)
  else
    let inv_vel := f1 / v in
    let t1 := (lo - p) * inv_vel in
    let t2 := (hi - p) * inv_vel in
    let '(t1, t2) := if t1 >? t2 then (t2, t1) else (t1, t2) in
    let tmin := fmax tmin t1 in
    let tmax := fmin tmax t2 in
    if tmin >? tmax then None else Some (tmin, tmax).

(** [BoundingBox::ray_intersection]: [Some (dist, q)] when the function
    returns 1, with the values it stores in its two out-parameters. *)
Definition ray_intersection (bb : BoundingBox F) (p v : Vec) : option (F * Vec) :=
  match slab_step (vx p) (vx v) (min_x bb) (max_x bb) (f0, numeric_max) with
  | None => None
  | Some st =>
    match slab_step (vy p) (vy v) (min_y bb) (max_y bb) st with
    | None => None
    | Some st =>
      match slab_step (vz p) (vz v) (min_z bb) (max_z bb) st with
      | None => None
      | Some (tmin, _) => Some (tmin, vadd p (vscale tmin v))
      end
    end
  end.

(** [operator<] of [std::pair<EGS_Float, int>]. *)
Definition pair_ltb (a b : F * nat) : bool :=
  (fst a <? fst b) || (negb (fst b <? fst a) && (snd a <? snd b)%nat).

(** [std::sort] on the (distance, octant) pairs.  The octants of the pairs
    are distinct, so for distances that are numbers the sorted order is
    unique; the model inserts one pair after the other. *)
Fixpoint insert_pair (x : F * nat) (l : list (F * nat)) : list (F * nat) :=
  match l with
  | [] => [x]
  | y :: rest => if pair_ltb y x then y :: insert_pair x rest else x :: l
  end.

Definition sort_pairs (l : list (F * nat)) : list (F * nat) :=
  fold_right insert_pair [] l.

(** [Node::findOtherIntersectedOctants], for a parent node (on a leaf the
    C++ throws; [Node::howfar_exterior] calls it on parents only). *)
Definition findOtherIntersectedOctants (n : Node F) (p v : Vec) (exclude_octant : nat)
    : list nat :=
  let intersections :=
    flat_map (fun i =>
      if (i =? exclude_octant)%nat then []
      else match ray_intersection (bbox_ (child n i)) p v with
           | Some (dist, _) => [(dist, i)]
           | None => []
           end)
      (seq 0 8) in
  List.map snd (sort_pairs intersections).

(** Modelled from the spec: [EGS_Mesh::Intersection] (egs_mesh.h is not
    among the sources): a distance and the index of a face, -1 for none. *)
Record Intersection := mkIntersection { dist : F; face_index : Z }.

(** The lambda [check_face_intersection] of [closest_boundary_face]; the
    state it captures by reference is (min_dist, dist, closest_face). *)
Definition check_face_intersection (M : EGS_Mesh F) (ireg : Z) (x u : Vec)
    (st : F * F * Z) (face : nat) (A B C D : Vec) : F * F * Z :=
  let '(min_dist, dist, closest_face) := st in
  if at_ (_boundary_faces M) (4 * ireg + Z.of_nat face)%Z false then
    if point_outside_of_plane x A B C D then
      if dot (face_normal M ireg face) u >? f0 then
        let '(hit, dist) := exterior_triangle_ray_intersection x u A B C dist in
        if hit then
          if dist <? min_dist then (dist, dist, Z.of_nat face)
          else (min_dist, dist, closest_face)
        else (min_dist, dist, closest_face)
      else st
    else st
  else st.

Definition closest_boundary_face (M : EGS_Mesh F) (ireg : Z) (x u : Vec)
    : Intersection :=
  let min_dist := numeric_max in
  let st := (min_dist, min_dist, (-1)%Z) in
  let n := element_nodes M ireg in
  let st := check_face_intersection M ireg x u st 0 (nB n) (nC n) (nD n) (nA n) in
  let st := check_face_intersection M ireg x u st 1 (nA n) (nC n) (nD n) (nB n) in
  let st := check_face_intersection M ireg x u st 2 (nA n) (nB n) (nD n) (nC n) in
  let st := check_face_intersection M ireg x u st 3 (nA n) (nB n) (nC n) (nD n) in
  mkIntersection (fst (fst st)) (snd st).

(** The leaf loop of [Node::howfar_exterior]: the pair (min_elt, min_dist);
    [t] is set to [min_dist] on return. *)
Definition howfar_exterior_leaf (M : EGS_Mesh F) (elts : list Z) (p v : Vec) : Z * F :=
  fold_left (fun (st : Z * F) e =>
      if negb (is_boundary M e) then st
      else
        let intersection := closest_boundary_face M e p v in
        if dist intersection <? snd st then (e, dist intersection) else st)
    elts ((-1)%Z, numeric_max).

(** The loop over the other octants in the parent case. *)
Fixpoint search_octants (sub : nat -> F -> Z * F) (octants : list nat) (t : F) : Z * F :=
  match octants with
  | [] => ((-1)%Z, t)
  | o :: rest =>
    let '(elt, t) := sub o t in
    if negb (elt =? -1)%Z then (elt, t) else search_octants sub rest t
  end.

(** [Node::howfar_exterior]: the element returned and the value [t] holds at
    return, from the value it holds at the call. *)
Fixpoint Node_howfar_exterior (n : Node F) (p v : Vec) (max_dist : F)
    (M : EGS_Mesh F) (t : F) : Z * F :=
  match n with
  | Leaf elts _ => howfar_exterior_leaf M elts p v
  | Parent bb c0 c1 c2 c3 c4 c5 c6 c7 =>
    match ray_intersection bb p v with
    | None => ((-1)%Z, t)
    | Some (_, intersection) =>
      let sub (o : nat) :=
        match o with
        | 0%nat => Node_howfar_exterior c0 p v max_dist M
        | 1%nat => Node_howfar_exterior c1 p v max_dist M
        | 2%nat => Node_howfar_exterior c2 p v max_dist M
        | 3%nat => Node_howfar_exterior c3 p v max_dist M
        | 4%nat => Node_howfar_exterior c4 p v max_dist M
        | 5%nat => Node_howfar_exterior c5 p v max_dist M
        | 6%nat => Node_howfar_exterior c6 p v max_dist M
        | _ => Node_howfar_exterior c7 p v max_dist M
        end in
      let octant := findOctant n intersection in
      let '(elt, t) := sub octant t in
      if negb (elt =? -1)%Z then (elt, t)
      else search_octants sub (findOtherIntersectedOctants n p v octant) t
    end
  end.

Definition Octree_howfar_exterior (tree : EGS_Mesh_Octree F) (p v : Vec) (max_dist : F)
    (M : EGS_Mesh F) (t : F) : Z * F :=
  match ray_intersection (bbox_ (root_ tree)) p v with
  | None => ((-1)%Z, t)
  | Some (dist, _) =>
    if dist >? max_dist then ((-1)%Z, t)
    else Node_howfar_exterior (root_ tree) p v max_dist M t
  end.

(** What a call of [EGS_Mesh::howfar_exterior] leaves behind.  A miss
    returns -1 and leaves the out-parameters alone.  A hit returns the
    region with the new [t], the medium stored through [newmed] and the
    normal stored through [normal] (when the caller passes that pointer).
    The two other outcomes are the exceptions the function can raise. *)
Inductive exterior_outcome :=
| ExteriorMiss
| ExteriorHit (reg : Z) (t : F) (newmed : option Z) (normal : option Vec)
| MediumOutOfRange (reg : Z)
| BadIntersection (face_index : Z).

(** [EGS_Mesh::howfar_exterior]; [want_newmed] and [want_normal] tell
    whether the caller passes the pointers [newmed] and [normal]. *)
Definition howfar_exterior (want_newmed want_normal : bool) (M : EGS_Mesh F)
    (x u : Vec) (t : F) : exterior_outcome :=
  let '(min_reg, min_dist) := Octree_howfar_exterior (_surface_tree M) x u t M f1e30 in
  if (min_dist >? t) || (min_reg =? -1)%Z then ExteriorMiss else
  let newmed := if want_newmed then medium M min_reg else None in
  if want_newmed && negb (match newmed with Some _ => true | None => false end)
  then MediumOutOfRange min_reg else
  if negb want_normal then ExteriorHit min_reg min_dist newmed None else
  let n := element_nodes M min_reg in
  let intersection := closest_boundary_face M min_reg x u in
  let finish (tmp_normal : Vec) :=
    let tmp_normal :=
      if dot tmp_normal u >? f0 then vscale (- f1) tmp_normal else tmp_normal in
    ExteriorHit min_reg min_dist newmed (Some (normalize tmp_normal)) in
  match face_index intersection with
  | 0%Z => finish (cross (vsub (nC n) (nB n)) (vsub (nD n) (nB n)))
  | 1%Z => finish (cross (vsub (nC n) (nA n)) (vsub (nD n) (nA n)))
  | 2%Z => finish (cross (vsub (nB n) (nA n)) (vsub (nD n) (nA n)))
  | 3%Z => finish (cross (vsub (nB n) (nA n)) (vsub (nC n) (nA n)))
  | other => BadIntersection other
  end.

(** The distance at which face [f] of the boundary element [ireg] is hit
    from outside: the face has no neighbour, [x] is outside its plane, the
    direction has a positive scalar product with the stored normal, and
    the exterior ray test succeeds. *)
Definition boundary_face_hit (M : EGS_Mesh F) (ireg : Z) (x u : Vec) (f : nat)
    : option F :=
  let n := element_nodes M ireg in
  let '(A, B, C) := face_nodes n f in
  if at_ (_boundary_faces M) (4 * ireg + Z.of_nat f)%Z false
     && point_outside_of_plane x A B C (opposite_node n f)
     && (dot (face_normal M ireg f) u >? f0)
  then
    match exterior_triangle_ray_intersection x u A B C f0 with
    | (true, d) => Some d
    | (false, _) => None
    end
  else None.

(** The update [closest_boundary_face] makes of (min_dist, closest_face)
    for face [f]. *)
Definition pick_face (M : EGS_Mesh F) (ireg : Z) (x u : Vec) (st : F * Z) (f : nat)
    : F * Z :=
  match boundary_face_hit M ireg x u f with
  | Some d => if d <? fst st then (d, Z.of_nat f) else st
  | None => st
  end.

(** The elements the leaves below a node list, octant after octant. *)
Fixpoint all_leaf_elts (n : Node F) : list Z :=
  match n with
  | Leaf elts _ => elts
  | Parent _ c0 c1 c2 c3 c4 c5 c6 c7 =>
    all_leaf_elts c0 ++ all_leaf_elts c1 ++ all_leaf_elts c2 ++ all_leaf_elts c3 ++
    all_leaf_elts c4 ++ all_leaf_elts c5 ++ all_leaf_elts c6 ++ all_leaf_elts c7
  end.

End ExteriorRays.

Arguments Intersection F : clear implicits.
Arguments exterior_outcome F : clear implicits.

(** ** The order of binary64 *)

Module Binary64Order.
Import SpecFloat.

(** A value of the specification of binary64 that is not a NaN, as a triple
    of integers: [SFcompare] is the lexicographic order of the triples. *)
Definition sf_key (x : spec_float) : Z * Z * Z :=
  match x with
  | S754_nan => (0, 0, 0)
  | S754_zero _ => (0, 0, 0)
  | S754_infinity true => (-2, 0, 0)
  | S754_infinity false => (2, 0, 0)
  | S754_finite false m e => (1, e, Zpos m)
  | S754_finite true m e => (-1, - e, Zneg m)
  end.

Definition sf_nan (x : spec_float) : bool :=
  match x with S754_nan => true | _ => false end.

Definition key_lt (a b : Z * Z * Z) : Prop :=
  a.1.1 < b.1.1 \/ (a.1.1 = b.1.1 /\ (a.1.2 < b.1.2 \/ (a.1.2 = b.1.2 /\ a.2 < b.2))).

Definition key_le (a b : Z * Z * Z) : Prop :=
  a.1.1 < b.1.1 \/ (a.1.1 = b.1.1 /\ (a.1.2 < b.1.2 \/ (a.1.2 = b.1.2 /\ a.2 <= b.2))).

(** The key of a float, and whether it is a number. *)
Definition key (x : float) : Z * Z * Z := sf_key (FloatOps.Prim2SF x).
Definition number (x : float) : Prop := sf_nan (FloatOps.Prim2SF x) = false.

(** Two values of the specification that are equal or both zero. *)
Definition same_but_zero_sign (x y : spec_float) : Prop :=
  x = y \/ (exists s s', x = S754_zero s /\ y = S754_zero s').

End Binary64Order.

Section OctantEntry.
Context {F : Type} {SF : Scalar F} {LF : Limits F}.

(** The distance at which the ray enters the box of octant [o] of [n]:
    the first component of what [BoundingBox::ray_intersection] reports
    for that box. *)
Definition octant_entry (n : Node F) (p v : EGS_Vector F) (o : nat) : option F :=
  match ray_intersection (bbox_ (child n o)) p v with
  | Some (d, _) => Some d
  | None => None
  end.

End OctantEntry.

Module Binary64Notions.
Import Binary64Order.
Local Open Scope float_scope.

(** The order of [std::pair<EGS_Float, int>] on doubles that are numbers:
    by distance, then by octant; +0 and -0 are one distance. *)
Definition pair_le (a b : float * nat) : Prop :=
  key_lt (key (fst a)) (key (fst b)) \/
  (key (fst a) = key (fst b) /\ (snd a <= snd b)%nat).

(** What [closest_boundary_face] has established of its state
    (min_dist, closest_face) once the faces [done] have been tried: the
    distance is not above the largest double; without a face it is the
    largest double; with one, that face is hit at that distance; and no
    face tried is hit at a distance below it. *)
Definition face_choice (M : EGS_Mesh float) (e : Z) (x u : EGS_Vector float)
    (done : list nat) (st : float * Z) : Prop :=
  (fst st <=? numeric_max) = true /\
  (snd st = (-1)%Z -> fst st = numeric_max) /\
  (snd st <> (-1)%Z ->
   exists f, In f done /\ snd st = Z.of_nat f /\
             boundary_face_hit M e x u f = Some (fst st)) /\
  forall f d, In f done -> boundary_face_hit M e x u f = Some d ->
              (d <? fst st) = false.

End Binary64Notions.


(** * Properties *)

Ltac split_ifs :=
  repeat match goal with
         | |- context [if ?c then _ else _] => destruct c eqn:?
         end.

(** ** Control flow, for every scalar type *)

Section ControlFlow.
Context {F : Type} {SF : Scalar F}.
Local Open Scope egs_scope.
Local Abbreviation Vec := (EGS_Vector F).

Lemma interior_unfold (p v fn a b c : Vec) (dist : F) :
  interior_triangle_ray_intersection p v fn a b c dist =
  if ray_unfavorable v fn then (false, dist) else
  if ray_origin_behind p fn a then (false, dist) else
  if ray_det_near_zero v a b c then (false, dist) else
  if ray_bary_out p v a b c then (false, dist) else
  if ray_parameter p v a b c <? f0 then (false, f0)
  else (true, ray_parameter p v a b c).
Proof.
  unfold interior_triangle_ray_intersection, ray_unfavorable, ray_origin_behind,
    ray_det_near_zero, ray_bary_out, ray_parameter, ray_u, ray_v, ray_det.
  cbv zeta.
  destruct (dot v fn >? - eps_ray); [reflexivity|].
  destruct (dot fn (vsub p a) <? f0); [reflexivity|].
  destruct (_ && _); [reflexivity|].
  destruct (_ <? f0) eqn:Hu; simpl; [reflexivity|].
  destruct (_ >? f1) eqn:Hu1; simpl; [reflexivity|].
  destruct (_ <? f0) eqn:Hv; simpl; [reflexivity|].
  destruct (_ >? f1) eqn:Huv; simpl; reflexivity.
Qed.

(** Whether the ray test hits, and the distance of a hit, do not depend on
    the value [dist] holds at the call. *)
Lemma interior_hit_any_dist (p v fn a b c : Vec) (d1 d2 r : F) :
  interior_triangle_ray_intersection p v fn a b c d1 = (true, r) ->
  interior_triangle_ray_intersection p v fn a b c d2 = (true, r).
Proof.
  rewrite !interior_unfold. split_ifs; congruence.
Qed.

Lemma interior_miss_any_dist (p v fn a b c : Vec) (d1 d2 : F) :
  fst (interior_triangle_ray_intersection p v fn a b c d1) = false ->
  fst (interior_triangle_ray_intersection p v fn a b c d2) = false.
Proof.
  rewrite !interior_unfold. split_ifs; simpl; congruence.
Qed.

(** C10. When the parametric distance the ray test computes is negative, the
    test reports no hit and leaves 0.0 in [dist]; when it reports no hit
    through any earlier guard (direction not against the face normal, origin
    behind the face plane, on the side its normal points away from,
    determinant near zero, barycentric
    coordinates out of range), [dist] keeps the value it had at the call. *)
Theorem interior_ray_test_dist_out_parameter (p v fn a b c : Vec) (dist : F) :
  (ray_unfavorable v fn = false -> ray_origin_behind p fn a = false ->
   ray_det_near_zero v a b c = false -> ray_bary_out p v a b c = false ->
   (ray_parameter p v a b c <? f0) = true ->
   interior_triangle_ray_intersection p v fn a b c dist = (false, f0))
  /\
  (ray_unfavorable v fn = true \/ ray_origin_behind p fn a = true \/
   ray_det_near_zero v a b c = true \/ ray_bary_out p v a b c = true ->
   interior_triangle_ray_intersection p v fn a b c dist = (false, dist)).
Proof.
  rewrite interior_unfold. split.
  - intros -> -> -> -> ->. reflexivity.
  - intros [H | [H | [H | H]]]; split_ifs; congruence.
Qed.

(** The outcome of the face loop does not depend on the value [dist] holds
    when an iteration starts. *)
Lemma howfar_interior_loop_any_dist (M : EGS_Mesh F) (ireg : Z) (x u : Vec) (t : F)
    (faces : list nat) :
  forall (is_lost : bool) (d1 d2 : F),
    howfar_interior_loop M ireg x u t faces is_lost d1 =
    howfar_interior_loop M ireg x u t faces is_lost d2.
Proof.
  induction faces as [|i rest IH]; intros is_lost d1 d2; simpl; [reflexivity|].
  destruct (face_nodes (element_nodes M ireg) i) as [[fa fb] fc].
  destruct (negb _); [apply IH|].
  destruct (interior_triangle_ray_intersection x u _ fa fb fc d1) as [h1 r1] eqn:E1.
  destruct (interior_triangle_ray_intersection x u _ fa fb fc d2) as [h2 r2] eqn:E2.
  destruct h1.
  - rewrite (interior_hit_any_dist _ _ _ _ _ _ d1 d2 r1 E1) in E2.
    injection E2 as <- <-. simpl.
    destruct (r1 >? t); [apply IH | reflexivity].
  - assert (h2 = false) as ->.
    { pose proof (interior_miss_any_dist x u (face_normal M ireg i) fa fb fc d1 d2) as H.
      rewrite E1, E2 in H. simpl in H. auto. }
    simpl. apply IH.
Qed.

(** One iteration of the face loop, in terms of [face_hit]. *)
Lemma howfar_interior_loop_cons (M : EGS_Mesh F) (ireg : Z) (x u : Vec) (t : F)
    (i : nat) (rest : list nat) (is_lost : bool) (d : F) :
  howfar_interior_loop M ireg x u t (i :: rest) is_lost d =
  match face_hit M ireg x u i with
  | Some di =>
    if di >? t then howfar_interior_loop M ireg x u t rest false d
    else Returned (neighbour M ireg i) (snapped M di) (Some (face_normal M ireg i))
  | None => howfar_interior_loop M ireg x u t rest is_lost d
  end.
Proof.
  simpl. unfold face_hit, snapped.
  destruct (face_nodes (element_nodes M ireg) i) as [[fa fb] fc].
  destruct (_ >=? f0); simpl; [|reflexivity].
  destruct (interior_triangle_ray_intersection x u _ fa fb fc d) as [h r] eqn:E.
  destruct (interior_triangle_ray_intersection x u _ fa fb fc f0) as [h0 r0] eqn:E0.
  destruct h.
  - rewrite (interior_hit_any_dist _ _ _ _ _ _ d f0 r E) in E0.
    injection E0 as <- <-. simpl.
    destruct (r >? t); [apply howfar_interior_loop_any_dist | reflexivity].
  - assert (h0 = false) as ->.
    { pose proof (interior_miss_any_dist x u (face_normal M ireg i) fa fb fc d f0) as H.
      rewrite E, E0 in H. simpl in H. auto. }
    simpl. apply howfar_interior_loop_any_dist.
Qed.

(** The face loop returns through the first face that qualifies within [t];
    when there is none it falls through to the code after the loop, with
    [is_lost] cleared if some face qualified. *)
Lemma howfar_interior_loop_first_face (M : EGS_Mesh F) (ireg : Z) (x u : Vec) (t : F)
    (faces : list nat) :
  forall (is_lost : bool) (d0 : F),
    howfar_interior_loop M ireg x u t faces is_lost d0 =
    match first_face_within M ireg x u t faces with
    | Some (k, d) =>
      Returned (neighbour M ireg k) (snapped M d) (Some (face_normal M ireg k))
    | None =>
      howfar_interior_loop M ireg x u t []
        (is_lost && negb (some_face_qualifies M ireg x u faces)) d0
    end.
Proof.
  induction faces as [|i rest IH]; intros is_lost d0.
  - simpl. rewrite andb_true_r. reflexivity.
  - rewrite howfar_interior_loop_cons.
    cbn [first_face_within some_face_qualifies existsb]. unfold face_hit_within.
    destruct (face_hit M ireg x u i) as [di|].
    + destruct (di >? t).
      * rewrite IH. rewrite andb_false_r. reflexivity.
      * reflexivity.
    + rewrite IH. reflexivity.
Qed.

Lemma first_face_within_found (M : EGS_Mesh F) (ireg : Z) (x u : Vec) (t : F)
    (k : nat) (d : F) :
  first_face_within M ireg x u t [0%nat; 1%nat; 2%nat; 3%nat] = Some (k, d) ->
  (k < 4)%nat /\ face_hit M ireg x u k = Some d /\ (d >? t) = false /\
  (forall j, (j < k)%nat -> face_hit_within M ireg x u t j = None).
Proof.
  assert (forall i e, face_hit_within M ireg x u t i = Some e ->
                      face_hit M ireg x u i = Some e /\ (e >? t) = false) as Hw.
  { intros i e. unfold face_hit_within.
    destruct (face_hit M ireg x u i) as [di|]; [|discriminate].
    destruct (di >? t) eqn:Hgt; [discriminate|].
    intros H; injection H as <-. auto. }
  cbn [first_face_within].
  destruct (face_hit_within M ireg x u t 0) as [e0|] eqn:E0;
    [intros H; injection H as <- <-; destruct (Hw _ _ E0); repeat split; auto; lia|].
  destruct (face_hit_within M ireg x u t 1) as [e1|] eqn:E1;
    [intros H; injection H as <- <-; destruct (Hw _ _ E1); repeat split; auto;
     intros j Hj; destruct j as [|j]; [exact E0 | lia]|].
  destruct (face_hit_within M ireg x u t 2) as [e2|] eqn:E2;
    [intros H; injection H as <- <-; destruct (Hw _ _ E2); repeat split; auto;
     intros j Hj; destruct j as [|[|j]]; [exact E0 | exact E1 | lia]|].
  destruct (face_hit_within M ireg x u t 3) as [e3|] eqn:E3;
    [intros H; injection H as <- <-; destruct (Hw _ _ E3); repeat split; auto;
     intros j Hj; destruct j as [|[|[|j]]]; [exact E0 | exact E1 | exact E2 | lia]|].
  discriminate.
Qed.

Lemma howfar_interior_first_face (M : EGS_Mesh F) (exterior : howfar_outcome)
    (ireg : Z) (x u : Vec) (t : F) :
  (0 <= ireg)%Z ->
  howfar M exterior ireg x u t =
  match first_face_within M ireg x u t [0%nat; 1%nat; 2%nat; 3%nat] with
  | Some (k, d) =>
    Returned (neighbour M ireg k) (snapped M d) (Some (face_normal M ireg k))
  | None =>
    howfar_interior_loop M ireg x u t []
      (negb (some_face_qualifies M ireg x u [0%nat; 1%nat; 2%nat; 3%nat])) f1e30
  end.
Proof.
  intros Hreg. unfold howfar, howfar_interior.
  destruct (ireg <? 0)%Z eqn:Hneg; [apply Z.ltb_lt in Hneg; lia|].
  rewrite howfar_interior_loop_first_face. reflexivity.
Qed.

(** C2, as the code has it.  In state Inside(ireg), [howfar] reports the
    first face, in the order 0, 1, 2, 3, that qualifies with an intersection
    distance not above the maximum distance [t]: it returns the neighbour
    across that face and the distance of that face, or 0 when that distance
    is within the half boundary tolerance.  When faces qualify but none
    within [t], it reports no face: it returns [ireg] and leaves [t]. *)
Theorem howfar_interior_reports_first_face (M : EGS_Mesh F)
    (exterior : howfar_outcome) (ireg : Z) (x u : Vec) (t : F) :
  (0 <= ireg)%Z ->
  match first_face_within M ireg x u t [0%nat; 1%nat; 2%nat; 3%nat] with
  | Some (k, d) =>
    (k < 4)%nat /\ face_hit M ireg x u k = Some d /\ (d >? t) = false /\
    (forall j, (j < k)%nat -> face_hit_within M ireg x u t j = None) /\
    howfar M exterior ireg x u t =
    Returned (neighbour M ireg k) (snapped M d) (Some (face_normal M ireg k))
  | None =>
    some_face_qualifies M ireg x u [0%nat; 1%nat; 2%nat; 3%nat] = true ->
    howfar M exterior ireg x u t = Returned ireg t None
  end.
Proof.
  intros Hreg. rewrite (howfar_interior_first_face M exterior ireg x u t Hreg).
  destruct (first_face_within M ireg x u t [0%nat; 1%nat; 2%nat; 3%nat])
    as [[k d]|] eqn:E.
  - destruct (first_face_within_found M ireg x u t k d E) as (H1 & H2 & H3 & H4).
    repeat split; assumption.
  - intros ->. reflexivity.
Qed.

(** C6, as the code has it.  In state Inside(ireg), when the first face that
    qualifies with a distance not above the maximum distance [t] does so at a
    distance within the half boundary tolerance, [howfar] reports the
    distance 0 and the neighbour across that face. *)
Theorem howfar_interior_snaps_first_face (M : EGS_Mesh F)
    (exterior : howfar_outcome) (ireg : Z) (x u : Vec) (t : F) (k : nat) (d : F) :
  (0 <= ireg)%Z ->
  first_face_within M ireg x u t [0%nat; 1%nat; 2%nat; 3%nat] = Some (k, d) ->
  (d <=? halfBoundaryTolerance M) = true ->
  howfar M exterior ireg x u t =
  Returned (neighbour M ireg k) f0 (Some (face_normal M ireg k)).
Proof.
  intros Hreg E Htol.
  rewrite (howfar_interior_first_face M exterior ireg x u t Hreg), E.
  unfold snapped. rewrite Htol. reflexivity.
Qed.

Lemma search_neighbours_find (M : EGS_Mesh F) (x : Vec) (l : list Z) :
  search_neighbours M l x =
  List.find (fun nb => negb (nb =? NONE)%Z && insideElement M nb x) l.
Proof.
  induction l as [|nb rest IH]; simpl; [reflexivity|].
  unfold NONE in *. destruct (nb =? -1)%Z; simpl; [exact IH|].
  destruct (insideElement M nb x); [reflexivity | exact IH].
Qed.

(** C3. In state Inside(ireg), when no face qualifies, [howfar] reports the
    distance 0 and returns the first neighbour of [ireg] that is not the
    sentinel and contains the position; when there is none it returns what
    [isWhere] finds in the volume tree, unless that is [ireg] itself, in
    which case the process is ended by egsFatal. *)
Theorem howfar_lost_particle (M : EGS_Mesh F) (exterior : howfar_outcome)
    (ireg : Z) (x u : Vec) (t : F) :
  (0 <= ireg)%Z ->
  (forall i, (i < 4)%nat -> face_hit M ireg x u i = None) ->
  howfar M exterior ireg x u t =
  match first_containing_neighbour M ireg x with
  | Some nb => Returned nb f0 None
  | None =>
    if (isWhere M x =? ireg)%Z then Aborted else Returned (isWhere M x) f0 None
  end.
Proof.
  intros Hreg Hmiss. unfold howfar, howfar_interior.
  destruct (ireg <? 0)%Z eqn:Hneg; [apply Z.ltb_lt in Hneg; lia|].
  rewrite !howfar_interior_loop_cons.
  rewrite (Hmiss 0%nat), (Hmiss 1%nat), (Hmiss 2%nat), (Hmiss 3%nat) by lia.
  simpl. unfold howfar_interior_find_lost_particle, first_containing_neighbour.
  rewrite search_neighbours_find.
  destruct (List.find _ _); [reflexivity|].
  destruct (isWhere M x =? ireg)%Z; reflexivity.
Qed.

End ControlFlow.

(** ** Point location *)

Section PointLocation.
Context {F : Type} {SF : Scalar F}.
Local Open Scope egs_scope.
Local Abbreviation Vec := (EGS_Vector F).

Lemma isWhere_leaf_sound (M : EGS_Mesh F) (p : Vec) (elts : list Z) (e : Z) :
  isWhere_leaf M elts p = e -> e <> (-1)%Z -> insideElement M e p = true.
Proof.
  induction elts as [|e' rest IH]; simpl; intros He Hne.
  - congruence.
  - destruct (insideElement M e' p) eqn:Hin; [congruence | auto].
Qed.

Lemma Node_isWhere_sound (M : EGS_Mesh F) (p : Vec) (n : Node F) (e : Z) :
  Node_isWhere n p M = e -> e <> (-1)%Z -> insideElement M e p = true.
Proof.
  induction n as [elts bb | bb c0 IH0 c1 IH1 c2 IH2 c3 IH3 c4 IH4 c5 IH5 c6 IH6 c7 IH7].
  - apply isWhere_leaf_sound.
  - simpl.
    destruct (findOctant _ p) as [|[|[|[|[|[|[|k]]]]]]]; auto.
Qed.

Lemma Octree_isWhere_sound (M : EGS_Mesh F) (p : Vec) (t : EGS_Mesh_Octree F) (e : Z) :
  Octree_isWhere t p M = e -> e <> (-1)%Z -> insideElement M e p = true.
Proof.
  unfold Octree_isWhere.
  destruct (negb _); [congruence | apply Node_isWhere_sound].
Qed.

(** A point outside the root box of the tree is not looked for. *)
Lemma Octree_isWhere_outside_root (M : EGS_Mesh F) (p : Vec) (t : EGS_Mesh_Octree F) :
  contains (bbox_ (root_ t)) p = false -> Octree_isWhere t p M = (-1)%Z.
Proof.
  unfold Octree_isWhere. intros ->. reflexivity.
Qed.

Lemma insideElement_planes (M : EGS_Mesh F) (e : Z) (p : Vec) :
  insideElement M e p = true ->
  let n := element_nodes M e in
  point_outside_of_plane p (nA n) (nB n) (nC n) (nD n) = false /\
  point_outside_of_plane p (nA n) (nC n) (nD n) (nB n) = false /\
  point_outside_of_plane p (nA n) (nB n) (nD n) (nC n) = false /\
  point_outside_of_plane p (nB n) (nC n) (nD n) (nA n) = false.
Proof.
  unfold insideElement. cbv zeta. split_ifs; intros; try discriminate; auto.
Qed.

(** C9. A region that [isWhere] returns, other than the sentinel -1, passes
    the point-in-tetrahedron test: the point is outside none of the planes of
    its four faces. *)
Theorem isWhere_sound (M : EGS_Mesh F) (p : Vec) (e : Z) :
  isWhere M p = e -> e <> (-1)%Z ->
  insideElement M e p = true /\
  (let n := element_nodes M e in
   point_outside_of_plane p (nA n) (nB n) (nC n) (nD n) = false /\
   point_outside_of_plane p (nA n) (nC n) (nD n) (nB n) = false /\
   point_outside_of_plane p (nA n) (nB n) (nD n) (nC n) = false /\
   point_outside_of_plane p (nB n) (nC n) (nD n) (nA n) = false).
Proof.
  intros He Hne.
  assert (insideElement M e p = true) as Hin
    by (eapply Octree_isWhere_sound; eauto).
  split; [exact Hin | apply insideElement_planes, Hin].
Qed.

(** A point outside the root box of the volume tree is reported as not
    found (the second half of C4). *)
Theorem isWhere_outside_root_box (M : EGS_Mesh F) (p : Vec) :
  contains (bbox_ (root_ (_volume_tree M))) p = false -> isWhere M p = (-1)%Z.
Proof.
  intros Hout. unfold isWhere. apply Octree_isWhere_outside_root, Hout.
Qed.

End PointLocation.

(** ** Construction *)

Section ConstructionFacts.
Context {F : Type} {SF : Scalar F} {LF : Limits F}.
Local Abbreviation Vec := (EGS_Vector F).

Lemma umap_insert_size (m : gmap Z Z) (k v : Z) :
  (size (fst (umap_insert m k v)) <= S (size m))%nat.
Proof.
  unfold umap_insert. destruct (m !! k) eqn:Hk; simpl.
  - lia.
  - rewrite map_size_insert_None by exact Hk. lia.
Qed.

Lemma umap_insert_present (m : gmap Z Z) (k v : Z) :
  is_Some (m !! k) -> fst (umap_insert m k v) = m.
Proof.
  unfold umap_insert. intros [w ->]. reflexivity.
Qed.

Lemma umap_insert_keeps (m : gmap Z Z) (k v k' : Z) :
  is_Some (m !! k') -> is_Some (fst (umap_insert m k v) !! k').
Proof.
  unfold umap_insert. intros Hk'. destruct (m !! k) eqn:Hk; simpl; [exact Hk'|].
  apply lookup_insert_is_Some. destruct (decide (k = k')); auto.
Qed.

Lemma umap_insert_has (m : gmap Z Z) (k v : Z) :
  is_Some (fst (umap_insert m k v) !! k).
Proof.
  unfold umap_insert. destruct (m !! k) eqn:Hk; simpl.
  - rewrite Hk. eauto.
  - rewrite lookup_insert_eq. eauto.
Qed.

Lemma build_node_map_size_le (nodes : list (MeshNode F)) :
  forall (i : Z) (m : gmap Z Z) (c : list Vec),
    (size (fst (build_node_map nodes i m c)) <= size m + List.length nodes)%nat.
Proof.
  induction nodes as [|n rest IH]; intros i m c; simpl; [lia|].
  specialize (IH (i + 1)%Z (fst (umap_insert m (node_tag n) i))
                 (c ++ [mkVec (node_x n) (node_y n) (node_z n)])).
  pose proof (umap_insert_size m (node_tag n) i). lia.
Qed.

(** A tag that is in the map already does not add to its size. *)
Lemma build_node_map_size_present (nodes : list (MeshNode F)) :
  forall (i : Z) (m : gmap Z Z) (c : list Vec),
    (exists n, n ∈ nodes /\ is_Some (m !! node_tag n)) ->
    (size (fst (build_node_map nodes i m c)) < size m + List.length nodes)%nat.
Proof.
  induction nodes as [|n rest IH]; intros i m c [n' [Hin Hsome]]; simpl.
  - apply elem_of_nil in Hin. contradiction.
  - apply elem_of_cons in Hin as [-> | Hin].
    + rewrite umap_insert_present by exact Hsome.
      pose proof (build_node_map_size_le rest (i + 1)%Z m
                    (c ++ [mkVec (node_x n) (node_y n) (node_z n)])). lia.
    + pose proof (umap_insert_size m (node_tag n) i).
      specialize (IH (i + 1)%Z (fst (umap_insert m (node_tag n) i))
                     (c ++ [mkVec (node_x n) (node_y n) (node_z n)])).
      assert (exists n0, n0 ∈ rest /\
                is_Some (fst (umap_insert m (node_tag n) i) !! node_tag n0)) as Hex
        by (exists n'; split; [exact Hin | apply umap_insert_keeps, Hsome]).
      specialize (IH Hex). lia.
Qed.

Lemma build_node_map_size_dup (nodes : list (MeshNode F)) :
  forall (i : Z) (m : gmap Z Z) (c : list Vec),
    ~ NoDup (node_tag <$> nodes) ->
    (size (fst (build_node_map nodes i m c)) < size m + List.length nodes)%nat.
Proof.
  induction nodes as [|n rest IH]; intros i m c Hdup; simpl.
  - exfalso. apply Hdup. constructor.
  - pose proof (umap_insert_size m (node_tag n) i) as Hsz.
    destruct (decide (node_tag n ∈ node_tag <$> rest)) as [Hin | Hnin].
    + apply list_elem_of_fmap in Hin as [n' [Htag Hin]].
      pose proof (build_node_map_size_present rest (i + 1)%Z
                    (fst (umap_insert m (node_tag n) i))
                    (c ++ [mkVec (node_x n) (node_y n) (node_z n)])) as Hlt.
      assert (exists n0, n0 ∈ rest /\
                is_Some (fst (umap_insert m (node_tag n) i) !! node_tag n0)) as Hex
        by (exists n'; split; [exact Hin | rewrite <- Htag; apply umap_insert_has]).
      specialize (Hlt Hex). lia.
    + assert (~ NoDup (node_tag <$> rest)) as Hrest.
      { intros Hnd. apply Hdup. simpl. apply NoDup_cons. auto. }
      specialize (IH (i + 1)%Z (fst (umap_insert m (node_tag n) i))
                     (c ++ [mkVec (node_x n) (node_y n) (node_z n)]) Hrest). lia.
Qed.

Lemma shared_tag_not_NoDup (nodes : list (MeshNode F)) (i j : nat) (n1 n2 : MeshNode F) :
  i <> j -> nodes !! i = Some n1 -> nodes !! j = Some n2 ->
  node_tag n1 = node_tag n2 -> ~ NoDup (node_tag <$> nodes).
Proof.
  intros Hij H1 H2 Htag Hnd. apply Hij.
  apply (proj1 (NoDup_alt (node_tag <$> nodes)) Hnd i j (node_tag n1)).
  - rewrite list_lookup_fmap, H1. reflexivity.
  - rewrite list_lookup_fmap, H2. simpl. congruence.
Qed.

Lemma initializeElements_duplicate_nodes (hbt : F) (elements : list Tetrahedron)
    (nodes : list (MeshNode F)) (materials : list Medium) :
  ~ NoDup (node_tag <$> nodes) ->
  exists e, initializeElements hbt elements nodes materials = Throw e /\
    ((Z.of_nat (List.length elements) < INT_MAX)%Z ->
     (Z.of_nat (List.length nodes) < INT_MAX)%Z -> e = DuplicateNodes).
Proof.
  intros Hdup. unfold initializeElements.
  destruct (Z.of_nat (List.length elements) >=? INT_MAX)%Z eqn:He.
  { eexists; split; [reflexivity|]. intros H. apply Z.geb_le in He. lia. }
  destruct (Z.of_nat (List.length nodes) >=? INT_MAX)%Z eqn:Hn.
  { eexists; split; [reflexivity|]. intros _ H. apply Z.geb_le in Hn. lia. }
  pose proof (build_node_map_size_dup nodes 0%Z ∅ [] Hdup) as Hsz.
  destruct (build_node_map nodes 0%Z ∅ []) as [node_map coords].
  simpl in Hsz. rewrite map_size_empty in Hsz.
  destruct (size node_map =? List.length nodes)%nat eqn:Hs.
  { apply Nat.eqb_eq in Hs. lia. }
  simpl. eexists; split; [reflexivity | auto].
Qed.

(** C8, as the code has it.  When two node records of the input share a
    tag, the constructor throws and no mesh is produced; the error is
    "duplicate nodes in node list" whenever the element and node counts are
    below the capacity limit (which the constructor checks first). *)
Theorem construction_rejects_duplicate_node_tags (fuel : nat) (hbt : F)
    (elements : list Tetrahedron) (nodes : list (MeshNode F))
    (materials : list Medium) (i j : nat) (n1 n2 : MeshNode F) :
  i <> j -> nodes !! i = Some n1 -> nodes !! j = Some n2 ->
  node_tag n1 = node_tag n2 ->
  (forall M, EGS_Mesh_ctor fuel hbt elements nodes materials <> Ok M) /\
  ((Z.of_nat (List.length elements) < INT_MAX)%Z ->
   (Z.of_nat (List.length nodes) < INT_MAX)%Z ->
   EGS_Mesh_ctor fuel hbt elements nodes materials = Throw DuplicateNodes).
Proof.
  intros Hij H1 H2 Htag.
  pose proof (shared_tag_not_NoDup nodes i j n1 n2 Hij H1 H2 Htag) as Hdup.
  destruct (initializeElements_duplicate_nodes hbt elements nodes materials Hdup)
    as [e [He Hkind]].
  unfold EGS_Mesh_ctor. rewrite He. simpl. split.
  - intros M. discriminate.
  - intros Hel Hno. rewrite (Hkind Hel Hno). reflexivity.
Qed.

End ConstructionFacts.

(** ** Evaluations in binary64 *)

Module Binary64Facts.
Import Binary64.
Local Open Scope float_scope.

Lemma unit_mesh_constructed :
  EGS_Mesh_ctor 8 0x1p-51 [mkTetrahedron 10 7 1 2 3 4] unit_nodes [mkMedium 7 "water"]
  = Ok unit_mesh.
Proof. vm_compute. reflexivity. Qed.

Lemma flat_mesh_constructed :
  EGS_Mesh_ctor 8 0x1p-51 [mkTetrahedron 10 7 1 2 3 4] flat_nodes [mkMedium 7 "water"]
  = Ok flat_mesh.
Proof. vm_compute. reflexivity. Qed.

Lemma pair_mesh_constructed :
  EGS_Mesh_ctor 8 0x1p-51 [mkTetrahedron 10 7 1 2 3 4; mkTetrahedron 11 7 1 2 3 5]
    pair_nodes [mkMedium 7 "water"]
  = Ok pair_mesh.
Proof. vm_compute. reflexivity. Qed.

Lemma mesh201_constructed :
  EGS_Mesh_ctor 6 0x1p-51 elements201 nodes201 [mkMedium 1 "water"] = Ok mesh201.
Proof. vm_compute. reflexivity. Qed.

(** The ray test at an origin below the triangle, with a normal that lets
    both guards pass: the distance is -0.5 and [dist] is reset to 0; and at a
    direction along the normal, where [dist] is left alone. *)
Lemma interior_ray_test_dist_out_parameter_witness :
  interior_triangle_ray_intersection (V 0.25 0.25 (-0.5)) (V 0 0 (-1)) (V 4 0 1)
    (V 0 0 0) (V 1 0 0) (V 0 1 0) 1e30 = (false, 0)
  /\
  interior_triangle_ray_intersection (V 0.25 0.25 0.5) (V 0 0 1) (V 0 0 1)
    (V 0 0 0) (V 1 0 0) (V 0 1 0) 1e30 = (false, 1e30).
Proof.
  split.
  - refine (proj1 (interior_ray_test_dist_out_parameter
              (V 0.25 0.25 (-0.5)) (V 0 0 (-1)) (V 4 0 1)
              (V 0 0 0) (V 1 0 0) (V 0 1 0) 1e30) _ _ _ _ _);
      vm_compute; reflexivity.
  - refine (proj2 (interior_ray_test_dist_out_parameter
              (V 0.25 0.25 0.5) (V 0 0 1) (V 0 0 1)
              (V 0 0 0) (V 1 0 0) (V 0 1 0) 1e30) _).
    left. vm_compute. reflexivity.
Defined.

(** A particle that the transport has in element 0 and that sits in element
    1, moving away from element 0: no face of element 0 qualifies, and the
    neighbour across face 3 is returned at distance 0. *)
Lemma howfar_lost_particle_witness :
  howfar pair_mesh Aborted 0 (V 0.25 0.25 (-0.25)) (V 0 0 (-1)) 1
  = Returned 1 0 None.
Proof.
  etransitivity.
  - apply (howfar_lost_particle pair_mesh Aborted 0
             (V 0.25 0.25 (-0.25)) (V 0 0 (-1)) 1).
    + lia.
    + intros i Hi. destruct i as [|[|[|[|i]]]]; try lia; vm_compute; reflexivity.
  - vm_compute. reflexivity.
Defined.

(** A particle inside its element that moves almost parallel to the face it
    is about to cross: no face qualifies, no neighbour contains it, the
    volume tree finds the element itself, and the process is ended. *)
Example howfar_grazing_direction_aborts :
  insideElement unit_mesh 0 (V 0.25 0.25 0x1p-40) = true /\
  howfar unit_mesh Aborted 0 (V 0.25 0.25 0x1p-40) (V 1 0 (- 0x1p-37)) 1 = Aborted.
Proof. vm_compute. auto. Qed.

Lemma isWhere_sound_witness :
  insideElement unit_mesh 0 (V 0.25 0.25 0.25) = true /\
  (let n := element_nodes unit_mesh 0 in
   point_outside_of_plane (V 0.25 0.25 0.25) (nA n) (nB n) (nC n) (nD n) = false /\
   point_outside_of_plane (V 0.25 0.25 0.25) (nA n) (nC n) (nD n) (nB n) = false /\
   point_outside_of_plane (V 0.25 0.25 0.25) (nA n) (nB n) (nD n) (nC n) = false /\
   point_outside_of_plane (V 0.25 0.25 0.25) (nB n) (nC n) (nD n) (nA n) = false).
Proof.
  apply (isWhere_sound unit_mesh (V 0.25 0.25 0.25) 0).
  - vm_compute. reflexivity.
  - lia.
Defined.

Lemma construction_rejects_duplicate_node_tags_witness :
  (forall M, EGS_Mesh_ctor 8 0x1p-51 [mkTetrahedron 10 7 1 2 3 4] duplicate_nodes
               [mkMedium 7 "water"] <> Ok M) /\
  EGS_Mesh_ctor 8 0x1p-51 [mkTetrahedron 10 7 1 2 3 4] duplicate_nodes
    [mkMedium 7 "water"] = Throw DuplicateNodes.
Proof.
  pose proof (construction_rejects_duplicate_node_tags 8 0x1p-51
                [mkTetrahedron 10 7 1 2 3 4] duplicate_nodes [mkMedium 7 "water"]
                1%nat 2%nat (mkMeshNode 2 1 0 0) (mkMeshNode 2 0 1 0)) as H.
  destruct H as [H1 H2]; [lia | reflexivity | reflexivity | reflexivity |].
  split; [exact H1 | apply H2; vm_compute; reflexivity].
Defined.

Lemma isWhere_outside_root_box_witness :
  isWhere unit_mesh (V 3 0.5 0.5) = (-1)%Z.
Proof.
  apply (isWhere_outside_root_box unit_mesh (V 3 0.5 0.5)).
  vm_compute. reflexivity.
Defined.

Lemma abs_not_negative (y : float) : PrimFloat.ltb (PrimFloat.abs y) 0 = false.
Proof.
  rewrite FloatAxioms.ltb_spec, FloatAxioms.abs_spec.
  change (FloatOps.Prim2SF 0) with (SpecFloat.S754_zero false).
  destruct (FloatOps.Prim2SF y) as [s | s | | s m e]; reflexivity.
Qed.

Lemma fmin_either (P : float -> Prop) (a b : float) : P a -> P b -> P (fmin a b).
Proof. unfold fmin. destruct (fltb b a); auto. Qed.

(** In binary64 the value [hownear] returns for a valid region is never
    negative (it is NaN when the arithmetic overflows into one). *)
Theorem hownear_interior_not_negative_binary64 (M : EGS_Mesh float) (ireg : Z)
    (x : EGS_Vector float) :
  (0 <= ireg < num_elements M)%Z ->
  exists d, hownear M ireg x = Ok d /\ PrimFloat.ltb d 0 = false.
Proof.
  intros Hreg. unfold hownear.
  replace ((ireg >? 0)%Z && (ireg >? num_elements M - 1)%Z) with false
    by (symmetry; apply andb_false_iff; right; rewrite Z.gtb_ltb; apply Z.ltb_ge; lia).
  replace (ireg >=? 0)%Z with true by (symmetry; apply Z.geb_le; lia).
  eexists; split; [reflexivity|].
  unfold min_interior_face_dist. cbv zeta.
  repeat apply fmin_either; apply abs_not_negative.
Qed.

Lemma hownear_interior_not_negative_binary64_witness :
  exists d, hownear unit_mesh 0 (V 0.25 0.25 0.125) = Ok d /\ PrimFloat.ltb d 0 = false.
Proof.
  apply (hownear_interior_not_negative_binary64 unit_mesh 0 (V 0.25 0.25 0.125)).
  replace (num_elements unit_mesh) with 1%Z by (vm_compute; reflexivity). lia.
Defined.

(** Against C1 as stated.  The stored normal of face 3 of the unit
    tetrahedron is (0, 0, 1): it
    points to the opposite node (0, 0, 1), on the inner side, and its scalar
    product with (opposite node - face node) is 1, not at most 0.  In the
    tetrahedron whose face 3 has its nodes on one line, the stored normal is
    not a unit vector. *)
Lemma stored_normal_not_outward :
  EGS_Mesh_ctor 8 0x1p-51 [mkTetrahedron 10 7 1 2 3 4] unit_nodes [mkMedium 7 "water"]
  = Ok unit_mesh /\
  EGS_Mesh_ctor 8 0x1p-51 [mkTetrahedron 10 7 1 2 3 4] flat_nodes [mkMedium 7 "water"]
  = Ok flat_mesh /\
  face_normal unit_mesh 0 3 = V 0 0 1 /\
  opposite_node (element_nodes unit_mesh 0) 3 = V 0 0 1 /\
  fst (fst (face_nodes (element_nodes unit_mesh 0) 3)) = V 0 0 0 /\
  fleb (dot (face_normal unit_mesh 0 3)
          (vsub (opposite_node (element_nodes unit_mesh 0) 3)
                (fst (fst (face_nodes (element_nodes unit_mesh 0) 3))))) 0 = false /\
  PrimFloat.eqb (length (face_normal flat_mesh 0 3)) 1 = false.
Proof. vm_compute. auto 8. Qed.

(** From (1/4, 1/4, 1/2) straight down with the maximum distance 10: face 3
    is the first face that qualifies within it, at distance 1/2. *)
Lemma howfar_interior_reports_first_face_witness :
  howfar unit_mesh Aborted 0 (V 0.25 0.25 0.5) (V 0 0 (-1)) 10
  = Returned (neighbour unit_mesh 0 3) (snapped unit_mesh 0.5)
      (Some (face_normal unit_mesh 0 3)).
Proof.
  assert (first_face_within unit_mesh 0 (V 0.25 0.25 0.5) (V 0 0 (-1)) 10
            [0%nat; 1%nat; 2%nat; 3%nat] = Some (3%nat, 0.5)) as E
    by (vm_compute; reflexivity).
  pose proof (howfar_interior_reports_first_face unit_mesh Aborted 0
                (V 0.25 0.25 0.5) (V 0 0 (-1)) 10 ltac:(lia)) as H.
  rewrite E in H. destruct H as (_ & _ & _ & _ & H). exact H.
Defined.

(** At height 2^-52 above the face that elements 0 and 1 share, moving down
    into element 1: the distance reported is 0 and the region is 1. *)
Lemma howfar_interior_snaps_first_face_witness :
  howfar pair_mesh Aborted 0 (V 0.25 0.25 0x1p-52) (V 0 0 (-1)) 1
  = Returned (neighbour pair_mesh 0 3) 0 (Some (face_normal pair_mesh 0 3)).
Proof.
  refine (howfar_interior_snaps_first_face pair_mesh Aborted 0
            (V 0.25 0.25 0x1p-52) (V 0 0 (-1)) 1 3%nat 0x1p-52 _ _ _).
  - lia.
  - vm_compute. reflexivity.
  - vm_compute. reflexivity.
Defined.

(** Against C2 as stated.  The ray [edge_ray_origin], [edge_ray_direction]
    starts inside the unit tetrahedron; faces 0 and 2 qualify, face 2 at the
    smaller distance.  [howfar] reports face 0, the first in the loop, and
    its distance, which is not the minimum.  And from (1/4, 1/4, 1/2)
    straight down the only face that qualifies is face 3, at distance 1/2;
    with the maximum distance 1/8 [howfar] reports no face, returns the
    region itself and leaves the distance at 1/8. *)
Lemma howfar_reported_face_not_nearest :
  EGS_Mesh_ctor 8 0x1p-51 [mkTetrahedron 10 7 1 2 3 4] unit_nodes [mkMedium 7 "water"]
  = Ok unit_mesh /\
  (strictly_inside unit_mesh 0 edge_ray_origin = true /\
   List.map (face_hit unit_mesh 0 edge_ray_origin edge_ray_direction)
     [0%nat; 1%nat; 2%nat; 3%nat]
   = [Some 0.2182611725734219; None; Some 0.21826117257342176; None] /\
   PrimFloat.ltb 0.21826117257342176 0.2182611725734219 = true /\
   howfar unit_mesh Aborted 0 edge_ray_origin edge_ray_direction 1
   = Returned (-1) 0.2182611725734219 (Some (face_normal unit_mesh 0 0))) /\
  (List.map (face_hit unit_mesh 0 (V 0.25 0.25 0.5) (V 0 0 (-1)))
     [0%nat; 1%nat; 2%nat; 3%nat]
   = [None; None; None; Some 0.5] /\
   howfar unit_mesh Aborted 0 (V 0.25 0.25 0.5) (V 0 0 (-1)) 0.125
   = Returned 0 0.125 None).
Proof. vm_compute. auto 10. Qed.

(** Against C6 as stated, in the mesh of two elements that share face 3 of
    element 0, with the tolerance 2^-51.  The ray [thin_ray_origin],
    [thin_ray_direction] starts in element 0 within the tolerance of the
    shared face and moves towards element 1; faces 2 and 3 qualify, face 3
    at 2^-51 and face 2 one unit in the last place above it.  [howfar]
    reports face 2 and its distance, not 0.  At height 2^-52 above the
    shared face, moving down, the only qualifying distance is 2^-52; with
    the maximum distance 2^-53 the distance reported is 2^-53, not 0.  And
    on the shared face, moving up into the interior of element 0, the
    distance reported is 1/2. *)
Lemma howfar_not_snapped_to_zero :
  EGS_Mesh_ctor 8 0x1p-51 [mkTetrahedron 10 7 1 2 3 4; mkTetrahedron 11 7 1 2 3 5]
    pair_nodes [mkMedium 7 "water"] = Ok pair_mesh /\
  halfBoundaryTolerance pair_mesh = 0x1p-51 /\
  neighbour pair_mesh 0 3 = 1%Z /\
  (strictly_inside pair_mesh 0 thin_ray_origin = true /\
   PrimFloat.leb (distance_to_plane thin_ray_origin (face_normal pair_mesh 0 3)
                    (V 0 0 0)) 0x1p-51 = true /\
   List.map (face_hit pair_mesh 0 thin_ray_origin thin_ray_direction)
     [0%nat; 1%nat; 2%nat; 3%nat]
   = [None; None; Some 0x1.0000000000001p-51; Some 0x1p-51] /\
   howfar pair_mesh Aborted 0 thin_ray_origin thin_ray_direction 1
   = Returned (-1) 0x1.0000000000001p-51 (Some (face_normal pair_mesh 0 2))) /\
  (List.map (face_hit pair_mesh 0 (V 0.25 0.25 0x1p-52) (V 0 0 (-1)))
     [0%nat; 1%nat; 2%nat; 3%nat]
   = [None; None; None; Some 0x1p-52] /\
   howfar pair_mesh Aborted 0 (V 0.25 0.25 0x1p-52) (V 0 0 (-1)) 0x1p-53
   = Returned 0 0x1p-53 None) /\
  (insideElement pair_mesh 0 (V 0.25 0.25 0) = true /\
   insideElement pair_mesh 1 (V 0.25 0.25 0) = true /\
   howfar pair_mesh Aborted 0 (V 0.25 0.25 0) (V 0 0 1) 1
   = Returned (-1) 0.5 (Some (face_normal pair_mesh 0 0))).
Proof. vm_compute. auto 15. Qed.

(** C4, where the code departs from it.  The point (1/8, 1/8, 1/8) is
    strictly inside element 0 of the mesh of
    201 elements and inside no other element, and it lies in the root box of
    the volume tree; [isWhere] does not find it.  The octant of the root that
    holds the point does not list element 0: [intersects_triangle] finds an
    axis that separates each face of element 0 from the octant's box. *)
Theorem isWhere_misses_containing_element :
  EGS_Mesh_ctor 6 0x1p-51 elements201 nodes201 [mkMedium 1 "water"] = Ok mesh201 /\
  strictly_inside mesh201 0 (V 0.125 0.125 0.125) = true /\
  List.filter (fun e => insideElement mesh201 e (V 0.125 0.125 0.125))
    (element_range mesh201) = [0%Z] /\
  contains (bbox_ (root_ (_volume_tree mesh201))) (V 0.125 0.125 0.125) = true /\
  intersects_tetrahedron
    (bbox_ (child (root_ (_volume_tree mesh201)) 7)) (element_nodes mesh201 0) = false /\
  isWhere mesh201 (V 0.125 0.125 0.125) = (-1)%Z.
Proof. vm_compute. auto 7. Qed.

(** C5, where the code departs from it.  Outside the mesh, at
    (3/16, 3/16, 5/16), [hownear] returns 3/16, the
    distance to the wall of the octree leaf.  The node (1/4, 1/4, 1/4) of
    element 0, a corner of its boundary faces, is nearer: the squared
    distance to it is 3/256, less than (3/16)^2 = 9/256. *)
Theorem hownear_exterior_exceeds_boundary_distance :
  EGS_Mesh_ctor 6 0x1p-51 elements201 nodes201 [mkMedium 1 "water"] = Ok mesh201 /\
  isWhere_leaf mesh201 (element_range mesh201) (V 0.1875 0.1875 0.3125) = (-1)%Z /\
  hownear mesh201 (-1) (V 0.1875 0.1875 0.3125) = Ok 0.1875 /\
  is_boundary mesh201 0 = true /\
  to_list4 (at_ (_neighbours mesh201) 0 (mkArray4 0 0 0 0)%Z) = [NONE; NONE; NONE; NONE] /\
  nA (element_nodes mesh201 0) = V 0.25 0.25 0.25 /\
  distance2 (V 0.1875 0.1875 0.3125) (V 0.25 0.25 0.25) = 0.01171875 /\
  0.1875 * 0.1875 = 0.03515625 /\
  fltb (distance2 (V 0.1875 0.1875 0.3125) (V 0.25 0.25 0.25)) (0.1875 * 0.1875) = true.
Proof. vm_compute. auto 11. Qed.

End Binary64Facts.

(** ** The normals of a constructed mesh *)

Section ConstructedNormals.
Context {F : Type} {SF : Scalar F} {LF : Limits F}.

Lemma face_hit_some (M : EGS_Mesh F) (ireg : Z) (x u : EGS_Vector F)
    (i : nat) (d : F) :
  face_hit M ireg x u i = Some d ->
  interior_triangle_ray_intersection x u (face_normal M ireg i)
    (fst (fst (face_nodes (element_nodes M ireg) i)))
    (snd (fst (face_nodes (element_nodes M ireg) i)))
    (snd (face_nodes (element_nodes M ireg) i)) f0 = (true, d).
Proof.
  unfold face_hit.
  destruct (face_nodes (element_nodes M ireg) i) as [[fa fb] fc]. simpl.
  destruct (_ >=? _)%egs; [|discriminate].
  destruct (interior_triangle_ray_intersection _ _ _ _ _ _ _) as [[|] r]; congruence.
Qed.


Lemma at_map_range {T} (f : Z -> T) (n : nat) (e : Z) (d : T) :
  (0 <= e < Z.of_nat n)%Z ->
  at_ (List.map f (List.map Z.of_nat (seq 0 n))) e d = f e.
Proof.
  intros He. unfold at_.
  destruct (e <? 0)%Z eqn:Hneg; [apply Z.ltb_lt in Hneg; lia|].
  rewrite List.map_map.
  rewrite (nth_indep _ d (f (Z.of_nat 0))) by (rewrite length_map, length_seq; lia).
  rewrite (map_nth (fun k => f (Z.of_nat k)) (seq 0 n) 0%nat).
  rewrite seq_nth by lia. simpl. f_equal. lia.
Qed.

Lemma initializeNormals_constructed (M : EGS_Mesh F) (e : Z) :
  (0 <= e < num_elements M)%Z -> normals_constructed (initializeNormals M) e.
Proof.
  intros He. unfold normals_constructed, initializeNormals, element_range. simpl.
  rewrite (at_map_range (fun i => element_normals (element_nodes M i))) by exact He.
  reflexivity.
Qed.

Lemma EGS_Mesh_ctor_normals_constructed (fuel : nat) (hbt : F)
    (elements : list Tetrahedron) (nodes : list (MeshNode F))
    (materials : list Medium) (M : EGS_Mesh F) (e : Z) :
  EGS_Mesh_ctor fuel hbt elements nodes materials = Ok M ->
  (0 <= e < num_elements M)%Z -> normals_constructed M e.
Proof.
  unfold EGS_Mesh_ctor.
  destruct (initializeElements hbt elements nodes materials) as [M1|]; [|discriminate].
  simpl. destruct (initializeNeighbours M1) as [M2|]; [|discriminate].
  simpl. destruct (initializeOctrees fuel M2) as [M3|]; [|discriminate].
  simpl. intros H; injection H as <-. apply initializeNormals_constructed.
Qed.
(** A node with fewer elements than the threshold is a leaf. *)
Lemma Node_ctor_leaf (fuel : nat) (elts : list Z) (bbox : BoundingBox F)
    (n_max : Z) (mesh : EGS_Mesh F) :
  (Z.of_nat (List.length elts) < n_max)%Z ->
  Node_ctor fuel elts bbox n_max mesh = Ok (Leaf elts bbox).
Proof.
  intros Hlt. apply Z.ltb_lt in Hlt.
  destruct fuel; simpl; rewrite Hlt, orb_true_r; reflexivity.
Qed.

Lemma Octree_ctor_small (fuel : nat) (e : Z) (rest : list Z) (n_max : Z)
    (mesh : EGS_Mesh F) :
  (Z.of_nat (List.length (e :: rest)) < n_max)%Z ->
  (Z.of_nat (List.length (e :: rest)) <= INT_MAX)%Z ->
  Octree_ctor fuel (e :: rest) n_max mesh =
  Ok (mkOctree
        (Leaf (e :: rest)
           (expand
              (fold_left (grow_bounds mesh) (e :: rest)
                 (mkBox numeric_infinity (fopp numeric_infinity)
                        numeric_infinity (fopp numeric_infinity)
                        numeric_infinity (fopp numeric_infinity)))
              eps))).
Proof.
  intros Hlt Hmax. unfold Octree_ctor.
  replace (INT_MAX <? Z.of_nat (List.length (e :: rest)))%Z with false
    by (symmetry; apply Z.ltb_ge; exact Hmax).
  rewrite Node_ctor_leaf by exact Hlt. reflexivity.
Qed.

End ConstructedNormals.


(** ** Construction: what the store holds and what the constructor rejects *)

Section ConstructionRoundTrip.
Context {F : Type} {SF : Scalar F} {LF : Limits F}.
Local Abbreviation Vec := (EGS_Vector F).

Lemma build_node_map_coords (nodes : list (MeshNode F)) :
  forall (i : Z) (m : gmap Z Z) (c : list Vec),
    snd (build_node_map nodes i m c) = c ++ List.map node_point nodes.
Proof.
  induction nodes as [|n rest IH]; intros i m c; simpl.
  - rewrite app_nil_r. reflexivity.
  - rewrite IH, <- app_assoc. reflexivity.
Qed.

Lemma build_node_map_lookup (nodes : list (MeshNode F)) :
  forall (i : Z) (m : gmap Z Z) (c : list Vec) (k v : Z),
    fst (build_node_map nodes i m c) !! k = Some v ->
    m !! k = Some v \/
    exists (j : nat) (n : MeshNode F),
      nodes !! j = Some n /\ node_tag n = k /\ v = (i + Z.of_nat j)%Z.
Proof.
  induction nodes as [|n rest IH]; intros i m c k v; simpl; [auto|].
  intros H. apply IH in H as [H | (j & n' & Hj & Htag & Hv)].
  - unfold umap_insert in H. destruct (m !! node_tag n) eqn:Hn; simpl in H; [auto|].
    destruct (decide (node_tag n = k)) as [Heq | Hne].
    + subst k. rewrite lookup_insert_eq in H. injection H as <-.
      right. exists 0%nat, n. split; [reflexivity|]. split; [reflexivity | lia].
    + rewrite lookup_insert_ne in H by exact Hne. auto.
  - right. exists (S j), n'. split; [exact Hj|]. split; [exact Htag | lia].
Qed.

Lemma build_node_map_keeps (nodes : list (MeshNode F)) :
  forall (i : Z) (m : gmap Z Z) (c : list Vec) (k : Z),
    is_Some (m !! k) -> is_Some (fst (build_node_map nodes i m c) !! k).
Proof.
  induction nodes as [|n rest IH]; intros i m c k Hk; simpl; [exact Hk|].
  apply IH, umap_insert_keeps, Hk.
Qed.

Lemma build_node_map_has (nodes : list (MeshNode F)) :
  forall (i : Z) (m : gmap Z Z) (c : list Vec) (n : MeshNode F),
    n ∈ nodes -> is_Some (fst (build_node_map nodes i m c) !! node_tag n).
Proof.
  induction nodes as [|n0 rest IH]; intros i m c n Hin; simpl.
  - apply elem_of_nil in Hin. contradiction.
  - apply elem_of_cons in Hin as [-> | Hin].
    + apply build_node_map_keeps, umap_insert_has.
    + apply IH, Hin.
Qed.

(** The node loop of [initializeElements], once the size test has passed:
    the tags are distinct, the coordinates are stored in input order, and
    the map sends exactly the tags of the input to their positions. *)
Lemma build_node_map_passed (nodes : list (MeshNode F)) (node_map : gmap Z Z)
    (coords : list Vec) :
  build_node_map nodes 0%Z ∅ [] = (node_map, coords) ->
  size node_map = List.length nodes ->
  NoDup (node_tag <$> nodes) /\ coords = List.map node_point nodes /\
  (forall k v, node_map !! k = Some v ->
     exists n, nodes !! Z.to_nat v = Some n /\ node_tag n = k /\ (0 <= v)%Z) /\
  (forall k, node_map !! k = None -> k ∉ node_tag <$> nodes).
Proof.
  intros Hb Hsz. split; [|split; [|split]].
  - destruct (decide (NoDup (node_tag <$> nodes))) as [H | H]; [exact H|].
    pose proof (build_node_map_size_dup nodes 0%Z ∅ [] H) as Hlt.
    rewrite Hb in Hlt. simpl in Hlt. rewrite map_size_empty in Hlt. lia.
  - pose proof (build_node_map_coords nodes 0%Z ∅ []) as Hc.
    rewrite Hb in Hc. exact Hc.
  - intros k v Hk.
    pose proof (build_node_map_lookup nodes 0%Z ∅ [] k v) as Hl.
    rewrite Hb in Hl. destruct (Hl Hk) as [He | (j & n & Hj & Htag & Hv)].
    + rewrite lookup_empty in He. discriminate.
    + exists n. subst v. rewrite Z.add_0_l, Nat2Z.id. split; [exact Hj|].
      split; [exact Htag | lia].
  - intros k Hk Hin. apply list_elem_of_fmap in Hin as (n & -> & Hin).
    pose proof (build_node_map_has nodes 0%Z ∅ [] n Hin) as [v Hv].
    rewrite Hb in Hv. simpl in Hv. congruence.
Qed.

Lemma find_node_Ok (m : gmap Z Z) (t i : Z) : find_node m t = Ok i <-> m !! t = Some i.
Proof.
  unfold find_node. destruct (m !! t); split; intros H; try discriminate; congruence.
Qed.

(** [resolve_elements] either resolves every node tag of every element, or
    throws for a tag the map does not have. *)
Lemma resolve_elements_Ok (m : gmap Z Z) (es : list Tetrahedron) :
  forall tags ixs, resolve_elements m es = Ok (tags, ixs) ->
    tags = List.map tet_tag es /\
    List.length ixs = List.length es /\
    forall i e, es !! i = Some e ->
      exists ix, ixs !! i = Some ix /\
        m !! tet_a e = Some (a0 ix) /\ m !! tet_b e = Some (a1 ix) /\
        m !! tet_c e = Some (a2 ix) /\ m !! tet_d e = Some (a3 ix).
Proof.
  induction es as [|e rest IH]; intros tags ixs; simpl.
  - intros H; injection H as <- <-. split; [reflexivity|]. split; [reflexivity|].
    intros i e Hi. rewrite lookup_nil in Hi. discriminate.
  - destruct (find_node m (tet_a e)) as [a|] eqn:Ha; [|discriminate]. simpl.
    destruct (find_node m (tet_b e)) as [b|] eqn:Hb; [|discriminate]. simpl.
    destruct (find_node m (tet_c e)) as [c|] eqn:Hc; [|discriminate]. simpl.
    destruct (find_node m (tet_d e)) as [d|] eqn:Hd; [|discriminate]. simpl.
    destruct (resolve_elements m rest) as [[tags' ixs']|] eqn:Hr; [|discriminate].
    simpl. intros H; injection H as <- <-.
    destruct (IH tags' ixs' eq_refl) as (Ht & Hl & Hall).
    split; [simpl; congruence|]. split; [simpl; congruence|].
    intros [|i] e' Hi; simpl in Hi.
    + injection Hi as <-. exists (mkArray4 a b c d). simpl.
      apply find_node_Ok in Ha, Hb, Hc, Hd. auto.
    + apply Hall, Hi.
Qed.

Lemma resolve_elements_Throw (m : gmap Z Z) (es : list Tetrahedron) (err : exception) :
  resolve_elements m es = Throw err ->
  exists e t, e ∈ es /\ t ∈ tet_node_tags e /\ m !! t = None /\ err = NoMeshNode t.
Proof.
  induction es as [|e rest IH]; simpl; [discriminate|].
  unfold find_node at 1.
  destruct (m !! tet_a e) eqn:Ha; simpl;
    [|intros H; injection H as <-; exists e, (tet_a e);
      repeat split; [left | unfold tet_node_tags; set_solver | exact Ha]].
  unfold find_node at 1.
  destruct (m !! tet_b e) eqn:Hb; simpl;
    [|intros H; injection H as <-; exists e, (tet_b e);
      repeat split; [left | unfold tet_node_tags; set_solver | exact Hb]].
  unfold find_node at 1.
  destruct (m !! tet_c e) eqn:Hc; simpl;
    [|intros H; injection H as <-; exists e, (tet_c e);
      repeat split; [left | unfold tet_node_tags; set_solver | exact Hc]].
  unfold find_node at 1.
  destruct (m !! tet_d e) eqn:Hd; simpl;
    [|intros H; injection H as <-; exists e, (tet_d e);
      repeat split; [left | unfold tet_node_tags; set_solver | exact Hd]].
  destruct (resolve_elements m rest) as [r|err'] eqn:Hr; simpl; [discriminate|].
  intros H; injection H as <-.
  destruct (IH eq_refl) as (e' & t & Hin & Ht & Hm & He).
  exists e', t. repeat split; auto. right. exact Hin.
Qed.

Lemma resolve_elements_total (m : gmap Z Z) (es : list Tetrahedron) :
  (forall e t, e ∈ es -> t ∈ tet_node_tags e -> is_Some (m !! t)) ->
  exists r, resolve_elements m es = Ok r.
Proof.
  intros Hall. destruct (resolve_elements m es) as [r|err] eqn:Hr; [eauto|].
  apply resolve_elements_Throw in Hr as (e & t & Hin & Ht & Hm & _).
  destruct (Hall e t Hin Ht) as [v Hv]. congruence.
Qed.

(** The media loop: it stops at the first tag it has seen before. *)
Lemma build_medium_offsets_Ok (materials : list Medium) :
  forall (i : Z) (offsets : gmap Z Z) (names : list string) offsets' names',
    build_medium_offsets materials i offsets names = Ok (offsets', names') ->
    names' = names ++ List.map medium_name materials /\
    NoDup (med_tag <$> materials) /\
    (forall m, m ∈ materials -> offsets !! med_tag m = None) /\
    (forall k v, offsets' !! k = Some v ->
       offsets !! k = Some v \/
       exists (j : nat) (m : Medium),
         materials !! j = Some m /\ med_tag m = k /\ v = (i + Z.of_nat j)%Z) /\
    (forall k, is_Some (offsets !! k) -> is_Some (offsets' !! k)) /\
    (forall m, m ∈ materials -> is_Some (offsets' !! med_tag m)).
Proof.
  induction materials as [|m rest IH]; intros i offsets names offsets' names'; simpl.
  - intros H; injection H as <- <-. rewrite app_nil_r.
    split; [reflexivity|]. split; [constructor|].
    split; [intros m Hm; apply elem_of_nil in Hm; contradiction|].
    split; [auto|]. split; [auto|].
    intros m Hm; apply elem_of_nil in Hm; contradiction.
  - unfold umap_insert. destruct (offsets !! med_tag m) eqn:Hm; simpl; [discriminate|].
    intros H. apply IH in H as (Hn & Hnd & Hfresh & Hlk & Hkeep & Hhas).
    split; [rewrite Hn, <- app_assoc; reflexivity|].
    split.
    { simpl. apply NoDup_cons. split; [|exact Hnd].
      intros Hin. apply list_elem_of_fmap in Hin as (m' & Heq & Hin).
      specialize (Hfresh m' Hin). rewrite <- Heq, lookup_insert_eq in Hfresh.
      discriminate. }
    split.
    { intros m' Hin. apply elem_of_cons in Hin as [-> | Hin]; [exact Hm|].
      specialize (Hfresh m' Hin).
      destruct (decide (med_tag m = med_tag m')) as [Heq | Hne].
      - rewrite Heq, lookup_insert_eq in Hfresh. discriminate.
      - rewrite lookup_insert_ne in Hfresh by exact Hne. exact Hfresh. }
    split.
    { intros k v Hk. apply Hlk in Hk as [Hk | (j & m' & Hj & Htag & Hv)].
      - destruct (decide (med_tag m = k)) as [Heq | Hne].
        + subst k. rewrite lookup_insert_eq in Hk. injection Hk as <-.
          right. exists 0%nat, m. split; [reflexivity|]. split; [reflexivity | lia].
        + rewrite lookup_insert_ne in Hk by exact Hne. auto.
      - right. exists (S j), m'. split; [exact Hj|]. split; [exact Htag | lia]. }
    split.
    { intros k Hk. apply Hkeep. apply lookup_insert_is_Some.
      destruct (decide (med_tag m = k)); auto. }
    intros m' Hin. apply elem_of_cons in Hin as [-> | Hin].
    + apply Hkeep. rewrite lookup_insert_eq. eauto.
    + apply Hhas, Hin.
Qed.

Lemma build_medium_offsets_Throw (materials : list Medium) :
  forall (i : Z) (offsets : gmap Z Z) (names : list string) err,
    build_medium_offsets materials i offsets names = Throw err ->
    exists (j : nat) (m : Medium),
      materials !! j = Some m /\ err = DuplicateMediumTag (med_tag m) /\
      (is_Some (offsets !! med_tag m) \/
       exists (j' : nat) (m' : Medium),
         (j' < j)%nat /\ materials !! j' = Some m' /\ med_tag m' = med_tag m).
Proof.
  induction materials as [|m rest IH]; intros i offsets names err; simpl; [discriminate|].
  unfold umap_insert. destruct (offsets !! med_tag m) eqn:Hm; simpl.
  - intros H; injection H as <-. exists 0%nat, m.
    split; [reflexivity|]. split; [reflexivity|]. left. eauto.
  - intros H. apply IH in H as (j & m' & Hj & He & Hsrc).
    exists (S j), m'. split; [exact Hj|]. split; [exact He|].
    destruct Hsrc as [Hs | (j' & m'' & Hlt & Hj' & Htag)].
    + destruct (decide (med_tag m = med_tag m')) as [Heq | Hne].
      * right. exists 0%nat, m. split; [lia|]. split; [reflexivity | exact Heq].
      * left. rewrite lookup_insert_ne in Hs by exact Hne. exact Hs.
    + right. exists (S j'), m''. split; [lia|]. split; [exact Hj' | exact Htag].
Qed.

Lemma resolve_media_Ok (offsets : gmap Z Z) (es : list Tetrahedron) :
  forall r, resolve_media offsets es = Ok r ->
    List.length r = List.length es /\
    forall i e, es !! i = Some e ->
      exists off, r !! i = Some off /\ offsets !! medium_tag e = Some off.
Proof.
  induction es as [|e rest IH]; intros r; simpl.
  - intros H; injection H as <-. split; [reflexivity|].
    intros i e Hi. rewrite lookup_nil in Hi. discriminate.
  - destruct (offsets !! medium_tag e) as [off|] eqn:Ho; [|discriminate].
    destruct (resolve_media offsets rest) as [r'|] eqn:Hr; [|discriminate].
    simpl. intros H; injection H as <-.
    destruct (IH r' eq_refl) as [Hl Hall]. split; [simpl; congruence|].
    intros [|i] e' Hi; simpl in Hi.
    + injection Hi as <-. exists off. auto.
    + apply Hall, Hi.
Qed.

Lemma resolve_media_Throw (offsets : gmap Z Z) (es : list Tetrahedron) (err : exception) :
  resolve_media offsets es = Throw err ->
  err = MapAtOutOfRange /\
  exists e, e ∈ es /\ offsets !! medium_tag e = None.
Proof.
  induction es as [|e rest IH]; simpl; [discriminate|].
  destruct (offsets !! medium_tag e) as [off|] eqn:Ho.
  - destruct (resolve_media offsets rest) as [r'|err'] eqn:Hr; simpl; [discriminate|].
    intros H; injection H as <-.
    destruct (IH eq_refl) as (He & e' & Hin & Hm).
    split; [exact He|]. exists e'. split; [right; exact Hin | auto].
  - intros H; injection H as <-. split; [reflexivity|].
    exists e. split; [left | auto].
Qed.

Lemma at_lookup {T} (l : list T) (i : nat) (d x : T) :
  l !! i = Some x -> at_ l (Z.of_nat i) d = x.
Proof.
  intros H. unfold at_.
  destruct (Z.of_nat i <? 0)%Z eqn:Hneg; [apply Z.ltb_lt in Hneg; lia|].
  rewrite Nat2Z.id. apply nth_lookup_Some with (d := d) in H. exact H.
Qed.

Lemma at_lookup_Z {T} (l : list T) (v : Z) (d x : T) :
  (0 <= v)%Z -> l !! Z.to_nat v = Some x -> at_ l v d = x.
Proof.
  intros Hv H. rewrite <- (Z2Nat.id v) by exact Hv. apply at_lookup, H.
Qed.

(** The stages of the constructor, and what the later stages leave alone. *)
Lemma EGS_Mesh_ctor_stages (fuel : nat) (hbt : F) (elements : list Tetrahedron)
    (nodes : list (MeshNode F)) (materials : list Medium) (M : EGS_Mesh F) :
  EGS_Mesh_ctor fuel hbt elements nodes materials = Ok M ->
  exists M1 M2 M3,
    initializeElements hbt elements nodes materials = Ok M1 /\
    initializeNeighbours M1 = Ok M2 /\
    initializeOctrees fuel M2 = Ok M3 /\
    M = initializeNormals M3.
Proof.
  unfold EGS_Mesh_ctor.
  destruct (initializeElements hbt elements nodes materials) as [M1|] eqn:H1;
    [|discriminate].
  simpl. destruct (initializeNeighbours M1) as [M2|] eqn:H2; [|discriminate].
  simpl. destruct (initializeOctrees fuel M2) as [M3|] eqn:H3; [|discriminate].
  simpl. intros H; injection H as <-. exists M1, M2, M3. auto.
Qed.

Lemma initializeNeighbours_store (M1 M2 : EGS_Mesh F) :
  initializeNeighbours M1 = Ok M2 ->
  _elt_tags M2 = _elt_tags M1 /\ _elt_node_indices M2 = _elt_node_indices M1 /\
  _nodes M2 = _nodes M1 /\ _medium_names M2 = _medium_names M1 /\
  _medium_indices M2 = _medium_indices M1.
Proof.
  unfold initializeNeighbours.
  destruct (tetrahedron_neighbours (_elt_node_indices M1)); [|discriminate].
  simpl. intros H; injection H as <-. simpl. auto.
Qed.

Lemma initializeOctrees_store (fuel : nat) (M2 M3 : EGS_Mesh F) :
  initializeOctrees fuel M2 = Ok M3 ->
  _elt_tags M3 = _elt_tags M2 /\ _elt_node_indices M3 = _elt_node_indices M2 /\
  _nodes M3 = _nodes M2 /\ _medium_names M3 = _medium_names M2 /\
  _medium_indices M3 = _medium_indices M2 /\
  _neighbours M3 = _neighbours M2 /\ _boundary_faces M3 = _boundary_faces M2 /\
  Octree_ctor fuel (element_range M2) 200 M2 = Ok (_volume_tree M3) /\
  Octree_ctor fuel (List.filter (is_boundary M2) (element_range M2)) 100 M2
  = Ok (_surface_tree M3).
Proof.
  unfold initializeOctrees. cbv zeta.
  destruct (Octree_ctor fuel (element_range M2) 200 M2) as [vt|] eqn:Hv; [|discriminate].
  simpl.
  destruct (Octree_ctor fuel (List.filter (is_boundary M2) (element_range M2)) 100 M2)
    as [st|] eqn:Hs; [|discriminate].
  simpl. intros H; injection H as <-. simpl. repeat split; reflexivity.
Qed.

(** What [initializeElements] stores when it returns. *)
Lemma initializeElements_Ok (hbt : F) (elements : list Tetrahedron)
    (nodes : list (MeshNode F)) (materials : list Medium) (M : EGS_Mesh F) :
  initializeElements hbt elements nodes materials = Ok M ->
  (Z.of_nat (List.length elements) < INT_MAX)%Z /\
  (Z.of_nat (List.length nodes) < INT_MAX)%Z /\
  NoDup (node_tag <$> nodes) /\ NoDup (med_tag <$> materials) /\
  _elt_tags M = List.map tet_tag elements /\
  _nodes M = List.map node_point nodes /\
  _medium_names M = List.map medium_name materials /\
  List.length (_elt_node_indices M) = List.length elements /\
  List.length (_medium_indices M) = List.length elements /\
  forall i e, elements !! i = Some e ->
    (exists ix na nb nc nd,
       _elt_node_indices M !! i = Some ix /\
       (0 <= a0 ix)%Z /\ (0 <= a1 ix)%Z /\ (0 <= a2 ix)%Z /\ (0 <= a3 ix)%Z /\
       nodes !! Z.to_nat (a0 ix) = Some na /\ nodes !! Z.to_nat (a1 ix) = Some nb /\
       nodes !! Z.to_nat (a2 ix) = Some nc /\ nodes !! Z.to_nat (a3 ix) = Some nd /\
       node_tag na = tet_a e /\ node_tag nb = tet_b e /\
       node_tag nc = tet_c e /\ node_tag nd = tet_d e) /\
    (exists (j : nat) m,
       _medium_indices M !! i = Some (Z.of_nat j) /\
       materials !! j = Some m /\ med_tag m = medium_tag e).
Proof.
  unfold initializeElements. cbv zeta.
  destruct (Z.of_nat (List.length elements) >=? INT_MAX)%Z eqn:He; [discriminate|].
  destruct (Z.of_nat (List.length nodes) >=? INT_MAX)%Z eqn:Hn; [discriminate|].
  destruct (build_node_map nodes 0%Z ∅ []) as [node_map coords] eqn:Hb.
  destruct (size node_map =? List.length nodes)%nat eqn:Hs; [|discriminate].
  simpl. apply Nat.eqb_eq in Hs.
  destruct (build_node_map_passed nodes node_map coords Hb Hs)
    as (Hnd & Hc & Hlk & _).
  destruct (resolve_elements node_map elements) as [[tags ixs]|] eqn:Hr; [|discriminate].
  simpl.
  destruct (build_medium_offsets materials 0%Z ∅ []) as [[offsets names]|] eqn:Hm;
    [|discriminate].
  simpl.
  destruct (resolve_media offsets elements) as [mi|] eqn:Hmi; [|discriminate].
  simpl. intros H; injection H as <-. simpl.
  destruct (resolve_elements_Ok node_map elements tags ixs Hr) as (Ht & Hl & Hall).
  destruct (build_medium_offsets_Ok materials 0%Z ∅ [] offsets names Hm)
    as (Hnames & Hmnd & _ & Hmlk & _ & _).
  destruct (resolve_media_Ok offsets elements mi Hmi) as (Hml & Hmall).
  rewrite Z.geb_leb in He, Hn. apply Z.leb_gt in He, Hn.
  repeat (split; [solve [auto]|]).
  intros i e Hi. split.
  - destruct (Hall i e Hi) as (ix & Hix & Ha & Hb' & Hc' & Hd).
    destruct (Hlk _ _ Ha) as (na & Hna & Hta & H0a).
    destruct (Hlk _ _ Hb') as (nb & Hnb & Htb & H0b).
    destruct (Hlk _ _ Hc') as (nc & Hnc & Htc & H0c).
    destruct (Hlk _ _ Hd) as (nd & Hnd' & Htd & H0d).
    exists ix, na, nb, nc, nd. repeat split; assumption.
  - destruct (Hmall i e Hi) as (off & Hoff & Ho).
    destruct (Hmlk _ _ Ho) as [Hemp | (j & m & Hj & Htag & Hv)].
    + rewrite lookup_empty in Hemp. discriminate.
    + exists j, m. rewrite Z.add_0_l in Hv. subst off. auto.
Qed.

(** A mesh the constructor returns holds what the input records say: it has
    the input's elements, at least one; the node coordinates are stored in
    input order; the four corners of element [i] are the coordinates of the
    node records whose tags the [i]-th element record names; and its medium
    index leads to the name of the medium record whose tag it names. *)
Theorem constructed_mesh_resolves_tags (fuel : nat) (hbt : F)
    (elements : list Tetrahedron) (nodes : list (MeshNode F))
    (materials : list Medium) (M : EGS_Mesh F) :
  EGS_Mesh_ctor fuel hbt elements nodes materials = Ok M ->
  (0 < num_elements M)%Z /\
  num_elements M = Z.of_nat (List.length elements) /\
  _elt_tags M = List.map tet_tag elements /\
  _nodes M = List.map node_point nodes /\
  _medium_names M = List.map medium_name materials /\
  NoDup (node_tag <$> nodes) /\ NoDup (med_tag <$> materials) /\
  forall (i : nat) (e : Tetrahedron), elements !! i = Some e ->
    (exists na nb nc nd,
       na ∈ nodes /\ nb ∈ nodes /\ nc ∈ nodes /\ nd ∈ nodes /\
       node_tag na = tet_a e /\ node_tag nb = tet_b e /\
       node_tag nc = tet_c e /\ node_tag nd = tet_d e /\
       element_nodes M (Z.of_nat i)
       = mkNodes (node_point na) (node_point nb) (node_point nc) (node_point nd)) /\
    (exists m off,
       m ∈ materials /\ med_tag m = medium_tag e /\
       medium M (Z.of_nat i) = Some off /\
       at_ (_medium_names M) off ""%string = medium_name m).
Proof.
  intros Hctor.
  destruct (EGS_Mesh_ctor_stages _ _ _ _ _ _ Hctor) as (M1 & M2 & M3 & H1 & H2 & H3 & ->).
  destruct (initializeElements_Ok _ _ _ _ _ H1)
    as (Hel & Hno & Hnd & Hmnd & Htags & Hnodes & Hnames & Hlix & Hlmi & Hall).
  destruct (initializeNeighbours_store _ _ H2) as (T2 & I2 & N2 & MN2 & MI2).
  destruct (initializeOctrees_store _ _ _ H3)
    as (T3 & I3 & N3 & MN3 & MI3 & _ & _ & Hvt & _).
  assert (num_elements (initializeNormals M3) = Z.of_nat (List.length elements)) as Hnum.
  { unfold num_elements. simpl. rewrite T3, T2, Htags, length_map. reflexivity. }
  split.
  { rewrite Hnum. destruct elements as [|e0 rest]; [|simpl; lia].
    exfalso. unfold Octree_ctor, element_range in Hvt.
    rewrite T2, Htags in Hvt. simpl in Hvt. discriminate. }
  split; [exact Hnum|].
  split; [simpl; congruence|]. split; [simpl; congruence|].
  split; [simpl; congruence|]. split; [exact Hnd|]. split; [exact Hmnd|].
  intros i e Hi. destruct (Hall i e Hi) as [Hn Hm]. split.
  - destruct Hn as (ix & na & nb & nc & nd & Hix & P0 & P1 & P2 & P3
                    & La & Lb & Lc & Ld & Ta & Tb & Tc & Td).
    exists na, nb, nc, nd.
    repeat (split; [solve [eapply list_elem_of_lookup_2; eassumption | assumption]|]).
    unfold element_nodes. simpl. rewrite I3, I2, N3, N2, Hnodes.
    rewrite (at_lookup _ i _ ix Hix).
    f_equal; apply at_lookup_Z; try assumption;
      rewrite list_lookup_fmap; [rewrite La | rewrite Lb | rewrite Lc | rewrite Ld];
      reflexivity.
  - destruct Hm as (j & m & Hmi & Hj & Htag).
    exists m, (Z.of_nat j).
    split; [eapply list_elem_of_lookup_2; eassumption|]. split; [exact Htag|].
    split.
    + unfold medium. simpl. rewrite MI3, MI2.
      apply lookup_lt_Some in Hmi as Hlt.
      replace ((Z.of_nat i <? 0)%Z) with false by (symmetry; apply Z.ltb_ge; lia).
      replace (Z.of_nat (List.length (_medium_indices M1)) <=? Z.of_nat i)%Z with false
        by (symmetry; apply Z.leb_gt; lia).
      simpl. f_equal. apply at_lookup, Hmi.
    + simpl. rewrite MN3, MN2, Hnames. apply at_lookup.
      rewrite list_lookup_fmap, Hj. reflexivity.
Qed.

Lemma umap_insert_size_fresh (m : gmap Z Z) (k v : Z) :
  m !! k = None -> size (fst (umap_insert m k v)) = S (size m).
Proof.
  intros Hk. unfold umap_insert. rewrite Hk. simpl.
  apply map_size_insert_None, Hk.
Qed.

Lemma build_node_map_size_NoDup (nodes : list (MeshNode F)) :
  forall (i : Z) (m : gmap Z Z) (c : list Vec),
    NoDup (node_tag <$> nodes) ->
    (forall n, n ∈ nodes -> m !! node_tag n = None) ->
    size (fst (build_node_map nodes i m c)) = (size m + List.length nodes)%nat.
Proof.
  induction nodes as [|n rest IH]; intros i m c Hnd Hfresh; simpl; [lia|].
  simpl in Hnd. apply NoDup_cons in Hnd as [Hnin Hnd].
  rewrite IH.
  - rewrite umap_insert_size_fresh by (apply Hfresh; left). lia.
  - exact Hnd.
  - intros n' Hin. unfold umap_insert.
    rewrite (Hfresh n) by left. simpl.
    rewrite lookup_insert_ne.
    + apply Hfresh. right. exact Hin.
    + intros Heq. apply Hnin. rewrite Heq. apply list_elem_of_fmap. eauto.
Qed.

(** With counts below the limit and distinct node tags, [initializeElements]
    gets as far as resolving the elements against the map of the node tags. *)
Lemma initializeElements_nodes_pass (hbt : F) (elements : list Tetrahedron)
    (nodes : list (MeshNode F)) (materials : list Medium) :
  (Z.of_nat (List.length elements) < INT_MAX)%Z ->
  (Z.of_nat (List.length nodes) < INT_MAX)%Z ->
  NoDup (node_tag <$> nodes) ->
  exists node_map coords,
    (forall k, node_map !! k = None <-> k ∉ node_tag <$> nodes) /\
    initializeElements hbt elements nodes materials =
    (try! elts <- resolve_elements node_map elements;
     try! media <- build_medium_offsets materials 0%Z ∅ [];
     try! medium_indices <- resolve_media (fst media) elements;
     Ok (mkMesh (fst elts) (snd elts) coords (snd media) medium_indices
                [] [] [] empty_octree empty_octree hbt)).
Proof.
  intros Hel Hno Hnd. unfold initializeElements. cbv zeta.
  replace (Z.of_nat (List.length elements) >=? INT_MAX)%Z with false
    by (symmetry; rewrite Z.geb_leb; apply Z.leb_gt; lia).
  replace (Z.of_nat (List.length nodes) >=? INT_MAX)%Z with false
    by (symmetry; rewrite Z.geb_leb; apply Z.leb_gt; lia).
  pose proof (build_node_map_size_NoDup nodes 0%Z ∅ [] Hnd) as Hsz.
  destruct (build_node_map nodes 0%Z ∅ []) as [node_map coords] eqn:Hb.
  simpl in Hsz. rewrite map_size_empty in Hsz.
  specialize (Hsz ltac:(intros; apply lookup_empty)). simpl in Hsz.
  rewrite Hsz, Nat.eqb_refl. simpl.
  exists node_map, coords. split; [|reflexivity].
  destruct (build_node_map_passed nodes node_map coords Hb Hsz) as (_ & _ & Hlk & Hnone).
  intros k. split; [apply Hnone|].
  intros Hk. destruct (node_map !! k) as [v|] eqn:Hv; [|reflexivity].
  exfalso. apply Hk. destruct (Hlk k v Hv) as (n & Hn & Htag & _).
  apply list_elem_of_fmap. exists n. split; [auto|].
  eapply list_elem_of_lookup_2; eassumption.
Qed.

(** An element record that names a node tag no node record has: the
    constructor throws "No mesh node with tag: t" for such a tag [t] (the
    first one the element loop meets). *)
Theorem construction_rejects_unknown_node_tag (fuel : nat) (hbt : F)
    (elements : list Tetrahedron) (nodes : list (MeshNode F))
    (materials : list Medium) (e : Tetrahedron) (t : Z) :
  (Z.of_nat (List.length elements) < INT_MAX)%Z ->
  (Z.of_nat (List.length nodes) < INT_MAX)%Z ->
  NoDup (node_tag <$> nodes) ->
  e ∈ elements -> t ∈ tet_node_tags e -> t ∉ node_tag <$> nodes ->
  exists e' t',
    EGS_Mesh_ctor fuel hbt elements nodes materials = Throw (NoMeshNode t') /\
    e' ∈ elements /\ t' ∈ tet_node_tags e' /\ t' ∉ node_tag <$> nodes.
Proof.
  intros Hel Hno Hnd He Ht Hmiss.
  destruct (initializeElements_nodes_pass hbt elements nodes materials Hel Hno Hnd)
    as (node_map & coords & Hdom & Hinit).
  unfold EGS_Mesh_ctor. rewrite Hinit.
  destruct (resolve_elements node_map elements) as [[tags ixs]|err] eqn:Hr.
  - exfalso. destruct (resolve_elements_Ok _ _ _ _ Hr) as (_ & _ & Hall).
    apply list_elem_of_lookup_1 in He as [i Hi].
    destruct (Hall i e Hi) as (ix & _ & Ha & Hb & Hc & Hd).
    assert (is_Some (node_map !! t)) as [v Hv].
    { unfold tet_node_tags in Ht.
      repeat (apply elem_of_cons in Ht as [-> | Ht]; [eauto|]).
      apply elem_of_nil in Ht. contradiction. }
    apply Hdom in Hmiss. congruence.
  - apply resolve_elements_Throw in Hr as (e' & t' & Hin & Ht' & Hm & ->).
    exists e', t'. simpl. split; [reflexivity|]. split; [exact Hin|].
    split; [exact Ht'|]. apply Hdom, Hm.
Qed.

(** Two medium records with the same tag: once the nodes and the elements'
    node references have passed, the constructor throws "duplicate medium
    tag: t" for the tag of the first record that repeats an earlier one. *)
Theorem construction_rejects_duplicate_medium_tag (fuel : nat) (hbt : F)
    (elements : list Tetrahedron) (nodes : list (MeshNode F))
    (materials : list Medium) :
  (Z.of_nat (List.length elements) < INT_MAX)%Z ->
  (Z.of_nat (List.length nodes) < INT_MAX)%Z ->
  NoDup (node_tag <$> nodes) ->
  (forall e t, e ∈ elements -> t ∈ tet_node_tags e -> t ∈ node_tag <$> nodes) ->
  ~ NoDup (med_tag <$> materials) ->
  exists (j j' : nat) (m m' : Medium),
    EGS_Mesh_ctor fuel hbt elements nodes materials
    = Throw (DuplicateMediumTag (med_tag m)) /\
    (j' < j)%nat /\ materials !! j = Some m /\ materials !! j' = Some m' /\
    med_tag m' = med_tag m.
Proof.
  intros Hel Hno Hnd Hrefs Hdup.
  destruct (initializeElements_nodes_pass hbt elements nodes materials Hel Hno Hnd)
    as (node_map & coords & Hdom & Hinit).
  unfold EGS_Mesh_ctor. rewrite Hinit.
  destruct (resolve_elements_total node_map elements) as [r ->].
  { intros e t He Ht. specialize (Hrefs e t He Ht).
    destruct (node_map !! t) eqn:Hv; [eauto|].
    apply Hdom in Hv. contradiction. }
  simpl.
  destruct (build_medium_offsets materials 0%Z ∅ []) as [[offsets names]|err] eqn:Hm.
  - exfalso. apply Hdup.
    apply (build_medium_offsets_Ok materials 0%Z ∅ [] offsets names Hm).
  - apply build_medium_offsets_Throw in Hm as (j & m & Hj & -> & Hsrc).
    destruct Hsrc as [[v Hv] | (j' & m' & Hlt & Hj' & Htag)].
    + rewrite lookup_empty in Hv. discriminate.
    + exists j, j', m, m'. simpl. auto.
Qed.

(** An element record whose medium tag no medium record has: once the nodes,
    the node references and the media have passed, the constructor fails in
    [medium_offsets.at], with the [std::out_of_range] of the standard
    library, which does not name the tag. *)
Theorem construction_rejects_unknown_medium_tag (fuel : nat) (hbt : F)
    (elements : list Tetrahedron) (nodes : list (MeshNode F))
    (materials : list Medium) (e : Tetrahedron) :
  (Z.of_nat (List.length elements) < INT_MAX)%Z ->
  (Z.of_nat (List.length nodes) < INT_MAX)%Z ->
  NoDup (node_tag <$> nodes) ->
  (forall e t, e ∈ elements -> t ∈ tet_node_tags e -> t ∈ node_tag <$> nodes) ->
  NoDup (med_tag <$> materials) ->
  e ∈ elements -> medium_tag e ∉ med_tag <$> materials ->
  EGS_Mesh_ctor fuel hbt elements nodes materials = Throw MapAtOutOfRange.
Proof.
  intros Hel Hno Hnd Hrefs Hmnd He Hmiss.
  destruct (initializeElements_nodes_pass hbt elements nodes materials Hel Hno Hnd)
    as (node_map & coords & Hdom & Hinit).
  unfold EGS_Mesh_ctor. rewrite Hinit.
  destruct (resolve_elements_total node_map elements) as [r ->].
  { intros e0 t He0 Ht. specialize (Hrefs e0 t He0 Ht).
    destruct (node_map !! t) eqn:Hv; [eauto|].
    apply Hdom in Hv. contradiction. }
  simpl.
  destruct (build_medium_offsets materials 0%Z ∅ []) as [[offsets names]|err] eqn:Hm.
  - destruct (build_medium_offsets_Ok materials 0%Z ∅ [] offsets names Hm)
      as (_ & _ & _ & Hlk & _ & Hhas).
    simpl.
    destruct (resolve_media offsets elements) as [mi|err] eqn:Hmi.
    + exfalso. destruct (resolve_media_Ok _ _ _ Hmi) as [_ Hall].
      apply list_elem_of_lookup_1 in He as [i Hi].
      destruct (Hall i e Hi) as (off & _ & Ho).
      destruct (Hlk _ _ Ho) as [Hemp | (j & m & Hj & Htag & _)].
      * rewrite lookup_empty in Hemp. discriminate.
      * apply Hmiss. apply list_elem_of_fmap. exists m. split; [auto|].
        eapply list_elem_of_lookup_2; eassumption.
    + apply resolve_media_Throw in Hmi as (-> & _). reflexivity.
  - exfalso. apply build_medium_offsets_Throw in Hm as (j & m & Hj & _ & Hsrc).
    destruct Hsrc as [[v Hv] | (j' & m' & Hlt & Hj' & Htag)].
    + rewrite lookup_empty in Hv. discriminate.
    + assert (j' = j); [|lia].
      apply (proj1 (NoDup_alt (med_tag <$> materials)) Hmnd j' j (med_tag m)).
      * rewrite list_lookup_fmap, Hj'. simpl. congruence.
      * rewrite list_lookup_fmap, Hj. reflexivity.
Qed.

End ConstructionRoundTrip.

(** ** The octree of a constructed mesh *)

Section OctreeInvariants.
Context {F : Type} {SF : Scalar F} {LF : Limits F}.
Local Abbreviation Vec := (EGS_Vector F).

Lemma Node_isWhere_leaf_for (n : Node F) (p : Vec) (M : EGS_Mesh F) :
  Node_isWhere n p M = isWhere_leaf M (node_elts (leaf_for n p)) p.
Proof.
  induction n as [elts bb | bb c0 IH0 c1 IH1 c2 IH2 c3 IH3 c4 IH4 c5 IH5 c6 IH6 c7 IH7];
    [reflexivity|].
  cbn [Node_isWhere leaf_for].
  destruct (findOctant _ p) as [|[|[|[|[|[|[|o]]]]]]]; assumption.
Qed.

Lemma Node_hownear_exterior_leaf_for (n : Node F) (p : Vec) (M : EGS_Mesh F) :
  Node_hownear_exterior n p M = hownear_leaf_search (leaf_for n p) p M.
Proof.
  induction n as [elts bb | bb c0 IH0 c1 IH1 c2 IH2 c3 IH3 c4 IH4 c5 IH5 c6 IH6 c7 IH7];
    [reflexivity|].
  cbn [Node_hownear_exterior leaf_for].
  destruct (findOctant _ p) as [|[|[|[|[|[|[|o]]]]]]]; assumption.
Qed.

Lemma isWhere_leaf_cases (M : EGS_Mesh F) (elts : list Z) (p : Vec) :
  isWhere_leaf M elts p = (-1)%Z \/ In (isWhere_leaf M elts p) elts.
Proof.
  induction elts as [|e rest IH]; simpl; [auto|].
  destruct (insideElement M e p); [auto|]. destruct IH; auto.
Qed.

Lemma Node_ctor_bbox (fuel : nat) (elts : list Z) (bbox : BoundingBox F)
    (n_max : Z) (mesh : EGS_Mesh F) (n : Node F) :
  Node_ctor fuel elts bbox n_max mesh = Ok n -> bbox_ n = bbox.
Proof.
  destruct fuel; simpl.
  - destruct (_ || _); [|discriminate]. intros H; injection H as <-. reflexivity.
  - destruct (_ || _); [intros H; injection H as <-; reflexivity|].
    repeat match goal with
    | |- context [rbind ?r _] => destruct r; simpl; [|discriminate]
    end.
    intros H; injection H as <-. reflexivity.
Qed.

(** The children of a parent the constructor builds: child [i] is built from
    the elements whose tetrahedron [intersects_tetrahedron] accepts for the
    [i]-th box of [divide8]. *)
Lemma Node_ctor_unfold (fuel : nat) (elts : list Z) (bbox : BoundingBox F)
    (n_max : Z) (mesh : EGS_Mesh F) (n : Node F) :
  Node_ctor fuel elts bbox n_max mesh = Ok n ->
  n = Leaf elts bbox \/
  exists fuel' c0 c1 c2 c3 c4 c5 c6 c7,
    fuel = S fuel' /\ n = Parent bbox c0 c1 c2 c3 c4 c5 c6 c7 /\
    forall i, (i < 8)%nat ->
      Node_ctor fuel'
        (List.filter (fun e => intersects_tetrahedron (nth i (divide8 bbox) bbox)
                                 (element_nodes mesh e)) elts)
        (nth i (divide8 bbox) bbox) n_max mesh
      = Ok (child (Parent bbox c0 c1 c2 c3 c4 c5 c6 c7) i).
Proof.
  destruct fuel as [|fuel']; simpl.
  - destruct (_ || _); [|discriminate]. intros H; injection H as <-. auto.
  - destruct (_ || _); [intros H; injection H as <-; auto|].
    destruct (Node_ctor fuel' _ _ n_max mesh) as [c0|] eqn:H0; simpl; [|discriminate].
    destruct (Node_ctor fuel' _ _ n_max mesh) as [c1|] eqn:H1 in |- *; simpl; [|discriminate].
    destruct (Node_ctor fuel' _ _ n_max mesh) as [c2|] eqn:H2 in |- *; simpl; [|discriminate].
    destruct (Node_ctor fuel' _ _ n_max mesh) as [c3|] eqn:H3 in |- *; simpl; [|discriminate].
    destruct (Node_ctor fuel' _ _ n_max mesh) as [c4|] eqn:H4 in |- *; simpl; [|discriminate].
    destruct (Node_ctor fuel' _ _ n_max mesh) as [c5|] eqn:H5 in |- *; simpl; [|discriminate].
    destruct (Node_ctor fuel' _ _ n_max mesh) as [c6|] eqn:H6 in |- *; simpl; [|discriminate].
    destruct (Node_ctor fuel' _ _ n_max mesh) as [c7|] eqn:H7 in |- *; simpl; [|discriminate].
    intros H; injection H as <-. right.
    exists fuel', c0, c1, c2, c3, c4, c5, c6, c7.
    split; [reflexivity|]. split; [reflexivity|].
    intros i Hi. destruct i as [|[|[|[|[|[|[|[|i]]]]]]]]; try lia; simpl; assumption.
Qed.

Lemma leaf_for_child (bb : BoundingBox F) (c0 c1 c2 c3 c4 c5 c6 c7 : Node F) (p : Vec) :
  leaf_for (Parent bb c0 c1 c2 c3 c4 c5 c6 c7) p =
  leaf_for (child (Parent bb c0 c1 c2 c3 c4 c5 c6 c7)
                  (findOctant (Parent bb c0 c1 c2 c3 c4 c5 c6 c7) p)) p.
Proof.
  cbn [leaf_for child].
  destruct (findOctant _ p) as [|[|[|[|[|[|[|o]]]]]]]; reflexivity.
Qed.

Lemma findOctant_lt (n : Node F) (p : Vec) : (findOctant n p < 8)%nat.
Proof.
  unfold findOctant. cbv zeta.
  destruct (fleb _ (vx p)), (fleb _ (vy p)), (fleb _ (vz p)); simpl; lia.
Qed.

(** Every element a leaf of a constructed node lists is one of the elements
    the node was constructed from. *)
Lemma Node_ctor_leaf_elts (fuel : nat) :
  forall (elts : list Z) (bbox : BoundingBox F) (n_max : Z) (mesh : EGS_Mesh F)
    (n : Node F) (p : Vec) (e : Z),
    Node_ctor fuel elts bbox n_max mesh = Ok n ->
    In e (node_elts (leaf_for n p)) -> In e elts.
Proof.
  induction fuel as [|fuel IH]; intros elts bbox n_max mesh n p e Hc He.
  - apply Node_ctor_unfold in Hc as [-> | (f' & c0 & c1 & c2 & c3 & c4 & c5 & c6 & c7 & Hf & _)].
    + exact He.
    + discriminate.
  - apply Node_ctor_unfold in Hc as [-> | (f' & c0 & c1 & c2 & c3 & c4 & c5 & c6 & c7 & Hf & -> & Hch)].
    + exact He.
    + injection Hf as <-. rewrite leaf_for_child in He.
      specialize (Hch _ (findOctant_lt (Parent bbox c0 c1 c2 c3 c4 c5 c6 c7) p)).
      specialize (IH _ _ _ _ _ p e Hch He).
      apply filter_In in IH. tauto.
Qed.

Lemma element_range_In (M : EGS_Mesh F) (e : Z) :
  In e (element_range M) <-> (0 <= e < num_elements M)%Z.
Proof.
  unfold element_range, num_elements. rewrite in_map_iff. split.
  - intros (k & <- & Hk). apply in_seq in Hk. lia.
  - intros He. exists (Z.to_nat e). split; [lia|]. apply in_seq. lia.
Qed.

Lemma Octree_ctor_root (fuel : nat) (elts : list Z) (n_max : Z) (mesh : EGS_Mesh F)
    (t : EGS_Mesh_Octree F) :
  Octree_ctor fuel elts n_max mesh = Ok t ->
  elts <> [] /\
  Node_ctor fuel elts
    (expand (fold_left (grow_bounds mesh) elts
               (mkBox numeric_infinity (fopp numeric_infinity)
                      numeric_infinity (fopp numeric_infinity)
                      numeric_infinity (fopp numeric_infinity))) eps)
    n_max mesh = Ok (root_ t).
Proof.
  unfold Octree_ctor. destruct elts as [|e rest]; [discriminate|].
  destruct (INT_MAX <? _)%Z; [discriminate|]. cbv zeta.
  destruct (Node_ctor fuel _ _ n_max mesh) as [r|] eqn:Hr; [|discriminate].
  simpl. intros H; injection H as <-. split; [discriminate | reflexivity].
Qed.

(** [isWhere] on a constructed mesh returns -1 or the number of an element
    of the mesh. *)
Theorem isWhere_returns_element_or_none (fuel : nat) (hbt : F)
    (elements : list Tetrahedron) (nodes : list (MeshNode F))
    (materials : list Medium) (M : EGS_Mesh F) (p : Vec) :
  EGS_Mesh_ctor fuel hbt elements nodes materials = Ok M ->
  isWhere M p = (-1)%Z \/ (0 <= isWhere M p < num_elements M)%Z.
Proof.
  intros Hctor.
  destruct (EGS_Mesh_ctor_stages _ _ _ _ _ _ Hctor) as (M1 & M2 & M3 & H1 & H2 & H3 & ->).
  destruct (initializeOctrees_store _ _ _ H3) as (T3 & _ & _ & _ & _ & _ & _ & Hvt & _).
  unfold isWhere, Octree_isWhere. cbn [_volume_tree initializeNormals].
  destruct (negb _); [auto|].
  rewrite Node_isWhere_leaf_for.
  destruct (isWhere_leaf_cases (initializeNormals M3)
              (node_elts (leaf_for (root_ (_volume_tree M3)) p)) p) as [Hn | Hin];
    [auto|].
  right. apply Octree_ctor_root in Hvt as [_ Hroot].
  apply (Node_ctor_leaf_elts _ _ _ _ _ _ p _ Hroot) in Hin.
  apply element_range_In in Hin.
  unfold num_elements in *. cbn [_elt_tags initializeNormals]. rewrite T3. exact Hin.
Qed.

Lemma isWhere_leaf_find (M : EGS_Mesh F) (elts : list Z) (p : Vec) :
  isWhere_leaf M elts p =
  match List.find (fun e => insideElement M e p) elts with
  | Some e => e
  | None => (-1)%Z
  end.
Proof.
  induction elts as [|e rest IH]; simpl; [reflexivity|].
  destruct (insideElement M e p); [reflexivity | exact IH].
Qed.

Lemma element_range_normals (M : EGS_Mesh F) :
  element_range (initializeNormals M) = element_range M.
Proof. reflexivity. Qed.

(** The scan of [isWhere] on a mesh whose volume tree is one leaf. *)
Lemma isWhere_small_mesh_scan (fuel : nat) (hbt : F)
    (elements : list Tetrahedron) (nodes : list (MeshNode F))
    (materials : list Medium) (M : EGS_Mesh F) (p : Vec) :
  EGS_Mesh_ctor fuel hbt elements nodes materials = Ok M ->
  (num_elements M < 200)%Z ->
  isWhere M p =
  if contains (bbox_ (root_ (_volume_tree M))) p then
    match first_containing_element M p with
    | Some e => e
    | None => (-1)%Z
    end
  else (-1)%Z.
Proof.
  intros Hctor Hsmall.
  destruct (EGS_Mesh_ctor_stages _ _ _ _ _ _ Hctor) as (M1 & M2 & M3 & H1 & H2 & H3 & ->).
  destruct (initializeOctrees_store _ _ _ H3) as (T3 & _ & _ & _ & _ & _ & _ & Hvt & _).
  unfold isWhere, Octree_isWhere, first_containing_element.
  cbn [_volume_tree initializeNormals].
  destruct (contains _ p); [|reflexivity]. cbn [negb].
  assert (element_range M3 = element_range M2) as Hrange
    by (unfold element_range; rewrite T3; reflexivity).
  rewrite element_range_normals, Hrange.
  unfold num_elements in Hsmall. cbn [_elt_tags initializeNormals] in Hsmall.
  rewrite T3 in Hsmall.
  destruct (element_range M2) as [|e rest] eqn:Hr; [discriminate Hvt|].
  rewrite Octree_ctor_small in Hvt.
  - injection Hvt as Hvt. rewrite <- Hvt. cbn [root_ Node_isWhere].
    apply isWhere_leaf_find.
  - rewrite <- Hr. unfold element_range. rewrite length_map, length_seq. exact Hsmall.
  - rewrite <- Hr. unfold element_range. rewrite length_map, length_seq.
    unfold INT_MAX. lia.
Qed.

(** A constructed mesh of fewer than 200 elements has a volume tree of one
    leaf, so [isWhere] is a scan of all elements in index order: inside the
    root box it returns the first element the point-in-tetrahedron test
    accepts, and -1 when there is none. *)
Theorem isWhere_small_mesh_scans_all (fuel : nat) (hbt : F)
    (elements : list Tetrahedron) (nodes : list (MeshNode F))
    (materials : list Medium) (M : EGS_Mesh F) (p : Vec) :
  EGS_Mesh_ctor fuel hbt elements nodes materials = Ok M ->
  (num_elements M < 200)%Z ->
  isWhere M p =
  if contains (bbox_ (root_ (_volume_tree M))) p then
    match first_containing_element M p with
    | Some e => e
    | None => (-1)%Z
    end
  else (-1)%Z.
Proof. apply isWhere_small_mesh_scan. Qed.

End OctreeInvariants.


(** ** Rays from outside the mesh *)

Section ExteriorFacts.
Context {F : Type} {SF : Scalar F} {LF : Limits F}.
Local Open Scope egs_scope.
Local Abbreviation Vec := (EGS_Vector F).

(** The exterior ray test reads [dist] only to hand it back on a miss. *)
Lemma exterior_hit_any_dist (p v a b c : Vec) (d1 d2 r : F) :
  exterior_triangle_ray_intersection p v a b c d1 = (true, r) ->
  exterior_triangle_ray_intersection p v a b c d2 = (true, r).
Proof.
  unfold exterior_triangle_ray_intersection. cbv zeta.
  repeat match goal with
  | |- context [if ?c then _ else _] => destruct c; try discriminate
  end; auto.
Qed.

Lemma exterior_miss_any_dist (p v a b c : Vec) (d1 d2 : F) :
  fst (exterior_triangle_ray_intersection p v a b c d1) = false ->
  fst (exterior_triangle_ray_intersection p v a b c d2) = false.
Proof.
  unfold exterior_triangle_ray_intersection. cbv zeta.
  repeat match goal with
  | |- context [if ?c then _ else _] => destruct c; try discriminate
  end; auto.
Qed.

(** One call of the lambda, on the two components of its state that
    [closest_boundary_face] returns. *)
Lemma check_face_intersection_pick (M : EGS_Mesh F) (ireg : Z) (x u : Vec)
    (min_dist dist0 : F) (cf : Z) (f : nat) :
  let n := element_nodes M ireg in
  let st' := check_face_intersection M ireg x u (min_dist, dist0, cf) f
               (fst (fst (face_nodes n f))) (snd (fst (face_nodes n f)))
               (snd (face_nodes n f)) (opposite_node n f) in
  (fst (fst st'), snd st') = pick_face M ireg x u (min_dist, cf) f.
Proof.
  cbv zeta. unfold check_face_intersection, pick_face, boundary_face_hit.
  destruct (face_nodes (element_nodes M ireg) f) as [[A B] C]. cbn [fst snd].
  destruct (at_ (_boundary_faces M) _ false); [|reflexivity]. cbn [andb].
  destruct (point_outside_of_plane x A B C _); [|reflexivity]. cbn [andb].
  destruct (fltb f0 (dot (face_normal M ireg f) u)); [|reflexivity].
  destruct (exterior_triangle_ray_intersection x u A B C dist0) as [hit d] eqn:E.
  destruct hit.
  - rewrite (exterior_hit_any_dist _ _ _ _ _ _ f0 _ E).
    destruct (fltb d min_dist); reflexivity.
  - pose proof (exterior_miss_any_dist x u A B C dist0 f0) as Hm.
    rewrite E in Hm. specialize (Hm eq_refl).
    destruct (exterior_triangle_ray_intersection x u A B C f0) as [hit' d'].
    simpl in Hm. subst hit'. reflexivity.
Qed.

(** [closest_boundary_face] makes its choice among the four faces in the
    order 0, 1, 2, 3. *)
Lemma closest_boundary_face_fold (M : EGS_Mesh F) (ireg : Z) (x u : Vec) :
  let st := fold_left (pick_face M ireg x u) [0%nat; 1%nat; 2%nat; 3%nat]
              (numeric_max, (-1)%Z) in
  closest_boundary_face M ireg x u = mkIntersection (fst st) (snd st).
Proof.
  cbv zeta. unfold closest_boundary_face. cbv zeta. cbn [fold_left].
  set (n := element_nodes M ireg).
  pose proof (fun md d cf => check_face_intersection_pick M ireg x u md d cf 0) as P0.
  pose proof (fun md d cf => check_face_intersection_pick M ireg x u md d cf 1) as P1.
  pose proof (fun md d cf => check_face_intersection_pick M ireg x u md d cf 2) as P2.
  pose proof (fun md d cf => check_face_intersection_pick M ireg x u md d cf 3) as P3.
  cbv zeta in P0, P1, P2, P3. fold n in P0, P1, P2, P3.
  cbn [face_nodes opposite_node fst snd] in P0, P1, P2, P3.
  destruct (check_face_intersection M ireg x u (numeric_max, numeric_max, (-1)%Z) 0
              (nB n) (nC n) (nD n) (nA n)) as [[m0 d0] c0] eqn:E0.
  specialize (P0 numeric_max numeric_max (-1)%Z). rewrite E0 in P0. cbn [fst snd] in P0.
  destruct (check_face_intersection M ireg x u (m0, d0, c0) 1
              (nA n) (nC n) (nD n) (nB n)) as [[m1 d1] c1] eqn:E1.
  specialize (P1 m0 d0 c0). rewrite E1 in P1. cbn [fst snd] in P1.
  destruct (check_face_intersection M ireg x u (m1, d1, c1) 2
              (nA n) (nB n) (nD n) (nC n)) as [[m2 d2] c2] eqn:E2.
  specialize (P2 m1 d1 c1). rewrite E2 in P2. cbn [fst snd] in P2.
  destruct (check_face_intersection M ireg x u (m2, d2, c2) 3
              (nA n) (nB n) (nC n) (nD n)) as [[m3 d3] c3] eqn:E3.
  specialize (P3 m2 d2 c2). rewrite E3 in P3. cbn [fst snd] in P3.
  rewrite <- P0, <- P1, <- P2, <- P3. reflexivity.
Qed.

Lemma all_leaf_elts_child (bb : BoundingBox F) (c0 c1 c2 c3 c4 c5 c6 c7 : Node F)
    (o : nat) (e : Z) :
  In e (all_leaf_elts (child (Parent bb c0 c1 c2 c3 c4 c5 c6 c7) o)) ->
  In e (all_leaf_elts (Parent bb c0 c1 c2 c3 c4 c5 c6 c7)).
Proof.
  cbn [all_leaf_elts child]. rewrite !in_app_iff.
  destruct o as [|[|[|[|[|[|[|o]]]]]]]; tauto.
Qed.

Lemma all_leaf_elts_parent (bb : BoundingBox F) (c0 c1 c2 c3 c4 c5 c6 c7 : Node F)
    (e : Z) :
  In e (all_leaf_elts (Parent bb c0 c1 c2 c3 c4 c5 c6 c7)) ->
  exists o, (o < 8)%nat /\
    In e (all_leaf_elts (child (Parent bb c0 c1 c2 c3 c4 c5 c6 c7) o)).
Proof.
  cbn [all_leaf_elts]. rewrite !in_app_iff.
  intros [H | [H | [H | [H | [H | [H | [H | H]]]]]]];
    [exists 0%nat | exists 1%nat | exists 2%nat | exists 3%nat
     | exists 4%nat | exists 5%nat | exists 6%nat | exists 7%nat];
    (split; [lia | exact H]).
Qed.

(** Every element a leaf below a constructed node lists is one of the
    elements the node was constructed from. *)
Lemma Node_ctor_all_leaf_elts (fuel : nat) :
  forall (elts : list Z) (bbox : BoundingBox F) (n_max : Z) (mesh : EGS_Mesh F)
    (n : Node F) (e : Z),
    Node_ctor fuel elts bbox n_max mesh = Ok n ->
    In e (all_leaf_elts n) -> In e elts.
Proof.
  induction fuel as [|fuel IH]; intros elts bbox n_max mesh n e Hc He.
  - apply Node_ctor_unfold in Hc
      as [-> | (f' & c0 & c1 & c2 & c3 & c4 & c5 & c6 & c7 & Hf & _)];
      [exact He | discriminate].
  - apply Node_ctor_unfold in Hc
      as [-> | (f' & c0 & c1 & c2 & c3 & c4 & c5 & c6 & c7 & Hf & -> & Hch)];
      [exact He|].
    injection Hf as <-.
    apply all_leaf_elts_parent in He as (o & Ho & He).
    specialize (IH _ _ _ _ _ e (Hch o Ho) He).
    apply filter_In in IH. tauto.
Qed.

(** The face index [closest_boundary_face] returns is -1 or one of 0..3. *)
Lemma closest_boundary_face_index (M : EGS_Mesh F) (ireg : Z) (x u : Vec) :
  In (face_index (closest_boundary_face M ireg x u)) [-1; 0; 1; 2; 3]%Z.
Proof.
  rewrite closest_boundary_face_fold. cbn [fold_left face_index].
  unfold pick_face.
  repeat match goal with
  | |- context [match boundary_face_hit ?a ?b ?c ?d ?e with _ => _ end] =>
    destruct (boundary_face_hit a b c d e)
  | |- context [if ?c then _ else _] => destruct c
  end; cbn; tauto.
Qed.

(** An invariant of the leaf loop holds of its result. *)
Lemma howfar_exterior_leaf_inv (M : EGS_Mesh F) (p v : Vec) (P : Z * F -> Prop)
    (elts : list Z) :
  (forall st e, P st -> In e elts -> is_boundary M e = true ->
     (dist (closest_boundary_face M e p v) <? snd st) = true ->
     P (e, dist (closest_boundary_face M e p v))) ->
  P ((-1)%Z, numeric_max) -> P (howfar_exterior_leaf M elts p v).
Proof.
  unfold howfar_exterior_leaf.
  generalize ((-1)%Z, numeric_max : F). intros init Hstep.
  revert init. induction elts as [|e elts IH]; intros init Hinit; [exact Hinit|].
  cbn [fold_left]. apply IH.
  - intros st e' Hst Hin. apply Hstep; [exact Hst | right; exact Hin].
  - destruct (is_boundary M e) eqn:Hb; cbn [negb]; [|exact Hinit].
    destruct (fltb _ (snd init)) eqn:Hlt; [|exact Hinit].
    apply (Hstep init e Hinit (or_introl eq_refl) Hb Hlt).
Qed.

Lemma search_octants_inv (sub : nat -> F -> Z * F) (Q : Z -> F -> Prop) :
  (forall o t elt t', sub o t = (elt, t') -> elt <> (-1)%Z -> Q elt t') ->
  forall l t elt t', search_octants sub l t = (elt, t') -> elt <> (-1)%Z -> Q elt t'.
Proof.
  intros Hsub l. induction l as [|o l IH]; intros t elt t' H Hne.
  - injection H as <- <-. congruence.
  - cbn [search_octants] in H. destruct (sub o t) as [e1 t1] eqn:E1.
    destruct (e1 =? -1)%Z eqn:Eq; cbn [negb] in H.
    + exact (IH _ _ _ H Hne).
    + injection H as <- <-. exact (Hsub _ _ _ _ E1 Hne).
Qed.

(** An element [Node::howfar_exterior] returns was returned by the leaf loop
    of one of the leaves below the node, with the distance left in [t]. *)
Lemma Node_howfar_exterior_leaf (n : Node F) (p v : Vec) (max_dist : F)
    (M : EGS_Mesh F) :
  forall t elt t',
    Node_howfar_exterior n p v max_dist M t = (elt, t') -> elt <> (-1)%Z ->
    exists elts, (forall e, In e elts -> In e (all_leaf_elts n)) /\
      howfar_exterior_leaf M elts p v = (elt, t').
Proof.
  induction n as [elts bb | bb c0 IH0 c1 IH1 c2 IH2 c3 IH3 c4 IH4 c5 IH5 c6 IH6 c7 IH7];
    intros t elt t' H Hne.
  - exists elts. split; [auto | exact H].
  - cbn [Node_howfar_exterior] in H.
    destruct (ray_intersection bb p v) as [[d i]|]; [|injection H as <- <-; congruence].
    set (sub := fun o : nat => match o with
        | 0%nat => Node_howfar_exterior c0 p v max_dist M
        | 1%nat => Node_howfar_exterior c1 p v max_dist M
        | 2%nat => Node_howfar_exterior c2 p v max_dist M
        | 3%nat => Node_howfar_exterior c3 p v max_dist M
        | 4%nat => Node_howfar_exterior c4 p v max_dist M
        | 5%nat => Node_howfar_exterior c5 p v max_dist M
        | 6%nat => Node_howfar_exterior c6 p v max_dist M
        | _ => Node_howfar_exterior c7 p v max_dist M
        end) in H.
    assert (forall o t elt t', sub o t = (elt, t') -> elt <> (-1)%Z ->
              exists elts,
                (forall e, In e elts ->
                   In e (all_leaf_elts (Parent bb c0 c1 c2 c3 c4 c5 c6 c7))) /\
                howfar_exterior_leaf M elts p v = (elt, t')) as Hsub.
    { intros o s e s' Hs He. cbn [all_leaf_elts].
      destruct o as [|[|[|[|[|[|[|o]]]]]]]; cbn [sub] in Hs;
        [ destruct (IH0 _ _ _ Hs He) as (l & Hl & Hr)
        | destruct (IH1 _ _ _ Hs He) as (l & Hl & Hr)
        | destruct (IH2 _ _ _ Hs He) as (l & Hl & Hr)
        | destruct (IH3 _ _ _ Hs He) as (l & Hl & Hr)
        | destruct (IH4 _ _ _ Hs He) as (l & Hl & Hr)
        | destruct (IH5 _ _ _ Hs He) as (l & Hl & Hr)
        | destruct (IH6 _ _ _ Hs He) as (l & Hl & Hr)
        | destruct (IH7 _ _ _ Hs He) as (l & Hl & Hr) ];
        exists l; (split; [|exact Hr]);
        intros e' He'; specialize (Hl e' He'); rewrite !in_app_iff; tauto. }
    set (n := Parent bb c0 c1 c2 c3 c4 c5 c6 c7) in *.
    change (match findOctant n i with
            | 0%nat => Node_howfar_exterior c0 p v max_dist M
            | 1%nat => Node_howfar_exterior c1 p v max_dist M
            | 2%nat => Node_howfar_exterior c2 p v max_dist M
            | 3%nat => Node_howfar_exterior c3 p v max_dist M
            | 4%nat => Node_howfar_exterior c4 p v max_dist M
            | 5%nat => Node_howfar_exterior c5 p v max_dist M
            | 6%nat => Node_howfar_exterior c6 p v max_dist M
            | _ => Node_howfar_exterior c7 p v max_dist M
            end t) with (sub (findOctant n i) t) in H.
    destruct (sub (findOctant n i) t) as [e1 t1] eqn:E1.
    destruct (e1 =? -1)%Z eqn:Eq; cbn [negb] in H.
    + exact (search_octants_inv sub _ Hsub _ _ _ _ H Hne).
    + injection H as <- <-. exact (Hsub _ _ _ _ E1 Hne).
Qed.

Lemma Octree_howfar_exterior_leaf (tree : EGS_Mesh_Octree F) (p v : Vec)
    (max_dist : F) (M : EGS_Mesh F) (t : F) (elt : Z) (t' : F) :
  Octree_howfar_exterior tree p v max_dist M t = (elt, t') -> elt <> (-1)%Z ->
  exists elts, (forall e, In e elts -> In e (all_leaf_elts (root_ tree))) /\
    howfar_exterior_leaf M elts p v = (elt, t').
Proof.
  unfold Octree_howfar_exterior. intros H Hne.
  destruct (ray_intersection _ p v) as [[d i]|]; [|injection H as <- <-; congruence].
  destruct (fltb max_dist d); [injection H as <- <-; congruence|].
  exact (Node_howfar_exterior_leaf _ _ _ _ _ _ _ _ H Hne).
Qed.

(** The leaves of the surface tree of a constructed mesh list boundary
    elements of the mesh only. *)
Lemma surface_tree_elements (fuel : nat) (hbt : F)
    (elements : list Tetrahedron) (nodes : list (MeshNode F))
    (materials : list Medium) (M : EGS_Mesh F) (e : Z) :
  EGS_Mesh_ctor fuel hbt elements nodes materials = Ok M ->
  In e (all_leaf_elts (root_ (_surface_tree M))) ->
  (0 <= e < num_elements M)%Z /\ is_boundary M e = true /\
  is_Some (medium M e).
Proof.
  intros Hc He.
  apply EGS_Mesh_ctor_stages in Hc as (M1 & M2 & M3 & H1 & H2 & H3 & ->).
  pose proof (initializeOctrees_store _ _ _ H3)
    as (Ht & Hi & Hn & Hmn & Hmi & Hnb & Hbf & _ & Hs).
  pose proof (initializeNeighbours_store _ _ H2) as (Ht2 & Hi2 & Hn2 & Hmn2 & Hmi2).
  pose proof (initializeElements_Ok _ _ _ _ _ H1)
    as (_ & _ & _ & _ & Hl1 & _ & _ & _ & Hl2 & _).
  apply Octree_ctor_root in Hs as [_ Hs].
  change (_surface_tree (initializeNormals M3)) with (_surface_tree M3) in He.
  pose proof (Node_ctor_all_leaf_elts _ _ _ _ _ _ e Hs He) as Hin.
  apply filter_In in Hin as [Hin Hb].
  apply element_range_In in Hin.
  assert (num_elements (initializeNormals M3) = num_elements M2) as Hnum.
  { unfold num_elements. cbn. rewrite Ht. reflexivity. }
  assert (is_boundary (initializeNormals M3) e = is_boundary M2 e) as Hb3.
  { unfold is_boundary. cbn. rewrite Hbf. reflexivity. }
  rewrite Hnum, Hb3. split; [exact Hin|]. split; [exact Hb|].
  unfold medium. cbn [_medium_indices initializeNormals].
  unfold num_elements in Hin. rewrite Ht2, Hl1, length_map in Hin.
  rewrite Hmi, Hmi2, Hl2.
  destruct (e <? 0)%Z eqn:E1; [lia|]. destruct (_ <=? e)%Z eqn:E2; [lia|].
  cbn. eauto.
Qed.

(** [EGS_Mesh::howfar_exterior] on a constructed mesh: a region it returns
    is a boundary element of the mesh, its medium is in range, so that the
    access to the media never raises, and the new [t] is not above the old
    one; the other exception can only carry the face index -1. *)
Theorem howfar_exterior_returns_boundary_element (fuel : nat) (hbt : F)
    (elements : list Tetrahedron) (nodes : list (MeshNode F))
    (materials : list Medium) (M : EGS_Mesh F)
    (want_newmed want_normal : bool) (x u : Vec) (t : F) :
  EGS_Mesh_ctor fuel hbt elements nodes materials = Ok M ->
  match howfar_exterior want_newmed want_normal M x u t with
  | ExteriorMiss => True
  | ExteriorHit reg t' newmed normal =>
    (0 <= reg < num_elements M)%Z /\ is_boundary M reg = true /\
    (t' >? t) = false /\
    t' = dist (closest_boundary_face M reg x u) /\
    (if want_newmed then newmed = medium M reg /\ is_Some newmed
     else newmed = None) /\
    (if want_normal then is_Some normal else normal = None)
  | MediumOutOfRange _ => False
  | BadIntersection face => want_normal = true /\ face = (-1)%Z
  end.
Proof.
  intros Hc. unfold howfar_exterior.
  destruct (Octree_howfar_exterior _ x u t M f1e30) as [reg d] eqn:E.
  destruct (fltb t d) eqn:Ht; cbn [orb]; [exact I|].
  destruct (reg =? -1)%Z eqn:Er; [exact I|]. apply Z.eqb_neq in Er.
  destruct (Octree_howfar_exterior_leaf _ _ _ _ _ _ _ _ E Er) as (elts & Hin & Hl).
  assert (In reg elts /\ is_boundary M reg = true /\
          d = dist (closest_boundary_face M reg x u)) as (Hr & Hb & Hd).
  { pose proof (howfar_exterior_leaf_inv M x u
       (fun st => fst st <> (-1)%Z ->
          In (fst st) elts /\ is_boundary M (fst st) = true /\
          snd st = dist (closest_boundary_face M (fst st) x u)) elts) as Hinv.
    rewrite Hl in Hinv. apply Hinv; [|cbn; congruence|exact Er].
    intros st e _ He Hbe _ _. cbn. auto. }
  destruct (surface_tree_elements _ _ _ _ _ _ _ Hc (Hin _ Hr)) as (Hrange & _ & Hmed).
  assert ((if want_newmed then
             (if want_newmed then medium M reg else None) = medium M reg /\
             is_Some (if want_newmed then medium M reg else None)
           else (if want_newmed then medium M reg else None) = None)) as Hnm.
  { destruct want_newmed; auto. }
  clear Hnm.
  assert (forall (P Q : Prop), P -> Q ->
            (0 <= reg < num_elements M)%Z /\ is_boundary M reg = true /\
            (d >? t) = false /\ d = dist (closest_boundary_face M reg x u) /\
            P /\ Q) as Hfin by (intros; tauto).
  pose proof (closest_boundary_face_index M reg x u) as Hf.
  destruct want_newmed; cbn [andb].
  - destruct (medium M reg) as [m|] eqn:Em; [|destruct Hmed; discriminate]. cbn [negb].
    destruct want_normal; cbn [negb]; [|apply Hfin; auto].
    destruct (face_index _) as [|[q|q|]|[q|q|]]; cbn in Hf;
      try (exfalso; intuition congruence); try (split; reflexivity);
      try destruct q as [q|q|]; try (exfalso; intuition congruence);
      cbv zeta; apply Hfin; eauto.
  - destruct want_normal; cbn [negb]; [|apply Hfin; auto].
    destruct (face_index _) as [|[q|q|]|[q|q|]]; cbn in Hf;
      try (exfalso; intuition congruence); try (split; reflexivity);
      try destruct q as [q|q|]; try (exfalso; intuition congruence);
      cbv zeta; apply Hfin; eauto.
Qed.

End ExteriorFacts.


(** ** Instances of the statements above *)

Module Binary64Witnesses.
Import Binary64 Binary64Facts.
Local Open Scope float_scope.

Lemma constructed_mesh_resolves_tags_witness :
  (0 < num_elements unit_mesh)%Z /\
  num_elements unit_mesh = Z.of_nat (List.length [mkTetrahedron 10 7 1 2 3 4]) /\
  _elt_tags unit_mesh = List.map tet_tag [mkTetrahedron 10 7 1 2 3 4] /\
  _nodes unit_mesh = List.map node_point unit_nodes /\
  _medium_names unit_mesh = List.map medium_name [mkMedium 7 "water"] /\
  NoDup (node_tag <$> unit_nodes) /\ NoDup (med_tag <$> [mkMedium 7 "water"]) /\
  forall (i : nat) (e : Tetrahedron), [mkTetrahedron 10 7 1 2 3 4] !! i = Some e ->
    (exists na nb nc nd,
       na ∈ unit_nodes /\ nb ∈ unit_nodes /\ nc ∈ unit_nodes /\ nd ∈ unit_nodes /\
       node_tag na = tet_a e /\ node_tag nb = tet_b e /\
       node_tag nc = tet_c e /\ node_tag nd = tet_d e /\
       element_nodes unit_mesh (Z.of_nat i)
       = mkNodes (node_point na) (node_point nb) (node_point nc) (node_point nd)) /\
    (exists m off,
       m ∈ [mkMedium 7 "water"] /\ med_tag m = medium_tag e /\
       medium unit_mesh (Z.of_nat i) = Some off /\
       at_ (_medium_names unit_mesh) off ""%string = medium_name m).
Proof.
  exact (constructed_mesh_resolves_tags 8 0x1p-51 [mkTetrahedron 10 7 1 2 3 4]
           unit_nodes [mkMedium 7 "water"] unit_mesh unit_mesh_constructed).
Defined.

Lemma construction_rejects_unknown_node_tag_witness :
  exists e' t',
    EGS_Mesh_ctor 8 0x1p-51 [mkTetrahedron 10 7 1 2 3 9] unit_nodes [mkMedium 7 "water"]
    = Throw (NoMeshNode t') /\
    e' ∈ [mkTetrahedron 10 7 1 2 3 9] /\ t' ∈ tet_node_tags e' /\
    t' ∉ node_tag <$> unit_nodes.
Proof.
  apply (construction_rejects_unknown_node_tag 8 0x1p-51 [mkTetrahedron 10 7 1 2 3 9]
           unit_nodes [mkMedium 7 "water"] (mkTetrahedron 10 7 1 2 3 9) 9).
  - vm_compute. reflexivity.
  - vm_compute. reflexivity.
  - apply (bool_decide_unpack _). vm_compute. exact I.
  - constructor.
  - apply (bool_decide_unpack _). vm_compute. exact I.
  - apply (bool_decide_unpack _). vm_compute. exact I.
Defined.

Lemma construction_rejects_duplicate_medium_tag_witness :
  exists (j j' : nat) (m m' : Medium),
    EGS_Mesh_ctor 8 0x1p-51 [mkTetrahedron 10 7 1 2 3 4] unit_nodes
      [mkMedium 7 "water"; mkMedium 7 "air"]
    = Throw (DuplicateMediumTag (med_tag m)) /\
    (j' < j)%nat /\ [mkMedium 7 "water"; mkMedium 7 "air"] !! j = Some m /\
    [mkMedium 7 "water"; mkMedium 7 "air"] !! j' = Some m' /\
    med_tag m' = med_tag m.
Proof.
  apply (construction_rejects_duplicate_medium_tag 8 0x1p-51
           [mkTetrahedron 10 7 1 2 3 4] unit_nodes
           [mkMedium 7 "water"; mkMedium 7 "air"]).
  - vm_compute. reflexivity.
  - vm_compute. reflexivity.
  - apply (bool_decide_unpack _). vm_compute. exact I.
  - intros e t He Ht. apply list_elem_of_singleton in He. subst e.
    revert t Ht. apply Forall_forall. apply (bool_decide_unpack _). vm_compute. exact I.
  - apply (bool_decide_unpack _). vm_compute. exact I.
Defined.

Lemma construction_rejects_unknown_medium_tag_witness :
  EGS_Mesh_ctor 8 0x1p-51 [mkTetrahedron 10 8 1 2 3 4] unit_nodes [mkMedium 7 "water"]
  = Throw MapAtOutOfRange.
Proof.
  apply (construction_rejects_unknown_medium_tag 8 0x1p-51
           [mkTetrahedron 10 8 1 2 3 4] unit_nodes [mkMedium 7 "water"]
           (mkTetrahedron 10 8 1 2 3 4)).
  - vm_compute. reflexivity.
  - vm_compute. reflexivity.
  - apply (bool_decide_unpack _). vm_compute. exact I.
  - intros e t He Ht. apply list_elem_of_singleton in He. subst e.
    revert t Ht. apply Forall_forall. apply (bool_decide_unpack _). vm_compute. exact I.
  - apply (bool_decide_unpack _). vm_compute. exact I.
  - constructor.
  - apply (bool_decide_unpack _). vm_compute. exact I.
Defined.

Lemma isWhere_returns_element_or_none_witness :
  isWhere unit_mesh (V 0.25 0.25 0.25) = (-1)%Z \/
  (0 <= isWhere unit_mesh (V 0.25 0.25 0.25) < num_elements unit_mesh)%Z.
Proof.
  exact (isWhere_returns_element_or_none 8 0x1p-51 [mkTetrahedron 10 7 1 2 3 4]
           unit_nodes [mkMedium 7 "water"] unit_mesh (V 0.25 0.25 0.25)
           unit_mesh_constructed).
Defined.

Lemma isWhere_small_mesh_scans_all_witness :
  isWhere unit_mesh (V 0.25 0.25 0.25) =
  if contains (bbox_ (root_ (_volume_tree unit_mesh))) (V 0.25 0.25 0.25) then
    match first_containing_element unit_mesh (V 0.25 0.25 0.25) with
    | Some e => e
    | None => (-1)%Z
    end
  else (-1)%Z.
Proof.
  apply (isWhere_small_mesh_scans_all 8 0x1p-51 [mkTetrahedron 10 7 1 2 3 4]
           unit_nodes [mkMedium 7 "water"] unit_mesh (V 0.25 0.25 0.25)
           unit_mesh_constructed).
  vm_compute. reflexivity.
Defined.

Lemma howfar_exterior_returns_boundary_element_witness :
  match howfar_exterior true true unit_mesh (V 0.25 0.25 (-1)) (V 0 0 1) 10 with
  | ExteriorMiss => True
  | ExteriorHit reg t' newmed normal =>
    (0 <= reg < num_elements unit_mesh)%Z /\ is_boundary unit_mesh reg = true /\
    fltb 10 t' = false /\
    t' = dist (closest_boundary_face unit_mesh reg (V 0.25 0.25 (-1)) (V 0 0 1)) /\
    (newmed = medium unit_mesh reg /\ is_Some newmed) /\
    is_Some normal
  | MediumOutOfRange _ => False
  | BadIntersection face => true = true /\ face = (-1)%Z
  end.
Proof.
  exact (howfar_exterior_returns_boundary_element 8 0x1p-51
           [mkTetrahedron 10 7 1 2 3 4] unit_nodes [mkMedium 7 "water"] unit_mesh
           true true (V 0.25 0.25 (-1)) (V 0 0 1) 10 unit_mesh_constructed).
Defined.

End Binary64Witnesses.

(** ** The arithmetic of binary64 *)

Module Binary64Arith.
Import SpecFloat Binary64Order.

Lemma SFcompare_key (x y : spec_float) :
  sf_nan x = false -> sf_nan y = false ->
  match SFcompare x y with
  | Some Lt => key_lt (sf_key x) (sf_key y)
  | Some Eq => sf_key x = sf_key y
  | Some Gt => key_lt (sf_key y) (sf_key x)
  | None => False
  end.
Proof.
  unfold key_lt.
  destruct x as [sx | sx | | sx mx ex], y as [sy | sy | | sy my ey];
    try discriminate; intros _ _;
    try destruct sx; try destruct sy; cbn; try lia; try reflexivity.
  - destruct (Z.compare_spec ex ey) as [-> | H | H]; cbn; try lia.
    change (Pos.compare_cont Eq mx my) with (Pos.compare mx my).
    destruct (Pos.compare_spec mx my) as [-> | H | H]; cbn; try reflexivity; lia.
  - destruct (Z.compare_spec ex ey) as [-> | H | H]; cbn; try lia.
    change (Pos.compare_cont Eq mx my) with (Pos.compare mx my).
    destruct (Pos.compare_spec mx my) as [-> | H | H]; cbn; try reflexivity; lia.
Qed.

Lemma SFcompare_nan (x y : spec_float) :
  sf_nan x = true \/ sf_nan y = true -> SFcompare x y = None.
Proof.
  destruct x as [sx | sx | | sx mx ex], y as [sy | sy | | sy my ey];
    cbn; intros [H | H]; try discriminate; reflexivity.
Qed.

Lemma key_lt_irrefl (k : Z * Z * Z) : ~ key_lt k k.
Proof. unfold key_lt. lia. Qed.

Lemma key_lt_asym (k k' : Z * Z * Z) : key_lt k k' -> ~ key_lt k' k.
Proof. unfold key_lt. lia. Qed.

Lemma SFltb_key (x y : spec_float) :
  SFltb x y = true <->
  sf_nan x = false /\ sf_nan y = false /\ key_lt (sf_key x) (sf_key y).
Proof.
  unfold SFltb.
  destruct (sf_nan x) eqn:Nx.
  { rewrite SFcompare_nan by auto. split; [discriminate | intros (H & _); discriminate]. }
  destruct (sf_nan y) eqn:Ny.
  { rewrite SFcompare_nan by auto.
    split; [discriminate | intros (_ & H & _); discriminate]. }
  pose proof (SFcompare_key x y Nx Ny) as H.
  destruct (SFcompare x y) as [[| |]|]; [| | |contradiction].
  - split; [discriminate|]. intros (_ & _ & Hk). rewrite H in Hk.
    exfalso. exact (key_lt_irrefl _ Hk).
  - split; [auto|reflexivity].
  - split; [discriminate|]. intros (_ & _ & Hk).
    exfalso. exact (key_lt_asym _ _ H Hk).
Qed.

Lemma SFleb_key (x y : spec_float) :
  SFleb x y = true <->
  sf_nan x = false /\ sf_nan y = false /\ key_le (sf_key x) (sf_key y).
Proof.
  unfold SFleb.
  destruct (sf_nan x) eqn:Nx.
  { rewrite SFcompare_nan by auto. split; [discriminate | intros (H & _); discriminate]. }
  destruct (sf_nan y) eqn:Ny.
  { rewrite SFcompare_nan by auto.
    split; [discriminate | intros (_ & H & _); discriminate]. }
  pose proof (SFcompare_key x y Nx Ny) as H.
  destruct (SFcompare x y) as [[| |]|]; [| | |contradiction].
  - split; [|reflexivity]. intros _. rewrite H. unfold key_le. split; [auto|]. split; [auto|]. lia.
  - split; [|reflexivity]. intros _. split; [auto|]. split; [auto|].
    unfold key_lt, key_le in *. lia.
  - split; [discriminate|]. intros (_ & _ & Hk).
    exfalso. unfold key_lt, key_le in *. lia.
Qed.

Lemma ltb_key (a b : float) :
  PrimFloat.ltb a b = true <-> number a /\ number b /\ key_lt (key a) (key b).
Proof. rewrite FloatAxioms.ltb_spec. apply SFltb_key. Qed.

Lemma leb_key (a b : float) :
  PrimFloat.leb a b = true <-> number a /\ number b /\ key_le (key a) (key b).
Proof. rewrite FloatAxioms.leb_spec. apply SFleb_key. Qed.

Lemma is_nan_number (a : float) : PrimFloat.is_nan a = false <-> number a.
Proof.
  unfold PrimFloat.is_nan, number. rewrite FloatAxioms.eqb_spec. unfold SFeqb.
  destruct (sf_nan (FloatOps.Prim2SF a)) eqn:N.
  - rewrite SFcompare_nan by auto. cbn. split; discriminate.
  - pose proof (SFcompare_key _ _ N N) as H.
    destruct (SFcompare _ _) as [[| |]|]; try contradiction; cbn;
      try (split; reflexivity); exfalso; exact (key_lt_irrefl _ H).
Qed.

(** The facts about the order that the proofs below use. *)

Lemma ltb_number (a b : float) : PrimFloat.ltb a b = true -> number a /\ number b.
Proof. intros H. apply ltb_key in H. tauto. Qed.

Lemma leb_number (a b : float) : PrimFloat.leb a b = true -> number a /\ number b.
Proof. intros H. apply leb_key in H. tauto. Qed.

Lemma leb_refl (a : float) : number a -> PrimFloat.leb a a = true.
Proof. intros H. apply leb_key. unfold key_le. split; [auto|]. split; [auto|]. lia. Qed.

Lemma ltb_irrefl (a : float) : PrimFloat.ltb a a = false.
Proof.
  destruct (PrimFloat.ltb a a) eqn:E; [|reflexivity].
  apply ltb_key in E as (_ & _ & E). exfalso. exact (key_lt_irrefl _ E).
Qed.

Lemma ltb_leb (a b : float) : PrimFloat.ltb a b = true -> PrimFloat.leb a b = true.
Proof.
  intros H. apply ltb_key in H as (Ha & Hb & H). apply leb_key.
  unfold key_lt, key_le in *. split; [auto|]. split; [auto|]. lia.
Qed.

Lemma ltb_not_leb (a b : float) : PrimFloat.ltb a b = true -> PrimFloat.leb b a = false.
Proof.
  intros H. apply ltb_key in H as (Ha & Hb & H).
  destruct (PrimFloat.leb b a) eqn:E; [|reflexivity].
  apply leb_key in E as (_ & _ & E). unfold key_lt, key_le in *. lia.
Qed.

Lemma leb_not_ltb (a b : float) : PrimFloat.leb a b = true -> PrimFloat.ltb b a = false.
Proof.
  intros H. destruct (PrimFloat.ltb b a) eqn:E; [|reflexivity].
  apply ltb_not_leb in E. congruence.
Qed.

Lemma not_ltb_leb (a b : float) :
  number a -> number b -> PrimFloat.ltb b a = false -> PrimFloat.leb a b = true.
Proof.
  intros Ha Hb H. apply leb_key. split; [auto|]. split; [auto|].
  destruct (PrimFloat.leb a b) eqn:E; [apply leb_key in E; tauto|].
  assert (~ key_lt (key b) (key a)) as Hn.
  { intros Hk. assert (PrimFloat.ltb b a = true) by (apply ltb_key; auto). congruence. }
  unfold key_lt, key_le in *. lia.
Qed.

Lemma not_leb_ltb (a b : float) :
  number a -> number b -> PrimFloat.leb b a = false -> PrimFloat.ltb a b = true.
Proof.
  intros Ha Hb H. apply ltb_key. split; [auto|]. split; [auto|].
  assert (~ key_le (key b) (key a)) as Hn.
  { intros Hk. assert (PrimFloat.leb b a = true) by (apply leb_key; auto). congruence. }
  unfold key_lt, key_le in *. lia.
Qed.

Lemma leb_trans (a b c : float) :
  PrimFloat.leb a b = true -> PrimFloat.leb b c = true -> PrimFloat.leb a c = true.
Proof.
  intros H1 H2. apply leb_key in H1 as (Ha & Hb & H1), H2 as (_ & Hc & H2).
  apply leb_key. split; [auto|]. split; [auto|]. unfold key_le in *. lia.
Qed.

Lemma ltb_trans (a b c : float) :
  PrimFloat.ltb a b = true -> PrimFloat.ltb b c = true -> PrimFloat.ltb a c = true.
Proof.
  intros H1 H2. apply ltb_key in H1 as (Ha & Hb & H1), H2 as (_ & Hc & H2).
  apply ltb_key. split; [auto|]. split; [auto|]. unfold key_lt in *. lia.
Qed.

Lemma ltb_leb_trans (a b c : float) :
  PrimFloat.ltb a b = true -> PrimFloat.leb b c = true -> PrimFloat.ltb a c = true.
Proof.
  intros H1 H2. apply ltb_key in H1 as (Ha & Hb & H1). apply leb_key in H2 as (_ & Hc & H2).
  apply ltb_key. split; [auto|]. split; [auto|]. unfold key_lt, key_le in *. lia.
Qed.

Lemma leb_ltb_trans (a b c : float) :
  PrimFloat.leb a b = true -> PrimFloat.ltb b c = true -> PrimFloat.ltb a c = true.
Proof.
  intros H1 H2. apply leb_key in H1 as (Ha & Hb & H1). apply ltb_key in H2 as (_ & Hc & H2).
  apply ltb_key. split; [auto|]. split; [auto|]. unfold key_lt, key_le in *. lia.
Qed.

(** The sign of a product or a sum does not influence its rounding. *)

Section Signs.
Variables prec emax : Z.

Lemma binary_round_aux_opp (s : bool) (m e : Z) (l : location) :
  binary_round_aux prec emax (negb s) m e l
  = SFopp (binary_round_aux prec emax s m e l).
Proof.
  unfold binary_round_aux.
  destruct (shr_fexp prec emax m e l) as [mrs' e'].
  destruct (shr_fexp prec emax _ e' loc_Exact) as [mrs'' e''].
  destruct (shr_m mrs''); [reflexivity | | reflexivity].
  destruct (e'' <=? emax - prec); reflexivity.
Qed.

Lemma binary_round_opp (s : bool) (m : positive) (e : Z) :
  binary_round prec emax (negb s) m e = SFopp (binary_round prec emax s m e).
Proof.
  unfold binary_round. destruct (shl_align m e _) as [mz ez].
  apply binary_round_aux_opp.
Qed.

Lemma SFopp_involutive (x : spec_float) : SFopp (SFopp x) = x.
Proof. destruct x as [[]|[]| |[] m e]; reflexivity. Qed.

Lemma SFmul_opp_l (x y : spec_float) :
  SFmul prec emax (SFopp x) y = SFopp (SFmul prec emax x y).
Proof.
  destruct x as [sx | sx | | sx mx ex], y as [sy | sy | | sy my ey]; cbn;
    try reflexivity; try (destruct sx, sy; reflexivity).
  rewrite <- Bool.negb_xorb_l. apply binary_round_aux_opp.
Qed.

Lemma SFadd_opp (x y : spec_float) :
  same_but_zero_sign (SFadd prec emax (SFopp x) (SFopp y))
                     (SFopp (SFadd prec emax x y)).
Proof.
  destruct x as [sx | sx | | sx mx ex], y as [sy | sy | | sy my ey]; cbn;
    try (left; reflexivity);
    try (destruct sx, sy; cbn; solve [left; reflexivity | right; eauto]).
  set (X := Zpos (shl_align mx ex (Z.min ex ey)).1).
  set (Y := Zpos (shl_align my ey (Z.min ex ey)).1).
  assert (cond_Zopp (negb sx) X + cond_Zopp (negb sy) Y
          = - (cond_Zopp sx X + cond_Zopp sy Y)) as ->.
  { destruct sx; destruct sy; unfold cond_Zopp; cbn [negb]; lia. }
  destruct (cond_Zopp sx X + cond_Zopp sy Y) as [|p|p].
  - right. cbn. eauto.
  - left. change (- Z.pos p) with (Z.neg p). cbn [binary_normalize].
    apply (binary_round_opp false).
  - left. change (- Z.neg p) with (Z.pos p). cbn [binary_normalize].
    change true with (negb false). rewrite binary_round_opp.
    symmetry. apply SFopp_involutive.
Qed.

Lemma SFadd_same_l (x x' y : spec_float) :
  same_but_zero_sign x x' ->
  same_but_zero_sign (SFadd prec emax x y) (SFadd prec emax x' y).
Proof.
  intros [-> | (s & s' & -> & ->)]; [left; reflexivity|].
  destruct y as [sy | sy | | sy my ey]; cbn; try (left; reflexivity).
  destruct s, s', sy; cbn; solve [left; reflexivity | right; eauto].
Qed.

End Signs.

Lemma SFltb_zero_opp (x y : spec_float) :
  same_but_zero_sign x (SFopp y) ->
  SFltb y (S754_zero false) = true -> SFltb x (S754_zero false) = false.
Proof.
  intros [-> | (s & s' & -> & _)] H; [|reflexivity].
  destruct y as [sy | sy | | sy my ey]; try discriminate; destruct sy;
    try discriminate; reflexivity.
Qed.

(** Multiplication by -1 is the change of sign. *)
Lemma shifted_mantissa (m : positive) :
  iter_pos shr_1 52
    {| shr_m := Zpos (4503599627370496 * m); shr_r := false; shr_s := false |}
  = {| shr_m := Zpos m; shr_r := false; shr_s := false |}.
Proof. vm_compute. reflexivity. Qed.

Lemma shifted_digits (m : positive) :
  Zpos (digits2_pos (4503599627370496 * m)) = Zpos (digits2_pos m) + 52.
Proof.
  assert (forall p, Zpos (digits2_pos p~0) = Zpos (digits2_pos p) + 1) as H
    by (intros p; cbn [digits2_pos]; lia).
  change (4503599627370496 * m)%positive
    with (m~0~0~0~0~0~0~0~0~0~0~0~0~0~0~0~0~0~0~0~0~0~0~0~0~0~0~0~0~0~0~0~0~0~0~0~0~0~0~0~0~0~0~0~0~0~0~0~0~0~0~0~0)%positive.
  rewrite !H. lia.
Qed.

Lemma mul_minus_one (x : float) :
  FloatOps.Prim2SF (x * -1)%float = SFopp (FloatOps.Prim2SF x).
Proof.
  rewrite FloatAxioms.mul_spec.
  change (FloatOps.Prim2SF (-1)%float) with (S754_finite true 4503599627370496 (-52)).
  pose proof (FloatAxioms.Prim2SF_valid x) as Hv.
  destruct (FloatOps.Prim2SF x) as [s | s | | s m e]; cbn;
    try reflexivity; try (destruct s; reflexivity).
  cbn in Hv. unfold bounded, canonical_mantissa in Hv.
  apply andb_prop in Hv as [Hc Hb]. apply Z.eqb_eq in Hc.
  change FloatOps.prec with 53 in *. change FloatOps.emax with 1024 in *.
  rewrite (Pos.mul_comm m).
  unfold binary_round_aux, shr_fexp. unfold Zdigits2 at 1.
  rewrite shifted_digits.
  replace (fexp 53 1024 (Zpos (digits2_pos m) + 52 + (e + -52)))
    with e by (rewrite <- Hc at 1; f_equal; lia).
  replace (e - (e + -52)) with 52 by lia.
  cbn [shr shr_record_of_loc]. rewrite shifted_mantissa.
  cbn [shr_m loc_of_shr_record round_nearest_even Zdigits2].
  replace (e + -52 + 52) with e by lia.
  rewrite Hc. rewrite Z.sub_diag. cbn [shr shr_record_of_loc shr_m].
  rewrite Hb. destruct s; reflexivity.
Qed.

End Binary64Arith.

(** ** The stored normals in binary64 *)

Module Binary64Normals.
Import SpecFloat Binary64Order Binary64Arith Binary64.
Local Open Scope float_scope.

(** The scalar product with a vector multiplied by -1 is the opposite of the
    scalar product with the vector, but for the sign of a zero. *)
Lemma dot_minus_one (n w : EGS_Vector float) :
  same_but_zero_sign (FloatOps.Prim2SF (dot (vscale (-1) n) w))
                     (SFopp (FloatOps.Prim2SF (dot n w))).
Proof.
  unfold dot, vscale. cbn [vx vy vz fadd fmul Scalar_float].
  assert (forall a b : float,
            FloatOps.Prim2SF (a * -1 * b) = SFopp (FloatOps.Prim2SF (a * b))) as Hm.
  { intros a b. rewrite (FloatAxioms.mul_spec (a * -1) b), mul_minus_one,
      (FloatAxioms.mul_spec a b). apply SFmul_opp_l. }
  rewrite !FloatAxioms.add_spec, !Hm.
  set (p1 := FloatOps.Prim2SF (vx n * vx w)).
  set (p2 := FloatOps.Prim2SF (vy n * vy w)).
  set (p3 := FloatOps.Prim2SF (vz n * vz w)).
  unfold FloatAxioms.SF64add.
  pose proof (SFadd_opp FloatOps.prec FloatOps.emax p1 p2) as H12.
  pose proof (SFadd_same_l FloatOps.prec FloatOps.emax _ _ (SFopp p3) H12) as H.
  pose proof (SFadd_opp FloatOps.prec FloatOps.emax
                (SFadd FloatOps.prec FloatOps.emax p1 p2) p3) as H'.
  destruct H as [-> | (s & s' & -> & E)]; [exact H'|].
  rewrite E in H'. destruct H' as [<- | (t & t' & _ & ->)]; right; eauto.
Qed.

(** What [get_normal] returns does not point away from [d]: its scalar
    product with [d - a] is not below 0. *)
Lemma get_normal_not_away (a b c d : EGS_Vector float) :
  (dot (get_normal a b c d) (vsub d a) <? 0) = false.
Proof.
  unfold get_normal. cbv zeta.
  set (n := normalize (cross (vsub b a) (vsub c a))).
  change (fltb (dot n (vsub d a)) f0) with (dot n (vsub d a) <? 0).
  destruct (dot n (vsub d a) <? 0) eqn:E; [|exact E].
  change (fopp f1) with (-1)%float.
  rewrite FloatAxioms.ltb_spec in *.
  apply (SFltb_zero_opp _ _ (dot_minus_one n (vsub d a)) E).
Qed.

(** C1, as the code has it.  In a constructed mesh the stored normal of
    face [i] of an element is the normalized vector product of two edges of
    the face, taken from the first node of the face, or that vector
    multiplied by -1; and it does not point away from the node opposite the
    face: its scalar product with the vector from the first node of the face
    to the opposite node is not below 0 (it is 0, positive, or a NaN). *)
Theorem stored_normal_not_away_from_opposite_node (fuel : nat) (hbt : float)
    (elements : list Tetrahedron) (nodes : list (MeshNode float))
    (materials : list Medium) (M : EGS_Mesh float) (e : Z) (i : nat) :
  EGS_Mesh_ctor fuel hbt elements nodes materials = Ok M ->
  (0 <= e < num_elements M)%Z -> (i < 4)%nat ->
  let n := element_nodes M e in
  let a := fst (fst (face_nodes n i)) in
  let b := snd (fst (face_nodes n i)) in
  let c := snd (face_nodes n i) in
  let d := opposite_node n i in
  let N := normalize (cross (vsub b a) (vsub c a)) in
  (face_normal M e i = N \/ face_normal M e i = vscale (-1) N) /\
  (dot (face_normal M e i) (vsub d a) <? 0) = false.
Proof.
  intros Hc He Hi. cbv zeta.
  pose proof (EGS_Mesh_ctor_normals_constructed _ _ _ _ _ _ e Hc He) as Hn.
  unfold normals_constructed in Hn. unfold face_normal. rewrite Hn.
  assert (forall a b c d : EGS_Vector float,
            (get_normal a b c d = normalize (cross (vsub b a) (vsub c a)) \/
             get_normal a b c d = vscale (-1) (normalize (cross (vsub b a) (vsub c a))))
            /\ (dot (get_normal a b c d) (vsub d a) <? 0) = false) as H.
  { intros a b c d. split; [|apply get_normal_not_away].
    unfold get_normal. cbv zeta. destruct (fltb _ f0); [right | left]; reflexivity. }
  destruct i as [|[|[|[|i]]]]; try lia; cbn [get4 element_normals face_nodes
    opposite_node fst snd a0 a1 a2 a3]; apply H.
Qed.

End Binary64Normals.

(** ** The exterior distance bound *)

Section ExteriorBound.
Context {F : Type} {SF : Scalar F} {LF : Limits F}.
Local Abbreviation Vec := (EGS_Vector F).


(** For a position inside the root box of the surface tree of a constructed
    mesh, [hownear] in the state Outside looks at one leaf only, the leaf
    that the descent by [findOctant] ends in: it returns what
    [hownear_leaf_search] computes from the box of that leaf and the
    elements the leaf lists, and those are boundary elements of the mesh. *)
Theorem hownear_exterior_searches_one_leaf (fuel : nat) (hbt : F)
    (elements : list Tetrahedron) (nodes : list (MeshNode F))
    (materials : list Medium) (M : EGS_Mesh F) (p : Vec) :
  EGS_Mesh_ctor fuel hbt elements nodes materials = Ok M ->
  contains (bbox_ (root_ (_surface_tree M))) p = true ->
  let leaf := leaf_for (root_ (_surface_tree M)) p in
  hownear M (-1) p = Ok (hownear_leaf_search leaf p M) /\
  leaf = Leaf (node_elts leaf) (bbox_ leaf) /\
  forall e, In e (node_elts leaf) ->
    (0 <= e < num_elements M)%Z /\ is_boundary M e = true.
Proof.
  intros Hctor Hp. cbv zeta.
  destruct (EGS_Mesh_ctor_stages _ _ _ _ _ _ Hctor) as (M1 & M2 & M3 & H1 & H2 & H3 & ->).
  destruct (initializeOctrees_store _ _ _ H3)
    as (T3 & I3 & N3 & _ & _ & _ & B3 & _ & Hst).
  cbn [_surface_tree initializeNormals] in *.
  apply Octree_ctor_root in Hst as [_ Hroot].
  set (root := root_ (_surface_tree M3)) in *.
  split.
  { unfold hownear, min_exterior_face_dist, Octree_hownear_exterior.
    cbn [_surface_tree initializeNormals]. fold root. rewrite Hp. cbn [negb].
    rewrite Node_hownear_exterior_leaf_for. reflexivity. }
  split.
  { generalize root. intros n. induction n; cbn [leaf_for]; [reflexivity|].
    destruct (findOctant _ p) as [|[|[|[|[|[|[|o]]]]]]]; assumption. }
  intros e He. apply (Node_ctor_leaf_elts _ _ _ _ _ _ p e Hroot) in He.
  apply filter_In in He as [Hin Hb]. apply element_range_In in Hin.
  split.
  - unfold num_elements in *. cbn [_elt_tags initializeNormals]. rewrite T3. exact Hin.
  - unfold is_boundary in *. cbn [_boundary_faces initializeNormals]. rewrite B3. exact Hb.
Qed.

End ExteriorBound.

(** ** Distances and boxes in binary64 *)

Module Binary64Queries.
Import SpecFloat Binary64Order Binary64Arith Binary64 Binary64Facts.
Local Open Scope float_scope.

(** [std::min] of two numbers is a number not above either. *)
Lemma fmin_least (a b : float) :
  is_nan a = false -> is_nan b = false ->
  is_nan (fmin a b) = false /\ (fmin a b <=? a) = true /\ (fmin a b <=? b) = true.
Proof.
  intros Ha Hb. pose proof Ha as Na. pose proof Hb as Nb.
  apply is_nan_number in Na, Nb.
  unfold fmin. change (fltb b a) with (b <? a).
  destruct (b <? a) eqn:E.
  - split; [exact Hb|]. split; [apply ltb_leb, E | apply leb_refl, Nb].
  - split; [exact Ha|]. split; [apply leb_refl, Na | apply not_ltb_leb; assumption].
Qed.

(** C7, as the code has it.  For a valid region, [hownear] in the state
    Inside returns one of the four distances it computes from the position
    to the planes of the faces, each the absolute value of a scalar product
    with the stored normal; the value is not below 0; and when none of the
    four distances is a NaN it is a number not above any of them, their
    minimum. *)
Theorem hownear_interior_least_plane_distance (M : EGS_Mesh float) (ireg : Z)
    (x : EGS_Vector float) :
  (0 <= ireg < num_elements M)%Z ->
  exists d,
    hownear M ireg x = Ok d /\
    In d (face_plane_distances M ireg x) /\
    (d <? 0) = false /\
    ((forall d', In d' (face_plane_distances M ireg x) -> is_nan d' = false) ->
     is_nan d = false /\
     forall d', In d' (face_plane_distances M ireg x) -> (d <=? d') = true).
Proof.
  intros Hreg. unfold hownear.
  replace ((ireg >? 0)%Z && (ireg >? num_elements M - 1)%Z) with false
    by (symmetry; apply andb_false_iff; right; rewrite Z.gtb_ltb; apply Z.ltb_ge; lia).
  replace (ireg >=? 0)%Z with true by (symmetry; apply Z.geb_le; lia).
  eexists; split; [reflexivity|].
  unfold min_interior_face_dist, face_plane_distances. cbv zeta.
  cbn [List.map face_nodes fst snd].
  set (d0 := distance_to_plane x (face_normal M ireg 0) (nB (element_nodes M ireg))).
  set (d1 := distance_to_plane x (face_normal M ireg 1) (nA (element_nodes M ireg))).
  set (d2 := distance_to_plane x (face_normal M ireg 2) (nA (element_nodes M ireg))).
  set (d3 := distance_to_plane x (face_normal M ireg 3) (nA (element_nodes M ireg))).
  split.
  { repeat apply fmin_either; cbn; tauto. }
  split.
  { repeat apply fmin_either; apply abs_not_negative. }
  intros Hnum.
  assert (is_nan d0 = false /\ is_nan d1 = false /\ is_nan d2 = false /\
          is_nan d3 = false) as (N0 & N1 & N2 & N3).
  { repeat split; apply Hnum; cbn; tauto. }
  destruct (fmin_least d0 d1 N0 N1) as (M1 & L10 & L11).
  destruct (fmin_least (fmin d0 d1) d2 M1 N2) as (M2 & L21 & L22).
  destruct (fmin_least (fmin (fmin d0 d1) d2) d3 M2 N3) as (M3 & L32 & L33).
  split; [exact M3|].
  intros d' [<- | [<- | [<- | [<- | []]]]].
  - exact (leb_trans _ _ _ L32 (leb_trans _ _ _ L21 L10)).
  - exact (leb_trans _ _ _ L32 (leb_trans _ _ _ L21 L11)).
  - exact (leb_trans _ _ _ L32 L22).
  - exact L33.
Qed.

(** One axis of the choice [findOctant] makes between the two halves
    [lo, mid) and [mid, hi) of a slab. *)
Lemma half_slab_selected (lo mid hi p : float) :
  is_nan mid = false -> (lo <=? p) = true -> (p <? hi) = true ->
  (if mid <=? p then (mid <=? p) && (p <? hi) else (lo <=? p) && (p <? mid)) = true.
Proof.
  intros Nm Hlo Hhi. destruct (mid <=? p) eqn:E.
  - rewrite Hhi. reflexivity.
  - rewrite Hlo. cbn [andb]. apply not_leb_ltb; [|apply is_nan_number, Nm|exact E].
    apply (leb_number _ _ Hlo).
Qed.

Lemma half_slab_unique (mid p : float) :
  (p <? mid) = true -> (mid <=? p) = false.
Proof. apply ltb_not_leb. Qed.

(** The octant [findOctant] selects.  When a box with midpoints that are
    numbers contains a point, so does the octant that [findOctant] selects
    among the eight of [divide8]; and no other octant contains the point. *)
Theorem findOctant_selects_containing_octant (n : Node float)
    (p : EGS_Vector float) :
  contains (bbox_ n) p = true ->
  is_nan (mid_x (bbox_ n)) = false -> is_nan (mid_y (bbox_ n)) = false ->
  is_nan (mid_z (bbox_ n)) = false ->
  contains (nth (findOctant n p) (divide8 (bbox_ n)) (bbox_ n)) p = true /\
  forall i, (i < 8)%nat ->
    contains (nth i (divide8 (bbox_ n)) (bbox_ n)) p = true -> i = findOctant n p.
Proof.
  intros Hc Nx Ny Nz.
  unfold contains in Hc. cbn [fleb fltb Scalar_float] in Hc.
  repeat (apply andb_prop in Hc as [Hc ?]).
  pose proof (half_slab_selected _ _ _ _ Nx Hc H3) as Sx.
  pose proof (half_slab_selected _ _ _ _ Ny H2 H1) as Sy.
  pose proof (half_slab_selected _ _ _ _ Nz H0 H) as Sz.
  unfold findOctant. cbv zeta. cbn [fleb fltb Scalar_float].
  split.
  - revert Sx Sy Sz.
    destruct (mid_x (bbox_ n) <=? vx p) eqn:Ex, (mid_y (bbox_ n) <=? vy p) eqn:Ey,
      (mid_z (bbox_ n) <=? vz p) eqn:Ez; intros Sx Sy Sz;
      cbn [Nat.add nth divide8]; unfold contains;
      cbn [min_x max_x min_y max_y min_z max_z fleb fltb Scalar_float];
      apply andb_prop in Sx as [Sx1 Sx2]; apply andb_prop in Sy as [Sy1 Sy2];
      apply andb_prop in Sz as [Sz1 Sz2];
      rewrite ?Ex, ?Ey, ?Ez, ?Sx1, ?Sx2, ?Sy1, ?Sy2, ?Sz1, ?Sz2; reflexivity.
  - intros i Hi Hci.
    destruct i as [|[|[|[|[|[|[|[|i]]]]]]]]; try lia;
      cbn [nth divide8] in Hci; unfold contains in Hci;
      cbn [min_x max_x min_y max_y min_z max_z fleb fltb Scalar_float] in Hci;
      repeat (apply andb_prop in Hci as [Hci ?]);
      repeat match goal with
      | E : (_ <? mid_x _) = true |- _ => apply half_slab_unique in E; rewrite E
      | E : (_ <? mid_y _) = true |- _ => apply half_slab_unique in E; rewrite E
      | E : (_ <? mid_z _) = true |- _ => apply half_slab_unique in E; rewrite E
      | E : (mid_x _ <=? _) = true |- _ => rewrite E; clear E
      | E : (mid_y _ <=? _) = true |- _ => rewrite E; clear E
      | E : (mid_z _ <=? _) = true |- _ => rewrite E; clear E
      end; reflexivity.
Qed.

Lemma fmax_keeps_lower (a t : float) :
  (0 <=? a) = true -> (0 <=? fmax a t) = true.
Proof.
  intros H0. unfold fmax. change (fltb a t) with (a <? t).
  destruct (a <? t) eqn:Ht; [|exact H0].
  apply ltb_leb, (leb_ltb_trans _ _ _ H0 Ht).
Qed.

(** One slab of the ray-box test keeps the lower end of the interval at a
    number that is not below 0. *)
Lemma slab_step_lower_end (p v lo hi tmin tmax tmin' tmax' : float) :
  (0 <=? tmin) = true ->
  slab_step p v lo hi (tmin, tmax) = Some (tmin', tmax') ->
  (0 <=? tmin') = true.
Proof.
  intros H0. unfold slab_step.
  destruct (fltb (fabs v) eps).
  - match goal with
    | |- (if ?c then _ else _) = _ -> _ => destruct c; [discriminate|]
    end.
    intros E; injection E as <- _. exact H0.
  - cbv zeta.
    match goal with
    | |- (let '(_, _) := if ?c then _ else _ in _) = _ -> _ => destruct c
    end; cbv beta iota;
      match goal with
      | |- (if ?c then _ else _) = _ -> _ => destruct c; [discriminate|]
      end;
      intros E; injection E as <- _; apply fmax_keeps_lower, H0.
Qed.

Lemma ray_intersection_lower_end (bb : BoundingBox float)
    (p v q : EGS_Vector float) (d : float) :
  ray_intersection bb p v = Some (d, q) ->
  (0 <=? d) = true /\ q = vadd p (vscale d v).
Proof.
  unfold ray_intersection.
  destruct (slab_step (vx p) (vx v) _ _ _) as [[a1 b1]|] eqn:S1; [|discriminate].
  destruct (slab_step (vy p) (vy v) _ _ _) as [[a2 b2]|] eqn:S2; [|discriminate].
  destruct (slab_step (vz p) (vz v) _ _ _) as [[a3 b3]|] eqn:S3; [|discriminate].
  intros E; injection E as <- <-.
  assert (PrimFloat.leb 0 0 = true) as H0 by reflexivity.
  change 0%float with (@f0 float _) in H0 at 2.
  pose proof (slab_step_lower_end _ _ _ _ f0 _ _ _ H0 S1) as H1.
  pose proof (slab_step_lower_end _ _ _ _ _ _ _ _ H1 S2) as H2.
  pose proof (slab_step_lower_end _ _ _ _ _ _ _ _ H2 S3) as H3.
  split; [exact H3 | reflexivity].
Qed.

(** The distance [BoundingBox::ray_intersection] reports is a number that is
    not below 0, and the point it reports is the point of the ray at that
    distance, whatever the box, the origin and the direction are. *)
Theorem ray_intersection_distance_not_negative (bb : BoundingBox float)
    (p v q : EGS_Vector float) (d : float) :
  ray_intersection bb p v = Some (d, q) ->
  (0 <=? d) = true /\ is_nan d = false /\ (d <? 0) = false /\
  q = vadd p (vscale d v).
Proof.
  intros H. apply ray_intersection_lower_end in H as [H3 ->].
  split; [exact H3|]. split; [apply is_nan_number, (leb_number _ _ H3)|].
  split; [apply leb_not_ltb, H3 | reflexivity].
Qed.

End Binary64Queries.

Section OctantPairs.
Context {F : Type} {SF : Scalar F} {LF : Limits F}.
Local Open Scope egs_scope.
Local Abbreviation Vec := (EGS_Vector F).

Lemma insert_pair_perm (x : F * nat) (l : list (F * nat)) :
  Permutation (insert_pair x l) (x :: l).
Proof.
  induction l as [|y l IH]; cbn [insert_pair]; [reflexivity|].
  destruct (pair_ltb y x); [|reflexivity].
  rewrite IH. apply perm_swap.
Qed.

Lemma sort_pairs_perm (l : list (F * nat)) : Permutation (sort_pairs l) l.
Proof.
  induction l as [|x l IH]; cbn; [reflexivity|].
  rewrite insert_pair_perm. constructor. exact IH.
Qed.

(** The (distance, octant) pairs [findOtherIntersectedOctants] collects. *)
Lemma octant_pairs_spec (n : Node F) (p v : Vec) (ex : nat) (d : F) (o : nat) :
  In (d, o)
    (flat_map (fun i =>
       if (i =? ex)%nat then []
       else match ray_intersection (bbox_ (child n i)) p v with
            | Some (dist, _) => [(dist, i)]
            | None => []
            end) (seq 0 8)) <->
  (o < 8)%nat /\ o <> ex /\ octant_entry n p v o = Some d.
Proof.
  rewrite in_flat_map. unfold octant_entry. split.
  - intros (i & Hi & Hin). apply in_seq in Hi.
    destruct (i =? ex)%nat eqn:E; [destruct Hin|]. apply Nat.eqb_neq in E.
    destruct (ray_intersection (bbox_ (child n i)) p v) as [[d' q]|] eqn:Er;
      [|destruct Hin].
    destruct Hin as [Hin | []]. injection Hin as -> ->.
    rewrite Er. split; [lia|]. split; [exact E | reflexivity].
  - intros (Ho & Hne & He). exists o. split; [apply in_seq; lia|].
    apply Nat.eqb_neq in Hne. rewrite Hne.
    destruct (ray_intersection (bbox_ (child n o)) p v) as [[d' q]|]; [|discriminate].
    injection He as ->. left. reflexivity.
Qed.

Lemma octant_pairs_NoDup (f : nat -> list (F * nat)) (l : list nat) :
  (forall i, f i = [] \/ exists d, f i = [(d, i)]) ->
  NoDup l -> NoDup (List.map snd (flat_map f l)).
Proof.
  intros Hf. induction 1 as [|a l Ha Hl IH]; cbn [flat_map List.map]; [constructor|].
  rewrite List.map_app.
  destruct (Hf a) as [-> | [d ->]]; cbn [List.map app snd]; [exact IH|].
  constructor; [|exact IH].
  intros Hin. apply list_elem_of_In, in_map_iff in Hin as ([d' o] & Ho & Hin).
  cbn in Ho. subst o. apply in_flat_map in Hin as (i & Hi & Hin).
  destruct (Hf i) as [E | [d'' E]]; rewrite E in Hin; [destruct Hin|].
  destruct Hin as [Hin | []]. injection Hin as _ ->.
  apply Ha, list_elem_of_In, Hi.
Qed.

End OctantPairs.

Module Binary64Octants.
Import SpecFloat Binary64Order Binary64Arith Binary64 Binary64Facts Binary64Queries.
Import Binary64Notions.
Local Open Scope float_scope.

Lemma key_trichotomy (k k' : Z * Z * Z) : ~ key_lt k k' -> ~ key_lt k' k -> k = k'.
Proof.
  destruct k as [[a b] c], k' as [[a' b'] c']. unfold key_lt. cbn [fst snd].
  intros H1 H2. assert (a = a' /\ b = b' /\ c = c') as (-> & -> & ->) by lia.
  reflexivity.
Qed.

Lemma pair_ltb_false (a b : float * nat) :
  number (fst a) -> number (fst b) -> pair_ltb a b = false -> pair_le b a.
Proof.
  unfold pair_ltb, pair_le. intros Na Nb H.
  apply orb_false_iff in H as [H1 H2].
  change (fltb ?x ?y) with (x <? y) in H1, H2.
  assert (~ key_lt (key (fst a)) (key (fst b))) as K1.
  { intros K. assert ((fst a <? fst b) = true) as E by (apply ltb_key; auto).
    congruence. }
  apply andb_false_iff in H2 as [H2 | H2].
  - apply negb_false_iff in H2. apply ltb_key in H2 as (_ & _ & H2). left. exact H2.
  - apply Nat.ltb_ge in H2.
    destruct (fst b <? fst a) eqn:E.
    + apply ltb_key in E as (_ & _ & E). left. exact E.
    + right. split; [|exact H2]. apply key_trichotomy; [|exact K1].
      intros K. assert ((fst b <? fst a) = true) as E' by (apply ltb_key; auto).
      congruence.
Qed.

Lemma pair_ltb_true (a b : float * nat) :
  number (fst a) -> number (fst b) -> pair_ltb a b = true -> pair_le a b.
Proof.
  unfold pair_ltb, pair_le. intros Na Nb H.
  change (fltb ?x ?y) with (x <? y) in H.
  apply orb_true_iff in H as [H | H].
  - apply ltb_key in H as (_ & _ & H). left. exact H.
  - apply andb_true_iff in H as [H1 H2]. apply negb_true_iff in H1.
    apply Nat.ltb_lt in H2.
    destruct (fst a <? fst b) eqn:E.
    + apply ltb_key in E as (_ & _ & E). left. exact E.
    + right. split; [|lia]. apply key_trichotomy.
      * intros K. assert ((fst a <? fst b) = true) as E' by (apply ltb_key; auto).
        congruence.
      * intros K. assert ((fst b <? fst a) = true) as E' by (apply ltb_key; auto).
        congruence.
Qed.

Lemma pair_le_trans (a b c : float * nat) : pair_le a b -> pair_le b c -> pair_le a c.
Proof.
  unfold pair_le, key_lt.
  intros [H1 | [H1 H1']] [H2 | [H2 H2']].
  - left. lia.
  - left. rewrite <- H2. exact H1.
  - left. rewrite H1. exact H2.
  - right. split; [congruence | lia].
Qed.

Lemma insert_pair_sorted (x : float * nat) (l : list (float * nat)) :
  number (fst x) -> Forall (fun y => number (fst y)) l ->
  StronglySorted pair_le l -> StronglySorted pair_le (insert_pair x l).
Proof.
  intros Nx Nl Hs. revert Nl.
  induction Hs as [|y l Hs IH Hall]; intros Nl; cbn [insert_pair].
  - repeat constructor.
  - apply Forall_cons_1 in Nl as [Ny Nl].
    destruct (pair_ltb y x) eqn:E.
    + constructor; [exact (IH Nl)|].
      apply pair_ltb_true in E; [|assumption..].
      eapply Permutation_Forall; [symmetry; apply insert_pair_perm|].
      constructor; [exact E | exact Hall].
    + apply pair_ltb_false in E; [|assumption..].
      constructor; [constructor; assumption|].
      constructor; [exact E|].
      eapply Forall_impl; [exact Hall|]. intros z Hz. cbv beta in *.
      exact (pair_le_trans _ _ _ E Hz).
Qed.

Lemma sort_pairs_sorted (l : list (float * nat)) :
  Forall (fun y => number (fst y)) l -> StronglySorted pair_le (sort_pairs l).
Proof.
  induction 1 as [|x l Nx Nl IH]; cbn; [constructor|].
  apply insert_pair_sorted; [exact Nx | | exact IH].
  eapply Permutation_Forall; [symmetry; apply sort_pairs_perm | exact Nl].
Qed.

Lemma sorted_lookup (l : list (float * nat)) :
  StronglySorted pair_le l ->
  forall i j a b, (i < j)%nat -> l !! i = Some a -> l !! j = Some b -> pair_le a b.
Proof.
  induction 1 as [|y l Hs IH Hall]; intros i j a b Hij Ha Hb.
  - destruct i; discriminate.
  - destruct j as [|j]; [lia|]. cbn in Hb.
    destruct i as [|i]; cbn in Ha.
    + injection Ha as <-. rewrite Forall_forall in Hall.
      apply Hall. eapply list_elem_of_lookup_2, Hb.
    + apply (IH i j); [lia | assumption | assumption].
Qed.

(** [findOtherIntersectedOctants] in binary64: the octants it returns are
    the octants other than the excluded one whose boxes the ray meets, each
    once.  Of two octants returned, the one returned first is not entered
    at a greater distance, and where neither distance is below the other it
    has the smaller octant number. *)
Theorem findOtherIntersectedOctants_ordered (bb : BoundingBox float)
    (c0 c1 c2 c3 c4 c5 c6 c7 : Node float)
    (p v : EGS_Vector float) (exclude_octant : nat) :
  let n := Parent bb c0 c1 c2 c3 c4 c5 c6 c7 in
  let l := findOtherIntersectedOctants n p v exclude_octant in
  NoDup l /\
  (forall o, In o l <->
     (o < 8)%nat /\ o <> exclude_octant /\ octant_entry n p v o <> None) /\
  (forall i j oi oj, (i < j)%nat -> l !! i = Some oi -> l !! j = Some oj ->
     exists di dj,
       octant_entry n p v oi = Some di /\ octant_entry n p v oj = Some dj /\
       (dj <? di) = false /\ ((di <? dj) = false -> (oi < oj)%nat)).
Proof.
  cbv zeta. generalize (Parent bb c0 c1 c2 c3 c4 c5 c6 c7). intros n.
  unfold findOtherIntersectedOctants. cbv zeta.
  set (pairs := flat_map _ (seq 0 8)).
  pose proof (sort_pairs_perm pairs) as Hperm.
  assert (forall a, In a pairs ->
            (snd a < 8)%nat /\ snd a <> exclude_octant /\
            octant_entry n p v (snd a) = Some (fst a)) as Hspec0.
  { intros [d o] Hin. apply (octant_pairs_spec n p v exclude_octant d o). exact Hin. }
  assert (forall a, In a pairs -> number (fst a)) as Hnum.
  { intros a Hin. destruct (Hspec0 a Hin) as (_ & _ & He). unfold octant_entry in He.
    destruct (ray_intersection _ p v) as [[d q]|] eqn:Er; [|discriminate].
    injection He as He. rewrite <- He.
    apply ray_intersection_lower_end in Er as [Er _].
    exact (proj2 (leb_number _ _ Er)). }
  assert (StronglySorted pair_le (sort_pairs pairs)) as Hsorted.
  { apply sort_pairs_sorted, List.Forall_forall. intros a Ha. apply Hnum.
    exact Ha. }
  assert (NoDup (List.map snd pairs)) as Hnd.
  { apply octant_pairs_NoDup; [|apply NoDup_ListNoDup, seq_NoDup].
    intros i. destruct (i =? exclude_octant)%nat; [left; reflexivity|].
    destruct (ray_intersection _ p v) as [[d q]|]; [right; eauto | left; reflexivity]. }
  assert (NoDup (List.map snd (sort_pairs pairs))) as Hnd'.
  { assert (List.map snd (sort_pairs pairs) ≡ₚ List.map snd pairs) as Hp
      by (apply Permutation_map; exact Hperm).
    rewrite Hp. exact Hnd. }
  assert (forall a, In a (sort_pairs pairs) ->
            number (fst a) /\
            (snd a < 8)%nat /\ snd a <> exclude_octant /\
            octant_entry n p v (snd a) = Some (fst a)) as Hspec.
  { intros a Hin. apply (Permutation_in _ Hperm) in Hin. split; auto. }
  split; [exact Hnd'|]. split.
  - intros o. rewrite in_map_iff. split.
    + intros (a & <- & Hin). destruct (Hspec a Hin) as (_ & H1 & H2 & H3).
      split; [exact H1|]. split; [exact H2|]. rewrite H3. discriminate.
    + intros (H1 & H2 & H3).
      destruct (octant_entry n p v o) as [d|] eqn:E; [|congruence].
      exists (d, o). split; [reflexivity|].
      apply (Permutation_in _ (Permutation_sym Hperm)).
      apply (octant_pairs_spec n p v exclude_octant d o). auto.
  - intros i j oi oj Hij Hi Hj.
    change (List.map snd (sort_pairs pairs)) with (snd <$> sort_pairs pairs) in Hi, Hj.
    apply list_lookup_fmap_Some in Hi as (a & -> & Ha).
    apply list_lookup_fmap_Some in Hj as (b & -> & Hb).
    destruct (Hspec a) as (Na & _ & _ & Ea);
      [apply list_elem_of_In; eapply list_elem_of_lookup_2, Ha|].
    destruct (Hspec b) as (Nb & _ & _ & Eb);
      [apply list_elem_of_In; eapply list_elem_of_lookup_2, Hb|].
    exists (fst a), (fst b). split; [exact Ea|]. split; [exact Eb|].
    assert (snd a <> snd b) as Hne.
    { intros Heq'.
      assert (i = j); [|lia].
      apply (NoDup_lookup _ i j (snd a) Hnd').
      - change (List.map snd (sort_pairs pairs)) with (snd <$> sort_pairs pairs).
        rewrite list_lookup_fmap, Ha. reflexivity.
      - change (List.map snd (sort_pairs pairs)) with (snd <$> sort_pairs pairs).
        rewrite list_lookup_fmap, Hb, Heq'. reflexivity. }
    destruct (sorted_lookup _ Hsorted i j a b Hij Ha Hb) as [Hlt | [Heq Hle]].
    + assert ((fst a <? fst b) = true) as E by (apply ltb_key; auto).
      split; [|congruence].
      destruct (fst b <? fst a) eqn:E'; [|reflexivity].
      apply ltb_key in E' as (_ & _ & E'). exfalso. exact (key_lt_asym _ _ Hlt E').
    + split; [|intros _; lia].
      destruct (fst b <? fst a) eqn:E'; [|reflexivity].
      apply ltb_key in E' as (_ & _ & E'). rewrite Heq in E'.
      exfalso. exact (key_lt_irrefl _ E').
Qed.

End Binary64Octants.

(** ** Entering the mesh from outside, in binary64 *)

Module Binary64Exterior.
Import SpecFloat Binary64Order Binary64Arith Binary64 Binary64Facts Binary64Notions.
Local Open Scope float_scope.

(** A hit of the exterior ray test is at a distance that is not below 0. *)
Lemma exterior_hit_not_negative (p v a b c : EGS_Vector float) (d0 d : float) :
  exterior_triangle_ray_intersection p v a b c d0 = (true, d) -> (d <? 0) = false.
Proof.
  unfold exterior_triangle_ray_intersection. cbv zeta.
  repeat match goal with
  | |- (if ?c then _ else _) = _ -> _ => destruct c eqn:?; try discriminate
  end.
  intros H. injection H as <-. assumption.
Qed.

Lemma boundary_face_hit_not_negative (M : EGS_Mesh float) (e : Z)
    (x u : EGS_Vector float) (f : nat) (d : float) :
  boundary_face_hit M e x u f = Some d -> (d <? 0) = false.
Proof.
  unfold boundary_face_hit. cbv zeta.
  destruct (face_nodes (element_nodes M e) f) as [[A B] C].
  destruct (_ && _ && _); [|discriminate].
  destruct (exterior_triangle_ray_intersection x u A B C f0) as [[|] d'] eqn:E;
    [|discriminate].
  intros H. injection H as <-. exact (exterior_hit_not_negative _ _ _ _ _ _ _ E).
Qed.

Lemma pick_face_choice (M : EGS_Mesh float) (e : Z) (x u : EGS_Vector float)
    (done : list nat) (st : float * Z) (f : nat) :
  face_choice M e x u done st ->
  face_choice M e x u (f :: done) (pick_face M e x u st f).
Proof.
  intros (Hmax & Hnone & Hsome & Hmin). unfold pick_face.
  destruct (boundary_face_hit M e x u f) as [d|] eqn:Eh.
  - change (fltb d (fst st)) with (d <? fst st).
    destruct (d <? fst st) eqn:El.
    + split; [|split; [|split]]; cbn [fst snd].
      * apply ltb_leb. exact (ltb_leb_trans _ _ _ El Hmax).
      * lia.
      * intros _. exists f. split; [left; reflexivity|]. auto.
      * intros f' d' [<-|Hin] Hf'.
        -- rewrite Eh in Hf'. injection Hf' as <-. apply ltb_irrefl.
        -- destruct (d' <? d) eqn:E'; [|reflexivity].
           pose proof (ltb_trans _ _ _ E' El) as Hc.
           rewrite (Hmin f' d' Hin Hf') in Hc. discriminate.
    + split; [exact Hmax|]. split; [exact Hnone|]. split.
      * intros Hne. destruct (Hsome Hne) as (f' & Hin & Hf'). exists f'.
        split; [right; exact Hin | exact Hf'].
      * intros f' d' [<-|Hin] Hf'; [|eauto].
        rewrite Eh in Hf'. injection Hf' as <-. exact El.
  - split; [exact Hmax|]. split; [exact Hnone|]. split.
    + intros Hne. destruct (Hsome Hne) as (f' & Hin & Hf'). exists f'.
      split; [right; exact Hin | exact Hf'].
    + intros f' d' [<-|Hin] Hf'; [congruence | eauto].
Qed.

(** [closest_boundary_face] on its four faces: the distance is not above
    the largest double; without a face it is the largest double; with one,
    that face is hit at the distance returned, and no face is hit at a
    distance below it. *)
Lemma closest_boundary_face_choice (M : EGS_Mesh float) (e : Z)
    (x u : EGS_Vector float) :
  let r := closest_boundary_face M e x u in
  (dist r <=? numeric_max) = true /\
  (face_index r = (-1)%Z -> dist r = numeric_max) /\
  (face_index r <> (-1)%Z ->
   exists f, (f < 4)%nat /\ face_index r = Z.of_nat f /\
             boundary_face_hit M e x u f = Some (dist r)) /\
  forall f d, (f < 4)%nat -> boundary_face_hit M e x u f = Some d ->
              (d <? dist r) = false.
Proof.
  cbv zeta. rewrite closest_boundary_face_fold. cbn [fold_left dist face_index].
  assert (face_choice M e x u [] (numeric_max, (-1)%Z)) as H0.
  { split; [reflexivity|]. split; [reflexivity|]. split; [cbn; congruence|].
    intros f d []. }
  apply (pick_face_choice _ _ _ _ _ _ 0%nat) in H0.
  apply (pick_face_choice _ _ _ _ _ _ 1%nat) in H0.
  apply (pick_face_choice _ _ _ _ _ _ 2%nat) in H0.
  apply (pick_face_choice _ _ _ _ _ _ 3%nat) in H0.
  destruct H0 as (Hmax & Hnone & Hsome & Hmin).
  split; [exact Hmax|]. split; [exact Hnone|]. split.
  - intros Hne. destruct (Hsome Hne) as (f & Hin & Hf). exists f.
    split; [|exact Hf]. cbn in Hin. lia.
  - intros f d Hf. apply Hmin. cbn. lia.
Qed.

(** [EGS_Mesh::howfar_exterior] in binary64, on a constructed mesh: none
    of its two exceptions is raised.  The call misses, or it returns a
    boundary element of the mesh with a distance that is neither below 0
    nor above the [t] passed in; a boundary face of that element is hit at
    that distance, it is the face whose normal is returned, and no face of
    the element is hit by the exterior ray test at a distance below it. *)
Theorem howfar_exterior_never_throws (fuel : nat) (hbt : float)
    (elements : list Tetrahedron) (nodes : list (MeshNode float))
    (materials : list Medium) (M : EGS_Mesh float)
    (want_newmed want_normal : bool) (x u : EGS_Vector float) (t : float) :
  EGS_Mesh_ctor fuel hbt elements nodes materials = Ok M ->
  howfar_exterior want_newmed want_normal M x u t = ExteriorMiss \/
  exists reg t' newmed normal,
    howfar_exterior want_newmed want_normal M x u t
      = ExteriorHit reg t' newmed normal /\
    (0 <= reg < num_elements M)%Z /\ is_boundary M reg = true /\
    (t' <? 0) = false /\ (t <? t') = false /\
    exists f, (f < 4)%nat /\
      face_index (closest_boundary_face M reg x u) = Z.of_nat f /\
      boundary_face_hit M reg x u f = Some t' /\
      forall f' d, (f' < 4)%nat -> boundary_face_hit M reg x u f' = Some d ->
                   (d <? t') = false.
Proof.
  intros Hc. unfold howfar_exterior.
  destruct (Octree_howfar_exterior _ x u t M f1e30) as [reg d] eqn:E.
  change (fltb t d) with (t <? d).
  destruct (t <? d) eqn:Ht; cbn [orb]; [left; reflexivity|].
  destruct (reg =? -1)%Z eqn:Er; [left; reflexivity|]. apply Z.eqb_neq in Er.
  right.
  destruct (Octree_howfar_exterior_leaf _ _ _ _ _ _ _ _ E Er) as (elts & Hin & Hl).
  assert ((d <=? numeric_max) = true /\
          (reg <> (-1)%Z ->
           In reg elts /\ d = dist (closest_boundary_face M reg x u) /\
           face_index (closest_boundary_face M reg x u) <> (-1)%Z))
    as (_ & Hreg).
  { pose proof (howfar_exterior_leaf_inv M x u
       (fun st => (snd st <=? numeric_max) = true /\
          (fst st <> (-1)%Z ->
           In (fst st) elts /\
           snd st = dist (closest_boundary_face M (fst st) x u) /\
           face_index (closest_boundary_face M (fst st) x u) <> (-1)%Z)) elts)
      as Hinv.
    rewrite Hl in Hinv. apply Hinv.
    - intros st e [Hmax _] He Hbe Hlt. cbn [fst snd].
      change (fltb ?a ?b) with (a <? b) in Hlt.
      split; [apply ltb_leb; exact (ltb_leb_trans _ _ _ Hlt Hmax)|].
      intros _. split; [exact He|]. split; [reflexivity|].
      intros Hm1.
      destruct (closest_boundary_face_choice M e x u) as (_ & Hnone & _).
      rewrite (Hnone Hm1) in Hlt. apply ltb_not_leb in Hlt. congruence.
    - split; [reflexivity|]. cbn. congruence. }
  destruct (Hreg Er) as (Hr & Hd & Hface).
  destruct (surface_tree_elements _ _ _ _ _ _ _ Hc (Hin _ Hr)) as (Hrange & Hb & Hmed).
  destruct (closest_boundary_face_choice M reg x u) as (_ & _ & Hsome & Hmin).
  destruct (Hsome Hface) as (f & Hf4 & Hfi & Hhit).
  rewrite <- Hd in Hhit, Hmin.
  pose proof (boundary_face_hit_not_negative _ _ _ _ _ _ Hhit) as Hd0.
  assert (
    (0 <= reg < num_elements M)%Z /\ is_boundary M reg = true /\
    (d <? 0) = false /\ (t <? d) = false /\
    exists f, (f < 4)%nat /\
      face_index (closest_boundary_face M reg x u) = Z.of_nat f /\
      boundary_face_hit M reg x u f = Some d /\
      forall f' d', (f' < 4)%nat -> boundary_face_hit M reg x u f' = Some d' ->
                   (d' <? d) = false) as Hfin.
  { repeat (split; [assumption|]). exists f. auto. }
  assert (want_newmed && negb
             (match (if want_newmed then medium M reg else None) with
              | Some _ => true | None => false end) = false) as ->.
  { destruct Hmed as [m Hm]. destruct want_newmed; cbn [andb]; [rewrite Hm|];
      reflexivity. }
  destruct want_normal; cbn [negb];
    [|eexists _, _, _, _; split; [reflexivity | exact Hfin]].
  rewrite Hfi. cbv zeta. clear Hfi.
  destruct f as [|[|[|[|f]]]]; [..|lia]; cbn [Z.of_nat Pos.of_succ_nat Pos.succ];
    (eexists _, _, _, _; split; [reflexivity | exact Hfin]).
Qed.

End Binary64Exterior.

(** ** Instances and counterexamples in binary64 *)

Module Binary64Checks.
Import Binary64 Binary64Facts.
Local Open Scope float_scope.

(** Face 3 of the unit tetrahedron: the stored normal is (0, 0, 1) and the
    opposite node is (0, 0, 1). *)
Lemma stored_normal_not_away_from_opposite_node_witness :
  let n := element_nodes unit_mesh 0 in
  let a := fst (fst (face_nodes n 3)) in
  let b := snd (fst (face_nodes n 3)) in
  let c := snd (face_nodes n 3) in
  let d := opposite_node n 3 in
  let N := normalize (cross (vsub b a) (vsub c a)) in
  (face_normal unit_mesh 0 3 = N \/ face_normal unit_mesh 0 3 = vscale (-1) N) /\
  (dot (face_normal unit_mesh 0 3) (vsub d a) <? 0) = false.
Proof.
  apply (Binary64Normals.stored_normal_not_away_from_opposite_node 8 0x1p-51
           [mkTetrahedron 10 7 1 2 3 4] unit_nodes [mkMedium 7 "water"] unit_mesh
           0 3 unit_mesh_constructed).
  - replace (num_elements unit_mesh) with 1%Z by (vm_compute; reflexivity). lia.
  - lia.
Defined.

(** Against C7 as stated.  In the tetrahedron whose face 0 has its nodes on
    one line, the vector product of the edges of face 0 is 0 and the stored
    normal of that face is 0/0, a NaN; so is the distance to the plane of
    face 0, and [std::min], which returns its first argument unless the
    second is below it, keeps it: [hownear] returns a NaN, which is neither
    the least of the four values nor at least 0. *)
Lemma hownear_interior_returns_nan :
  EGS_Mesh_ctor 8 0x1p-51 [mkTetrahedron 10 7 1 2 3 4] lead_flat_nodes
    [mkMedium 7 "water"] = Ok lead_flat_mesh /\
  num_elements lead_flat_mesh = 1%Z /\
  face_plane_distances lead_flat_mesh 0 (V 0.25 0.25 0.125)
    = [nan; 0.25; 0.25; 0.25] /\
  hownear lead_flat_mesh 0 (V 0.25 0.25 0.125) = Ok nan /\
  (nan <=? 0.25) = false /\ (0 <=? nan) = false.
Proof. vm_compute. auto 8. Qed.

(** In the unit tetrahedron at (1/4, 1/4, 1/8) the four distances are
    numbers and the value returned is the least of them, 1/8. *)
Lemma hownear_interior_least_plane_distance_witness :
  exists d,
    hownear unit_mesh 0 (V 0.25 0.25 0.125) = Ok d /\
    In d (face_plane_distances unit_mesh 0 (V 0.25 0.25 0.125)) /\
    (d <? 0) = false /\
    ((forall d', In d' (face_plane_distances unit_mesh 0 (V 0.25 0.25 0.125)) ->
                 is_nan d' = false) ->
     is_nan d = false /\
     forall d', In d' (face_plane_distances unit_mesh 0 (V 0.25 0.25 0.125)) ->
                (d <=? d') = true).
Proof.
  apply (Binary64Queries.hownear_interior_least_plane_distance unit_mesh 0
           (V 0.25 0.25 0.125)).
  replace (num_elements unit_mesh) with 1%Z by (vm_compute; reflexivity). lia.
Defined.

(** Against C8 as stated.  With two node records of tag 2 and as many
    elements as an int can count, the constructor throws, but the error is
    the one of the capacity check on the elements, which comes first. *)
Lemma duplicate_node_tags_capacity_error_first :
  duplicate_nodes !! 1%nat = Some (mkMeshNode 2 1 0 0) /\
  duplicate_nodes !! 2%nat = Some (mkMeshNode 2 0 1 0) /\
  EGS_Mesh_ctor 8 0x1p-51 elements_at_capacity duplicate_nodes [mkMedium 7 "water"]
  = Throw TooManyElements /\
  EGS_Mesh_ctor 8 0x1p-51 elements_at_capacity duplicate_nodes [mkMedium 7 "water"]
  <> Throw DuplicateNodes.
Proof.
  assert (EGS_Mesh_ctor 8 0x1p-51 elements_at_capacity duplicate_nodes
            [mkMedium 7 "water"] = Throw TooManyElements) as E.
  { unfold EGS_Mesh_ctor, initializeElements, elements_at_capacity. cbv zeta.
    rewrite repeat_length, Z2Nat.id by (unfold INT_MAX; lia).
    rewrite Z.geb_leb, Z.leb_refl. reflexivity. }
  split; [reflexivity|]. split; [reflexivity|]. split; [exact E|].
  rewrite E. discriminate.
Qed.


Lemma hownear_exterior_searches_one_leaf_witness :
  let leaf := leaf_for (root_ (_surface_tree unit_mesh)) (V 0.25 0.25 0.5) in
  hownear unit_mesh (-1) (V 0.25 0.25 0.5)
  = Ok (hownear_leaf_search leaf (V 0.25 0.25 0.5) unit_mesh) /\
  leaf = Leaf (node_elts leaf) (bbox_ leaf) /\
  forall e, In e (node_elts leaf) ->
    (0 <= e < num_elements unit_mesh)%Z /\ is_boundary unit_mesh e = true.
Proof.
  apply (hownear_exterior_searches_one_leaf 8 0x1p-51 [mkTetrahedron 10 7 1 2 3 4]
           unit_nodes [mkMedium 7 "water"] unit_mesh (V 0.25 0.25 0.5)
           unit_mesh_constructed).
  vm_compute. reflexivity.
Defined.

(** The root box of the volume tree of the unit tetrahedron and the point
    (1/4, 1/4, 1/4), which is in its octant 0. *)
Lemma findOctant_selects_containing_octant_witness :
  let n := root_ (_volume_tree unit_mesh) in
  let p := V 0.25 0.25 0.25 in
  contains (nth (findOctant n p) (divide8 (bbox_ n)) (bbox_ n)) p = true /\
  forall i, (i < 8)%nat ->
    contains (nth i (divide8 (bbox_ n)) (bbox_ n)) p = true -> i = findOctant n p.
Proof.
  apply (Binary64Queries.findOctant_selects_containing_octant
           (root_ (_volume_tree unit_mesh)) (V 0.25 0.25 0.25));
    vm_compute; reflexivity.
Defined.

(** The ray from one unit below the unit tetrahedron straight up enters the
    root box of the surface tree at the distance 1 - 1e-8. *)
Lemma ray_intersection_distance_not_negative_witness :
  (0 <=? 0.99999998999999995) = true /\ is_nan 0.99999998999999995 = false /\
  (0.99999998999999995 <? 0) = false /\
  V 0.25 0.25 (-1.0000000050247593e-08)
  = vadd (V 0.25 0.25 (-1)) (vscale 0.99999998999999995 (V 0 0 1)).
Proof.
  apply (Binary64Queries.ray_intersection_distance_not_negative
           (bbox_ (root_ (_surface_tree unit_mesh))) (V 0.25 0.25 (-1)) (V 0 0 1)).
  vm_compute. reflexivity.
Defined.

(** From one unit below the unit tetrahedron straight up: the constructed
    mesh of one element. *)
Lemma howfar_exterior_never_throws_witness :
  howfar_exterior true true unit_mesh (V 0.25 0.25 (-1)) (V 0 0 1) 10 = ExteriorMiss \/
  exists reg t' newmed normal,
    howfar_exterior true true unit_mesh (V 0.25 0.25 (-1)) (V 0 0 1) 10
      = ExteriorHit reg t' newmed normal /\
    (0 <= reg < num_elements unit_mesh)%Z /\ is_boundary unit_mesh reg = true /\
    (t' <? 0) = false /\ (10 <? t') = false /\
    exists f, (f < 4)%nat /\
      face_index (closest_boundary_face unit_mesh reg (V 0.25 0.25 (-1)) (V 0 0 1))
        = Z.of_nat f /\
      boundary_face_hit unit_mesh reg (V 0.25 0.25 (-1)) (V 0 0 1) f = Some t' /\
      forall f' d, (f' < 4)%nat ->
        boundary_face_hit unit_mesh reg (V 0.25 0.25 (-1)) (V 0 0 1) f' = Some d ->
        (d <? t') = false.
Proof.
  exact (Binary64Exterior.howfar_exterior_never_throws 8 0x1p-51
           [mkTetrahedron 10 7 1 2 3 4] unit_nodes [mkMedium 7 "water"] unit_mesh
           true true (V 0.25 0.25 (-1)) (V 0 0 1) 10 unit_mesh_constructed).
Defined.

(** A ray along x in the plane y = 1/2 that separates the octants of the
    unit cube: it enters octants 0 and 2 at the distance 1 and octants 1 and
    3 at the distance 1.5, and does not meet the upper four. *)
Lemma findOtherIntersectedOctants_ordered_witness :
  let n := cube_parent in
  let p := V (-1) 0.5 0.25 in
  let v := V 1 0 0 in
  let l := findOtherIntersectedOctants n p v 7 in
  l = [0; 2; 1; 3]%nat /\
  NoDup l /\
  (forall o, In o l <-> (o < 8)%nat /\ o <> 7%nat /\ octant_entry n p v o <> None) /\
  (forall i j oi oj, (i < j)%nat -> l !! i = Some oi -> l !! j = Some oj ->
     exists di dj,
       octant_entry n p v oi = Some di /\ octant_entry n p v oj = Some dj /\
       (dj <? di) = false /\ ((di <? dj) = false -> (oi < oj)%nat)).
Proof.
  split; [vm_compute; reflexivity|].
  exact (Binary64Octants.findOtherIntersectedOctants_ordered unit_cube
           (octant_leaf 0) (octant_leaf 1) (octant_leaf 2) (octant_leaf 3)
           (octant_leaf 4) (octant_leaf 5) (octant_leaf 6) (octant_leaf 7)
           (V (-1) 0.5 0.25) (V 1 0 0) 7).
Defined.

End Binary64Checks.
